(** * Appearance-embedding renderer: a shallow embedding

    Source: [internal/renderers/gsplat_appearance_embedding_renderer.py].

    Conventions of the embedding.
    - Python [int] is [Z]; Python [bool] is [bool]; [str] is [string];
      [None]-able values are [option].
    - A float (and every element of a float tensor) is a real number [R]:
      rounding, infinities and NaN are outside this model.
    - A tensor of shape [N] is a [list R], a tensor of shape [N,3] is a list of
      triples ([vec3]), a tensor of shape [N,K] with K not fixed by the source
      is a [list (list R)].
    - Fallible Python code returns [result]; calls on collaborator objects
      (projection, spherical harmonics, the shading model, the rasterizer, the
      base renderer) are the nodes of a program tree [prog], so that "which
      calls are made, with which arguments" is a property of the tree. *)

From Stdlib Require Import ZArith List String Bool Lia.
From Stdlib Require Import Reals Lra.
Import ListNotations.

Local Open Scope Z_scope.

(** ** Exceptions and the error monad *)

Inductive exn : Type :=
| ZeroDivisionError
| IndexError
| KeyError
| ShapeError
| ValueError
| AttributeError
| ComplexValue. (* not an exception: Python's [**] left the floats *)

Inductive result (A : Type) : Type :=
| Ok (a : A)
| Raise (e : exn).
Arguments Ok {A} a.
Arguments Raise {A} e.

Definition rbind {A B} (r : result A) (k : A -> result B) : result B :=
  match r with
  | Ok a => k a
  | Raise e => Raise e
  end.

Declare Scope result_scope.
Delimit Scope result_scope with result.
Notation "x <- r ;; k" := (rbind r (fun x => k))
  (at level 61, r at next level, right associativity) : result_scope.

Fixpoint mapM {A B} (f : A -> result B) (l : list A) : result (list B) :=
  match l with
  | [] => Ok []
  | a :: l' =>
      (b <- f a ;;
       bs <- mapM f l' ;;
       Ok (b :: bs))%result
  end.

(** ** Configuration records *)

Record ModelConfig : Type := mkModelConfig {
  n_gaussian_feature_dims : Z;
  n_appearances : Z;
  n_appearance_embedding_dims : Z;
  is_view_dependent : bool;
  n_view_direction_frequencies : Z;
  n_neurons : Z;
  n_layers : Z;
  skip_layers : list Z;
  normalize : bool
}.

Record OptimizationConfig : Type := mkOptimizationConfig {
  gamma_eps : R;
  embedding_lr_init : R;
  embedding_lr_final_factor : R;
  lr_init : R;
  lr_final_factor : R;
  eps : R;
  max_steps : Z;
  warm_up : Z
}.

Definition set_n_appearances (c : ModelConfig) (n : Z) : ModelConfig :=
  mkModelConfig (n_gaussian_feature_dims c) n (n_appearance_embedding_dims c)
    (is_view_dependent c) (n_view_direction_frequencies c) (n_neurons c)
    (n_layers c) (skip_layers c) (normalize c).

(** ** Learning-rate schedule *)

Local Open Scope R_scope.

(** Python's [x ** y] on floats.  [x ** 0] is 1 for every [x]; a positive base
    gives [exp (y * ln x)]; base 0 gives 0 for a positive exponent and raises
    for a negative one; a negative base gives a float only for an
    integer-valued exponent and a complex number otherwise. *)
Definition py_pow (x y : R) : result R :=
  if Req_dec_T y 0 then Ok 1
  else if Rlt_dec 0 x then Ok (Rpower x y)
  else if Req_dec_T x 0 then
    if Rlt_dec 0 y then Ok 0 else Raise ZeroDivisionError
  else if Req_dec_T y (IZR (Int_part y)) then Ok (powerRZ x (Int_part y))
  else Raise ComplexValue.

(** [max(iter - warm_up, 0) / max_steps]: true division of two ints. *)
Definition progress (max_steps warm_up iter : Z) : result R :=
  if (max_steps =? 0)%Z then Raise ZeroDivisionError
  else Ok (IZR (Z.max (iter - warm_up) 0) / IZR max_steps).

(** [lambda iter: lr_final_factor ** min(max(iter - warm_up, 0) / max_steps, 1)] *)
Definition lr_lambda (lr_final_factor : R) (max_steps warm_up : Z) (iter : Z)
  : result R :=
  (p <- progress max_steps warm_up iter ;;
   py_pow lr_final_factor (Rmin p 1))%result.

(** The two parameter sets of the shading model. *)
Inductive parameters : Type :=
| embedding_parameters  (* [self.model.embedding.parameters()] *)
| network_parameters.   (* [self.model.network.parameters()] *)

(** [torch.optim.Adam] with one parameter group, and [LambdaLR] over it. *)
Record Optimizer : Type := mkAdam {
  group_params : parameters;
  group_name : string;
  opt_lr : R;
  opt_eps : R
}.

Record Scheduler : Type := mkLambdaLR {
  sched_optimizer : Optimizer;
  sched_lambda : Z -> result R
}.

(** [torch.optim.Adam(params, lr=..., eps=...)]: the constructor rejects a
    negative learning rate and a negative epsilon. *)
Definition Adam (params : parameters) (name : string) (lr eps : R)
  : result Optimizer :=
  if Rlt_dec lr 0 then Raise ValueError
  else if Rlt_dec eps 0 then Raise ValueError
  else Ok (mkAdam params name lr eps).

(** [torch.optim.lr_scheduler.LambdaLR(optimizer, lr_lambda)]: the
    constructor takes the initial step, which evaluates [lr_lambda(0)]; an
    exception of the lambda propagates (a complex value is none). *)
Definition LambdaLR (optimizer : Optimizer) (lr_lambda : Z -> result R)
  : result Scheduler :=
  match lr_lambda 0%Z with
  | Ok _ => Ok (mkLambdaLR optimizer lr_lambda)
  | Raise ComplexValue => Ok (mkLambdaLR optimizer lr_lambda)
  | Raise e => Raise e
  end.

Definition _create_optimizer_and_scheduler
    (params : parameters) (name : string) (lr_init lr_final_factor : R)
    (max_steps : Z) (eps : R) (warm_up : Z) : result (Optimizer * Scheduler) :=
  (optimizer <- Adam params name lr_init eps ;;
   scheduler <- LambdaLR optimizer
                  (lr_lambda lr_final_factor max_steps warm_up) ;;
   Ok (optimizer, scheduler))%result.

(** ** Tensors *)

Definition vec3 : Type := (R * R * R)%type.

Definition map3 (f : R -> R) (v : vec3) : vec3 :=
  let '(x, y, z) := v in (f x, f y, f z).

Definition zip3 (f : R -> R -> R) (a b : vec3) : vec3 :=
  let '(x, y, z) := a in
  let '(x', y', z') := b in (f x x', f y y', f z z').

Definition vec3_to_row (v : vec3) : list R :=
  let '(x, y, z) := v in [x; y; z].

(** [v.norm(dim=-1)] of one row. *)
Definition norm3 (v : vec3) : R :=
  let '(x, y, z) := v in sqrt (x * x + y * y + z * z).

Definition norm (v : list R) : R :=
  sqrt (fold_right (fun x acc => x * x + acc) 0 v).

Fixpoint zip_with {A B C} (f : A -> B -> C) (xs : list A) (ys : list B)
  : list C :=
  match xs, ys with
  | x :: xs', y :: ys' => f x y :: zip_with f xs' ys'
  | _, _ => []
  end.

(** An elementwise operation on the leading dimension, with torch's
    broadcasting: equal sizes pair up, a size of 1 is stretched, anything else
    is a shape error. *)
Definition broadcast {A B C} (f : A -> B -> C) (xs : list A) (ys : list B)
  : result (list C) :=
  if (List.length xs =? List.length ys)%nat then Ok (zip_with f xs ys)
  else
    match xs, ys with
    | [x], _ => Ok (map (f x) ys)
    | _, [y] => Ok (map (fun x => f x y) xs)
    | _, _ => Raise ShapeError
    end.

(** [x[mask]] with a boolean mask over the leading dimension. *)
Fixpoint select {A} (xs : list A) (mask : list bool) : list A :=
  match xs, mask with
  | x :: xs', b :: mask' =>
      if b then x :: select xs' mask' else select xs' mask'
  | _, _ => []
  end.

Definition masked_select {A} (xs : list A) (mask : list bool)
  : result (list A) :=
  if (List.length xs =? List.length mask)%nat then Ok (select xs mask)
  else Raise IndexError.

Definition count_true (mask : list bool) : nat :=
  List.length (filter (fun b => b) mask).

(** Writes [vals], in order, at the positions where [mask] is true. *)
Fixpoint scatter {A} (buf : list A) (mask : list bool) (vals : list A)
  : list A :=
  match buf, mask with
  | x :: buf', true :: mask' =>
      match vals with
      | v :: vals' => v :: scatter buf' mask' vals'
      | [] => x :: scatter buf' mask' []
      end
  | x :: buf', false :: mask' => x :: scatter buf' mask' vals
  | _, _ => buf
  end.

(** [buf[mask] = vals]: the mask covers the leading dimension of [buf]; the
    values number as many as the true entries, or are one row broadcast. *)
Definition masked_assign {A} (buf : list A) (mask : list bool) (vals : list A)
  : result (list A) :=
  if (List.length buf =? List.length mask)%nat then
    if (List.length vals =? count_true mask)%nat then Ok (scatter buf mask vals)
    else
      match vals with
      | [v] => Ok (scatter buf mask (repeat v (count_true mask)))
      | _ => Raise ShapeError
      end
  else Raise IndexError.

(** [torch.clamp(x, min=lo, max=hi)] on one element. *)
Definition clamp (lo hi x : R) : R := Rmin (Rmax x lo) hi.

(** [x.clamp_min(lo)] on one element. *)
Definition clamp_min (lo x : R) : R := Rmax x lo.

(** [torch.nn.functional.normalize(x, dim=-1)] on one row: [x / max(|x|, 1e-12)]. *)
Definition F_normalize (row : list R) : list R :=
  let d := Rmax (norm row) (/ 1000000000000) in
  map (fun x => x / d) row.

(** ** The appearance shading model ([Model]) *)

Definition sigmoid (x : R) : R := 1 / (1 + exp (- x)).

(** Modelled from the spec: the network that
    [NetworkFactory.get_network_with_skip_layers] builds (the factory is not
    part of the source at hand).  The spec gives a feed-forward network whose
    input dimension is fixed at construction, with 3 outputs and output
    activation sigmoid; the hidden layers and the final linear layer are the
    function [logits], whatever the weights are. *)
Record Network : Type := mkNetwork {
  n_input_dims : Z;
  logits : list R -> vec3
}.

Definition network_row (net : Network) (x : list R) : result vec3 :=
  if (Z.of_nat (List.length x) =? n_input_dims net)%Z
  then Ok (map3 sigmoid (logits net x))
  else Raise ShapeError.

Definition network_forward (net : Network) (input : list (list R))
  : result (list vec3) :=
  mapM (network_row net) input.

(** [PositionalEncoding(3, n_frequencies)]: its class is not part of the source
    at hand; the model uses only its two methods. *)
Record PositionalEncoding : Type := mkPositionalEncoding {
  encode : vec3 -> list R;
  get_output_n_channels : Z
}.

Record Model : Type := mkModel {
  config : ModelConfig;
  embedding : list (list R);   (* [nn.Embedding.weight], one row per id *)
  view_direction_encoding : option PositionalEncoding;
  network : Network
}.

(** What [Model._setup] draws or builds outside the source at hand: the initial
    embedding weights, the encoder and the network's function. *)
Record Initializer : Type := mkInitializer {
  init_embedding : nat -> nat -> R;
  init_encoding : Z -> PositionalEncoding;
  init_logits : list R -> vec3
}.

(** [nn.Embedding(num_embeddings, embedding_dim)]: a table of that shape;
    torch rejects a negative size. *)
Definition nn_Embedding (init : nat -> nat -> R)
    (num_embeddings embedding_dim : Z) : result (list (list R)) :=
  if ((num_embeddings <? 0) || (embedding_dim <? 0))%Z then Raise ValueError
  else
    Ok (map (fun i => map (init i) (seq 0 (Z.to_nat embedding_dim)))
          (seq 0 (Z.to_nat num_embeddings))).

(** Modelled from the spec: network construction by the absent factory "fails
    if configured skip-layer indices are out of range for the configured
    depth". *)
Definition get_network_with_skip_layers (f : list R -> vec3)
    (n_input_dims n_layers : Z) (skips : list Z) : result Network :=
  if forallb (fun i => (0 <=? i) && (i <? n_layers))%Z skips
  then Ok (mkNetwork n_input_dims f)
  else Raise ValueError.

(** [Model.__init__] and [Model._setup]. *)
Definition Model_setup (init : Initializer) (c : ModelConfig) : result Model :=
  (emb <- nn_Embedding (init_embedding init)
            (n_appearances c) (n_appearance_embedding_dims c) ;;
   let n_input_dims :=
     (n_gaussian_feature_dims c + n_appearance_embedding_dims c)%Z in
   let enc :=
     if is_view_dependent c
     then Some (init_encoding init (n_view_direction_frequencies c))
     else None in
   let n_input_dims :=
     match enc with
     | Some e => (n_input_dims + get_output_n_channels e)%Z
     | None => n_input_dims
     end in
   net <- get_network_with_skip_layers (init_logits init)
            n_input_dims (n_layers c) (skip_layers c) ;;
   Ok (mkModel c emb enc net))%result.

(** [self.embedding(appearance.reshape((-1,)))]: one row of the table. *)
Definition embedding_lookup (table : list (list R)) (appearance : Z)
  : result (list R) :=
  if (appearance <? 0)%Z then Raise IndexError
  else
    match nth_error table (Z.to_nat appearance) with
    | Some row => Ok row
    | None => Raise IndexError
    end.

(** [torch.concat(..., dim=-1)] of two tensors: the leading sizes must agree. *)
Definition concat_rows (a b : list (list R)) : result (list (list R)) :=
  if (List.length a =? List.length b)%nat then Ok (zip_with (@app R) a b)
  else Raise ShapeError.

(** [Model.forward]. *)
Definition Model_forward (m : Model) (gaussian_features : list (list R))
    (appearance : Z) (view_dirs : list vec3) : result (list vec3) :=
  (row <- embedding_lookup (embedding m) appearance ;;
   let appearance_embeddings := repeat row (List.length gaussian_features) in
   let gaussian_features :=
     if normalize (config m) then map F_normalize gaussian_features
     else gaussian_features in
   let appearance_embeddings :=
     if normalize (config m) then map F_normalize appearance_embeddings
     else appearance_embeddings in
   network_input <- concat_rows gaussian_features appearance_embeddings ;;
   network_input <-
     (if is_view_dependent (config m) then
        match view_direction_encoding m with
        | Some e => concat_rows network_input (map (encode e) view_dirs)
        | None => Raise AttributeError
        end
      else Ok network_input) ;;
   network_forward (network m) network_input)%result.

(** The prediction as the renderer uses it: [self.model(...) * 2 - 1.]. *)
Definition rescale (offsets : list vec3) : list vec3 :=
  map (map3 (fun x => x * 2 - 1)) offsets.

Definition predict (m : Model) (gaussian_features : list (list R))
    (appearance : Z) (view_dirs : list vec3) : result (list vec3) :=
  (out <- Model_forward m gaussian_features appearance view_dirs ;;
   Ok (rescale out))%result.

(** ** Collaborators of the renderer *)

Record Camera : Type := mkCamera {
  camera_center : vec3;
  appearance_id : Z;
  width : Z;
  height : Z
}.

Record GaussianModel : Type := mkGaussianModel {
  get_xyz : list vec3;
  get_scaling : list vec3;
  get_rotation : list (list R);
  get_opacities : list R;                   (* shape [N,1] *)
  get_features : list (list vec3);          (* shape [N,K,3] *)
  get_appearance_features : list (list R);
  active_sh_degree : Z;
  get_3d_filtered_scales_and_opacities : list R * list vec3
}.

(** The tuple [GSPlatRenderer.project] returns. *)
Record ProjectionResults : Type := mkProjectionResults {
  xys : list (R * R);
  depths : list R;
  radii : list Z;
  conics : list vec3;
  comp : list R;
  num_tiles_hit : list Z;
  cov3d : list (list R)
}.

Definition Image : Type := list (list (list R)).

(** The keyword arguments of [rasterize_simplified]. *)
Record RasterArgs : Type := mkRasterArgs {
  project_results : ProjectionResults;
  viewpoint_camera : Camera;
  colors : list (list R);
  bg_color : list R;
  opacities : list R;
  raster_anti_aliased : bool
}.

(** The dictionary the base renderer returns; its keys are its own. *)
Definition BaseOutput : Type := list (string * Image).

(** The calls the renderer makes on its collaborators, each with the type of
    what it gets back. *)
Inductive call : Type -> Type :=
| GSPlatRenderer_project
    (means3D scales : list vec3) (rotations : list (list R))
    (viewpoint_camera : Camera) (scaling_modifier : R)
    (filter_2d_kernel_size : R) : call ProjectionResults
| spherical_harmonics
    (degree : Z) (dirs : list vec3) (coeffs : list (list vec3))
    : call (list vec3)
| model_call
    (gaussian_features : list (list R)) (appearance : Z)
    (view_dirs : list vec3) : call (list vec3)
| rasterize_simplified (args : RasterArgs) : call Image
| base_renderer_call
    (viewpoint_camera : Camera) (pc : GaussianModel) (bg_color : list R)
    (scaling_modifier : R) (render_types : option (list string))
    : call BaseOutput.

(** Programs over those calls. *)
Inductive prog (A : Type) : Type :=
| Ret (a : A)
| Throw (e : exn)
| Vis {X : Type} (c : call X) (k : X -> prog A).
Arguments Ret {A} a.
Arguments Throw {A} e.
Arguments Vis {A X} c k.

Fixpoint bind {A B} (p : prog A) (f : A -> prog B) : prog B :=
  match p with
  | Ret a => f a
  | Throw e => Throw e
  | Vis c k => Vis c (fun x => bind (k x) f)
  end.

Definition trigger {X} (c : call X) : prog X := Vis c Ret.

Definition lift {A} (r : result A) : prog A :=
  match r with
  | Ok a => Ret a
  | Raise e => Throw e
  end.

Declare Scope prog_scope.
Delimit Scope prog_scope with prog.
Notation "x <- p ;; k" := (bind p (fun x => k))
  (at level 61, p at next level, right associativity) : prog_scope.
Notation "' pat <- p ;; k" := (bind p (fun x => match x with pat => k end))
  (at level 61, pat pattern, p at next level, right associativity)
  : prog_scope.

(** A handler answers every call (or raises); [run] is the program under it,
    [trace] the calls it makes, in order. *)
Definition handler : Type := forall X, call X -> result X.

Fixpoint run {A} (h : handler) (p : prog A) : result A :=
  match p with
  | Ret a => Ok a
  | Throw e => Raise e
  | Vis c k =>
      match h _ c with
      | Ok x => run h (k x)
      | Raise e => Raise e
      end
  end.

Inductive any_call : Type :=
| Called {X : Type} (c : call X).

Fixpoint trace {A} (h : handler) (p : prog A) : list any_call :=
  match p with
  | Ret _ => []
  | Throw _ => []
  | Vis c k =>
      Called c ::
      match h _ c with
      | Ok x => trace h (k x)
      | Raise _ => []
      end
  end.

Definition is_model_call {X} (c : call X) : Prop :=
  match c with
  | model_call _ _ _ => True
  | _ => False
  end.

Definition is_base_renderer_call {X} (c : call X) : Prop :=
  match c with
  | base_renderer_call _ _ _ _ _ => True
  | _ => False
  end.

(** ** The renderer module *)

Inductive variant : Type :=
| Plain   (* [GSplatAppearanceEmbeddingRendererModule] *)
| Mip.    (* [GSplatAppearanceEmbeddingMipRendererModule] *)

Record RendererModule : Type := mkRendererModule {
  class : variant;
  anti_aliased : bool;
  model_config : ModelConfig;
  optimization_config : OptimizationConfig;
  filter_2d_kernel_size : R;
  model : option Model;        (* unset until [_setup_model] *)
  renderer : bool              (* whether [self.renderer] is set *)
}.

Definition set_model_config (self : RendererModule) (c : ModelConfig)
  : RendererModule :=
  mkRendererModule (class self) (anti_aliased self) c
    (optimization_config self) (filter_2d_kernel_size self) (model self)
    (renderer self).

Definition set_model (self : RendererModule) (m : Model) : RendererModule :=
  mkRendererModule (class self) (anti_aliased self) (model_config self)
    (optimization_config self) (filter_2d_kernel_size self) (Some m) true.

(** [__init__] *)
Definition init_module (v : variant) (anti_aliased : bool) (model : ModelConfig)
    (optimization : OptimizationConfig) (filter_2d_kernel_size : R)
  : RendererModule :=
  mkRendererModule v anti_aliased model optimization filter_2d_kernel_size
    None false.

(** [lightning_module.trainer.datamodule.dataparser_outputs]: the one field
    [setup] reads, a dictionary from group name to (appearance id, normalized
    id), if any. *)
Record LightningModule : Type := mkLightningModule {
  appearance_group_ids : option (list (string * (Z * R)))
}.

(** A method that mutates [self] and may raise: the state after, and the
    outcome. *)
Definition method (A : Type) : Type := (RendererModule * result A)%type.

(** [_setup_model]; a device move does not change a value. *)
Definition _setup_model (init : Initializer) (self : RendererModule)
  : method unit :=
  match Model_setup init (model_config self) with
  | Ok m => (set_model self m, Ok tt)
  | Raise e => (self, Raise e)
  end.

(** The loop of [setup] over [appearance_group_ids.values()]. *)
Definition max_input_id_of (values : list (Z * R)) : Z :=
  fold_left (fun max_input_id i =>
               if (fst i >? max_input_id)%Z then fst i else max_input_id)
    values 0%Z.

Definition setup (init : Initializer) (self : RendererModule) (stage : string)
    (lightning_module : option LightningModule) : method unit :=
  match lightning_module with
  | None => (self, Ok tt)
  | Some lm =>
      let self :=
        if (n_appearances (model_config self) <=? 0)%Z then
          let max_input_id :=
            match appearance_group_ids lm with
            | Some d => max_input_id_of (map snd d)
            | None => 0%Z
            end in
          let n_appearances := (max_input_id + 1)%Z in
          set_model_config self
            (set_n_appearances (model_config self) n_appearances)
        else self in
      _setup_model init self
  end.

(** A persisted tensor. *)
Inductive tensor : Type :=
| Tensor1 (data : list R)
| Tensor2 (data : list (list R)).

Definition shape0 (t : tensor) : Z :=
  match t with
  | Tensor1 d => Z.of_nat (List.length d)
  | Tensor2 d => Z.of_nat (List.length d)
  end.

Definition StateDict : Type := list (string * tensor).

Fixpoint getitem (d : StateDict) (key : string) : result tensor :=
  match d with
  | [] => Raise KeyError
  | (k, v) :: d' => if String.eqb k key then Ok v else getitem d' key
  end.

(** What [nn.Module.load_state_dict] returns: missing and unexpected keys. *)
Definition IncompatibleKeys : Type := (list string * list string)%type.

(** [load_state_dict]; [super_load] is the framework's
    [nn.Module.load_state_dict], which the source delegates to. *)
Definition load_state_dict (init : Initializer)
    (super_load : RendererModule -> StateDict -> bool -> method IncompatibleKeys)
    (self : RendererModule) (state_dict : StateDict) (strict : bool)
  : method IncompatibleKeys :=
  match getitem state_dict "model.embedding.weight" with
  | Raise e => (self, Raise e)
  | Ok w =>
      let self :=
        set_model_config self (set_n_appearances (model_config self) (shape0 w)) in
      match _setup_model init self with
      | (self, Raise e) => (self, Raise e)
      | (self, Ok _) => super_load self state_dict strict
      end
  end.

(** [training_setup]: both calls pass [optimization_config.lr_final_factor];
    the parameters are those of [self.model], which must be set. *)
Definition training_setup (self : RendererModule)
  : result (list Optimizer * list Scheduler) :=
  match model self with
  | None => Raise AttributeError
  | Some _ =>
      let c := optimization_config self in
      (embedding <-
         _create_optimizer_and_scheduler embedding_parameters "embedding"
           (embedding_lr_init c) (lr_final_factor c) (max_steps c) (eps c)
           (warm_up c) ;;
       network <-
         _create_optimizer_and_scheduler network_parameters
           "embedding_network"
           (lr_init c) (lr_final_factor c) (max_steps c) (eps c) (warm_up c) ;;
       Ok ([fst embedding; fst network], [snd embedding; snd network])
      )%result
  end.

(** ** Rendering *)

(** [opacities.detach()]: the same values, cut from the gradient graph (which
    this embedding does not represent). *)
Definition detach (x : R) : R := x.

(** [x in render_types] for a list of strings. *)
Definition contains (render_types : list string) (x : string) : bool :=
  existsb (String.eqb x) render_types.

(** [preprocess], of the plain module and of its Mip subclass. *)
Definition preprocess (self : RendererModule) (pc : GaussianModel)
    (viewpoint_camera : Camera) (scaling_modifier : R)
  : prog (ProjectionResults * list R) :=
  match class self with
  | Plain =>
      (pr <- trigger (GSPlatRenderer_project (get_xyz pc) (get_scaling pc)
                        (get_rotation pc) viewpoint_camera scaling_modifier
                        (filter_2d_kernel_size self)) ;;
       Ret (pr, get_opacities pc))%prog
  | Mip =>
      let '(opacities, scales) := get_3d_filtered_scales_and_opacities pc in
      (pr <- trigger (GSPlatRenderer_project (get_xyz pc) scales
                        (get_rotation pc) viewpoint_camera scaling_modifier
                        (filter_2d_kernel_size self)) ;;
       Ret (pr, opacities))%prog
  end.

(** [self.renderer.rasterize_simplified(...)]. *)
Definition rasterize (self : RendererModule) (args : RasterArgs) : prog Image :=
  if renderer self then trigger (rasterize_simplified args)
  else Throw AttributeError.

(** [self.model(...)]: [self.model] is looked up first, then the arguments
    are evaluated (the indexing of the features can fail), then the call is
    made. *)
Definition call_model (self : RendererModule)
    (gaussian_features : result (list (list R))) (appearance : Z)
    (view_dirs : list vec3) : prog (list vec3) :=
  match model self with
  | Some _ =>
      (features <- lift gaussian_features ;;
       trigger (model_call features appearance view_dirs))%prog
  | None => Throw AttributeError
  end.

(** [1. / (depths.clamp_min(0.) + 1e-8).unsqueeze(-1)] *)
Definition inverse_depth_colors (depths : list R) : list (list R) :=
  map (fun d => [1 / (clamp_min 0 d + / 100000000)]) depths.

(** The dictionary [forward] returns. *)
Record Bundle : Type := mkBundle {
  render : option Image;
  inverse_depth : option Image;
  hard_inverse_depth : option Image;
  viewspace_points : list (R * R);
  viewspace_points_grad_scale : R * R;
  visibility_filter : list bool;
  out_radii : list Z
}.

(** The colours of the "rgb" channel, lines 196 to 204 of the source.  For a
    point at the camera centre the source divides a zero vector by its zero
    norm and gets NaN; over [R] the quotient is some real number, so claims
    about the directions are made for points off the camera centre only. *)
Definition shade_rgb (self : RendererModule) (viewpoint_camera : Camera)
    (pc : GaussianModel) (projection_results : ProjectionResults)
    (is_gaussian_visible : list bool) : prog (list vec3) :=
  let radii := radii projection_results in
  let detached_xyz := get_xyz pc in
  (visible_xyz <- lift (masked_select detached_xyz is_gaussian_visible) ;;
   let view_directions :=
     map (fun p => zip3 Rminus p (camera_center viewpoint_camera))
       visible_xyz in
   let view_directions :=
     map (fun v => map3 (fun x => x / norm3 v) v) view_directions in
   coeffs <- lift (masked_select (get_features pc) is_gaussian_visible) ;;
   sh <- trigger (spherical_harmonics (active_sh_degree pc) view_directions
                    coeffs) ;;
   let base_rgb := map (map3 (fun x => x + / 2)) sh in
   out <- call_model self
            (masked_select (get_appearance_features pc) is_gaussian_visible)
            (appearance_id viewpoint_camera) view_directions ;;
   let rgb_offset := rescale out in
   let rgbs := repeat (0, 0, 0) (List.length radii) in
   sum <- lift (broadcast (zip3 Rplus) base_rgb rgb_offset) ;;
   lift (masked_assign rgbs is_gaussian_visible (map (map3 (clamp 0 1)) sum))
  )%prog.

(** [forward]; [render_types] is [None] or a list of channel names. *)
Definition forward (self : RendererModule) (viewpoint_camera : Camera)
    (pc : GaussianModel) (bg_color : list R) (scaling_modifier : R)
    (render_types : option (list string)) : prog Bundle :=
  let render_types :=
    match render_types with
    | None => ["rgb"%string]
    | Some l => l
    end in
  ('(projection_results, opacities) <-
     preprocess self pc viewpoint_camera scaling_modifier ;;
   let is_gaussian_visible :=
     map (fun r => (0 <? r)%Z) (radii projection_results) in
   opacities <-
     (if anti_aliased self
      then lift (broadcast Rmult opacities (comp projection_results))
      else Ret opacities) ;;
   rgb <-
     (if contains render_types "rgb" then
        rgbs <- shade_rgb self viewpoint_camera pc projection_results
                  is_gaussian_visible ;;
        im <- rasterize self
                (mkRasterArgs projection_results viewpoint_camera
                   (map vec3_to_row rgbs) bg_color opacities false) ;;
        Ret (Some im)
      else Ret None) ;;
   inverse_depth_im <-
     (if contains render_types "inverse_depth" then
        let inverse_depth :=
          inverse_depth_colors (depths projection_results) in
        im <- rasterize self
                (mkRasterArgs projection_results viewpoint_camera
                   inverse_depth [0] opacities false) ;;
        Ret (Some im)
      else Ret None) ;;
   hard_inverse_depth_im <-
     (if contains render_types "hard_inverse_depth" then
        let inverse_depth :=
          inverse_depth_colors (depths projection_results) in
        im <- rasterize self
                (mkRasterArgs projection_results viewpoint_camera
                   inverse_depth [0]
                   (map (fun o => o + (1 - detach o)) opacities) false) ;;
        Ret (Some im)
      else Ret None) ;;
   Ret (mkBundle rgb inverse_depth_im hard_inverse_depth_im
          (xys projection_results)
          (/ 2 * IZR (width viewpoint_camera),
           / 2 * IZR (height viewpoint_camera))
          is_gaussian_visible (radii projection_results)))%prog.

(** What [training_forward] returns: the base renderer's dictionary or
    [forward]'s. *)
Inductive TrainingOutput : Type :=
| BaseDict (d : BaseOutput)
| ForwardDict (b : Bundle).

(** [training_forward]; the keyword arguments are passed on as they come. *)
Definition training_forward (self : RendererModule) (step : Z)
    (viewpoint_camera : Camera) (pc : GaussianModel) (bg_color : list R)
    (scaling_modifier : R) (kwargs : option (list string))
  : prog TrainingOutput :=
  if (step <? warm_up (optimization_config self))%Z then
    if renderer self then
      (d <- trigger (base_renderer_call viewpoint_camera pc bg_color
                       scaling_modifier kwargs) ;;
       Ret (BaseDict d))%prog
    else Throw AttributeError
  else
    (b <- forward self viewpoint_camera pc bg_color scaling_modifier kwargs ;;
     Ret (ForwardDict b))%prog.

(** The handler that answers [self.model(...)] with [Model.forward] on the
    module's own model, and every other call as [h] does. *)
Definition with_model (self : RendererModule) (h : handler) : handler :=
  fun X c =>
    match c in call T return result T with
    | model_call f a v =>
        match model self with
        | Some m => Model_forward m f a v
        | None => Raise AttributeError
        end
    | c' => h _ c'
    end.

(** ** Properties of program trees *)

(** [holds P Q p]: whatever the collaborators answer, every call of [p]
    satisfies [P] and every value [p] returns satisfies [Q]. *)
Inductive holds (P : forall X, call X -> Prop) {A} (Q : A -> Prop)
  : prog A -> Prop :=
| holds_Ret (a : A) : Q a -> holds P Q (Ret a)
| holds_Throw (e : exn) : holds P Q (Throw e)
| holds_Vis {X} (c : call X) (k : X -> prog A) :
    P X c -> (forall x, holds P Q (k x)) -> holds P Q (Vis c k).

Definition every_call (P : forall X, call X -> Prop) {A} (p : prog A) : Prop :=
  holds P (fun _ => True) p.

(** A property of the arguments of every rasterization call. *)
Definition on_rasterize (P : RasterArgs -> Prop) : forall X, call X -> Prop :=
  fun X c =>
    match c with
    | rasterize_simplified args => P args
    | _ => True
    end.

(** ** Vocabulary of the statements *)

Definition in_range (lo hi x : R) : Prop := lo <= x <= hi.

Definition vec3_in_range (lo hi : R) (v : vec3) : Prop :=
  let '(x, y, z) := v in
  in_range lo hi x /\ in_range lo hi y /\ in_range lo hi z.

(** The visibility mask of a projection: [radii > 0]. *)
Definition visibility (pr : ProjectionResults) : list bool :=
  map (fun r => (0 <? r)%Z) (radii pr).

(** The channel names [forward] knows. *)
Definition recognized (name : string) : bool :=
  (String.eqb name "rgb" || String.eqb name "inverse_depth"
   || String.eqb name "hard_inverse_depth")%bool.

(** The opacities [preprocess] hands to [forward], by class. *)
Definition source_opacities (self : RendererModule) (pc : GaussianModel)
  : list R :=
  match class self with
  | Plain => get_opacities pc
  | Mip => fst (get_3d_filtered_scales_and_opacities pc)
  end.

(** The point cloud with its opacities replaced, everything else kept. *)
Definition with_opacities (pc : GaussianModel) (os : list R) : GaussianModel :=
  mkGaussianModel (get_xyz pc) (get_scaling pc) (get_rotation pc) os
    (get_features pc) (get_appearance_features pc) (active_sh_degree pc)
    (os, snd (get_3d_filtered_scales_and_opacities pc)).

Definition set_anti_aliased (self : RendererModule) (b : bool)
  : RendererModule :=
  mkRendererModule (class self) b (model_config self)
    (optimization_config self) (filter_2d_kernel_size self) (model self)
    (renderer self).

(** The rasterization call of the inverse-depth channel over opacities [os]. *)
Definition inverse_depth_args (pr : ProjectionResults) (cam : Camera)
    (os : list R) : RasterArgs :=
  mkRasterArgs pr cam (inverse_depth_colors (depths pr)) [0] os false.

(** The schedulers [training_setup] returns (none if it raises). *)
Definition schedulers (self : RendererModule) : list Scheduler :=
  match training_setup self with
  | Ok (_, scheduler_list) => scheduler_list
  | Raise _ => []
  end.

(** A [ModelConfig] the constructors of the model accept: non-negative table
    sizes and skip-layer indices within the depth. *)
Definition valid_config (c : ModelConfig) : Prop :=
  (0 <= n_appearances c)%Z /\ (0 <= n_appearance_embedding_dims c)%Z /\
  Forall (fun i => 0 <= i < n_layers c)%Z (skip_layers c).

(** The encoder [init] builds for [c] yields as many channels as it announces. *)
Definition encoder_consistent (init : Initializer) (c : ModelConfig) : Prop :=
  forall d : vec3,
    Z.of_nat (List.length
                (encode (init_encoding init (n_view_direction_frequencies c)) d))
    = get_output_n_channels
        (init_encoding init (n_view_direction_frequencies c)).

(** The exponent of the schedule at step [iter]:
    [min(max(iter - warm_up, 0) / max_steps, 1)]. *)
Definition exponent (max_steps warm_up iter : Z) : R :=
  Rmin (IZR (Z.max (iter - warm_up) 0) / IZR max_steps) 1.

(** Rows of a given row_width. *)
Definition row_width (w : Z) (row : list R) : Prop :=
  Z.of_nat (List.length row) = w.

(** The input width [Model._setup] computes. *)
Definition setup_input_dims (init : Initializer) (c : ModelConfig) : Z :=
  (n_gaussian_feature_dims c + n_appearance_embedding_dims c
   + if is_view_dependent c
     then get_output_n_channels
            (init_encoding init (n_view_direction_frequencies c))
     else 0)%Z.

(** What the "rgb" channel hands to the rasterizer: one colour per point,
    three components each, all within [0, 1], and exactly zero for every
    point whose screen radius is not positive. *)
Definition rgb_colors_ok (args : RasterArgs) : Prop :=
  List.length (colors args) = List.length (radii (project_results args)) /\
  Forall (fun row => List.length row = 3%nat /\ Forall (in_range 0 1) row)
    (colors args) /\
  forall i r,
    nth_error (radii (project_results args)) i = Some r -> (r <= 0)%Z ->
    nth_error (colors args) i = Some [0; 0; 0].

(** The colours of a depth channel. *)
Definition depth_colors (args : RasterArgs) : Prop :=
  colors args = inverse_depth_colors (depths (project_results args)).

(** [clamp(base_rgb + rgb_offset, 0, 1)], row by row. *)
Definition composed_colors (base_rgb rgb_offset : list vec3) : list vec3 :=
  zip_with (fun b o => map3 (clamp 0 1) (zip3 Rplus b o)) base_rgb rgb_offset.

(** What [shade_rgb] returns over a mask: one colour per mask entry, within
    [0, 1], and zero where the mask is false. *)
Definition shaded_ok (n : nat) (mask : list bool) (rgbs : list vec3) : Prop :=
  List.length rgbs = n /\
  Forall (vec3_in_range 0 1) rgbs /\
  forall i, nth_error mask i = Some false -> nth_error rgbs i = Some (0, 0, 0).

(** A channel entry of the bundle is an image exactly when [requested]. *)
Definition populated_iff (requested : bool) (entry : option Image) : Prop :=
  entry <> None <-> requested = true.

(** The opacities [forward] works with after its anti-aliasing step, for the
    projection [pr]: the source opacities times [comp] if the module is
    anti-aliased, the source opacities otherwise. *)
Definition compensated (self : RendererModule) (pc : GaussianModel)
    (pr : ProjectionResults) (os : list R) : Prop :=
  if anti_aliased self
  then broadcast Rmult (source_opacities self pc) (comp pr) = Ok os
  else os = source_opacities self pc.

(** The opacities of the "hard" channel. *)
Definition hard_opacities (os : list R) : list R :=
  map (fun o => o + (1 - detach o)) os.

(** The three rasterization calls [forward] can make for the channel list
    [l]. *)
Inductive forward_raster_call (self : RendererModule) (cam : Camera)
    (pc : GaussianModel) (bg_color : list R) (l : list string)
  : RasterArgs -> Prop :=
| rgb_call (pr : ProjectionResults) (os : list R) (rgbs : list vec3) :
    compensated self pc pr os ->
    contains l "rgb" = true ->
    shaded_ok (List.length (radii pr)) (visibility pr) rgbs ->
    forward_raster_call self cam pc bg_color l
      (mkRasterArgs pr cam (map vec3_to_row rgbs) bg_color os false)
| inverse_depth_raster_call (pr : ProjectionResults) (os : list R) :
    compensated self pc pr os ->
    contains l "inverse_depth" = true ->
    forward_raster_call self cam pc bg_color l (inverse_depth_args pr cam os)
| hard_inverse_depth_raster_call (pr : ProjectionResults) (os : list R) :
    compensated self pc pr os ->
    contains l "hard_inverse_depth" = true ->
    forward_raster_call self cam pc bg_color l
      (inverse_depth_args pr cam (hard_opacities os)).

(** The unit view directions [forward] computes for the visible points. *)
Definition view_directions (cam : Camera) (visible_xyz : list vec3)
  : list vec3 :=
  map (fun v => map3 (fun x => x / norm3 v) v)
    (map (fun p => zip3 Rminus p (camera_center cam)) visible_xyz).

(** The projection call of [preprocess], by class. *)
Definition project_call (self : RendererModule) (pc : GaussianModel)
    (cam : Camera) (scaling_modifier : R) : call ProjectionResults :=
  GSPlatRenderer_project (get_xyz pc)
    (match class self with
     | Plain => get_scaling pc
     | Mip => snd (get_3d_filtered_scales_and_opacities pc)
     end)
    (get_rotation pc) cam scaling_modifier (filter_2d_kernel_size self).


(** The appearance ids [setup] observes: the first component of every value
    of [appearance_group_ids]. *)
Definition observed_ids (lm : LightningModule) : list Z :=
  match appearance_group_ids lm with
  | Some d => map (fun kv => fst (snd kv)) d
  | None => []
  end.

(** A framework load that copies values into the parameters there are: it
    changes neither the configuration nor the number of rows of the
    embedding table. *)
Definition keeps_shapes
    (super_load : RendererModule -> StateDict -> bool -> method IncompatibleKeys)
  : Prop :=
  forall s sd strict s' r m,
    super_load s sd strict = (s', r) ->
    model s = Some m ->
    model_config s' = model_config s /\
    exists m', model s' = Some m' /\
               List.length (embedding m') = List.length (embedding m).

(** The point cloud has one position, one row of coefficients and one row of
    appearance features per projected point, so that the boolean mask of
    [forward] indexes all three. *)
Definition points_match (pc : GaussianModel) (pr : ProjectionResults) : Prop :=
  List.length (get_xyz pc) = List.length (radii pr) /\
  List.length (get_features pc) = List.length (radii pr) /\
  List.length (get_appearance_features pc) = List.length (radii pr).

(** The view directions of the points the projection [pr] shows. *)
Definition visible_directions (cam : Camera) (pc : GaussianModel)
    (pr : ProjectionResults) : list vec3 :=
  view_directions cam (select (get_xyz pc) (visibility pr)).

(** The spherical-harmonics call and the model call of the "rgb" channel
    under the projection [pr]. *)
Definition sh_call (cam : Camera) (pc : GaussianModel)
    (pr : ProjectionResults) : call (list vec3) :=
  spherical_harmonics (active_sh_degree pc) (visible_directions cam pc pr)
    (select (get_features pc) (visibility pr)).

Definition shading_call (cam : Camera) (pc : GaussianModel)
    (pr : ProjectionResults) : call (list vec3) :=
  model_call (select (get_appearance_features pc) (visibility pr))
    (appearance_id cam) (visible_directions cam pc pr).

(** The colour buffer of the "rgb" channel from the answer [sh] of the
    spherical-harmonics call and the answer [out] of the model call: zeros,
    with [clamp(sh + 0.5 + (out * 2 - 1), 0, 1)] written at the visible
    positions. *)
Definition compose_rgbs (pr : ProjectionResults) (sh out : list vec3)
  : result (list vec3) :=
  (sum <- broadcast (zip3 Rplus) (map (map3 (fun x => x + / 2)) sh)
            (rescale out) ;;
   masked_assign (repeat (0, 0, 0) (List.length (radii pr))) (visibility pr)
     (map (map3 (clamp 0 1)) sum))%result.

(** The arguments of the rasterization call of the "rgb" channel. *)
Definition rgb_args (pr : ProjectionResults) (cam : Camera)
    (rgbs : list vec3) (bg_color os : list R) : RasterArgs :=
  mkRasterArgs pr cam (map vec3_to_row rgbs) bg_color os false.

(** The dictionary [forward] returns for the projection [pr] and the three
    image entries. *)
Definition forward_bundle (cam : Camera) (pr : ProjectionResults)
    (rgb idepth hdepth : option Image) : Bundle :=
  mkBundle rgb idepth hdepth (xys pr)
    (/ 2 * IZR (width cam), / 2 * IZR (height cam))
    (visibility pr) (radii pr).

(** The three channel steps of [forward], as programs of their own
    ([forward_channels_eq] shows that [forward] is their sequence). *)
Definition rgb_channel (self : RendererModule) (cam : Camera)
    (pc : GaussianModel) (bg_color : list R) (pr : ProjectionResults)
    (os : list R) (requested : bool) : prog (option Image) :=
  if requested then
    (rgbs <- shade_rgb self cam pc pr (visibility pr) ;;
     im <- rasterize self (rgb_args pr cam rgbs bg_color os) ;;
     Ret (Some im))%prog
  else Ret None.

Definition depth_channel (self : RendererModule) (args : RasterArgs)
    (requested : bool) : prog (option Image) :=
  if requested then (im <- rasterize self args ;; Ret (Some im))%prog
  else Ret None.

(** What the "rgb" channel of [forward] does under the handler [h], the
    projection [pr] and the opacities [os]: when requested, the two shading
    calls and one rasterization call on the composed colours, whose answer is
    the entry; otherwise nothing. *)
Definition rgb_outcome (h : handler) (self : RendererModule) (cam : Camera)
    (pc : GaussianModel) (bg_color : list R) (pr : ProjectionResults)
    (os : list R) (requested : bool) (entry : option Image)
    (calls : list any_call) : Prop :=
  if requested then
    exists sh out rgbs im,
      points_match pc pr /\ model self <> None /\ renderer self = true /\
      h _ (sh_call cam pc pr) = Ok sh /\
      h _ (shading_call cam pc pr) = Ok out /\
      compose_rgbs pr sh out = Ok rgbs /\
      h _ (rasterize_simplified (rgb_args pr cam rgbs bg_color os)) = Ok im /\
      entry = Some im /\
      calls = [Called (sh_call cam pc pr); Called (shading_call cam pc pr);
               Called (rasterize_simplified
                         (rgb_args pr cam rgbs bg_color os))]
  else entry = None /\ calls = [].

(** What a depth channel of [forward] does: when requested, one
    rasterization call on [args], whose answer is the entry. *)
Definition depth_outcome (h : handler) (self : RendererModule)
    (args : RasterArgs) (requested : bool) (entry : option Image)
    (calls : list any_call) : Prop :=
  if requested then
    exists im,
      renderer self = true /\
      h _ (rasterize_simplified args) = Ok im /\
      entry = Some im /\ calls = [Called (rasterize_simplified args)]
  else entry = None /\ calls = [].

(** A complete run of [forward] on the channel list [l] under [h]: the
    projection, the opacities, the three channels, the bundle and the calls
    made, in order. *)
Definition forward_returns (h : handler) (self : RendererModule)
    (cam : Camera) (pc : GaussianModel) (bg_color : list R)
    (scaling_modifier : R) (l : list string) (b : Bundle)
    (calls : list any_call) : Prop :=
  exists pr os rgb idepth hdepth c1 c2 c3,
    h _ (project_call self pc cam scaling_modifier) = Ok pr /\
    compensated self pc pr os /\
    rgb_outcome h self cam pc bg_color pr os (contains l "rgb") rgb c1 /\
    depth_outcome h self (inverse_depth_args pr cam os)
      (contains l "inverse_depth") idepth c2 /\
    depth_outcome h self (inverse_depth_args pr cam (hard_opacities os))
      (contains l "hard_inverse_depth") hdepth c3 /\
    b = forward_bundle cam pr rgb idepth hdepth /\
    calls = Called (project_call self pc cam scaling_modifier)
            :: c1 ++ c2 ++ c3.

(** ** Concrete inputs *)

(** The defaults of [OptimizationConfig]. *)
Definition default_optimization : OptimizationConfig :=
  mkOptimizationConfig (/ 1000000) (2 / 1000) (/ 10) (/ 1000) (/ 10)
    (/ 1000000000000000) 30000 4000.

(** A configuration whose final factor exceeds 1. *)
Definition growing_optimization : OptimizationConfig :=
  mkOptimizationConfig (/ 1000000) (2 / 1000) (/ 10) (/ 1000) 2
    (/ 1000000000000000) 1 0.

(** A configuration with no decay steps. *)
Definition stepless_optimization : OptimizationConfig :=
  mkOptimizationConfig (/ 1000000) (2 / 1000) (/ 10) (/ 1000) (/ 10)
    (/ 1000000000000000) 0 4000.

(** The set-up of the spec's end-to-end scenario: one appearance, four
    embedding dimensions, eight feature dimensions, no view dependence; all
    initial weights zero. *)
Definition example_model_config : ModelConfig :=
  mkModelConfig 8 1 4 false 4 64 3 [] false.

Definition example_initializer : Initializer :=
  mkInitializer (fun _ _ => 0)
    (fun _ => mkPositionalEncoding vec3_to_row 3)
    (fun _ => (0, 0, 0)).

(** A module that has been set up, two points of which the first is visible,
    and collaborators with fixed answers. *)
Definition example_model : Model :=
  mkModel example_model_config [[0; 0; 0; 0]] None
    (mkNetwork 12 (fun _ => (0, 0, 0))).

Definition example_module : RendererModule :=
  mkRendererModule Plain true example_model_config default_optimization
    (3 / 10) (Some example_model) true.

Definition example_camera : Camera := mkCamera (0, 0, 0) 0 4 2.

Definition example_points : GaussianModel :=
  mkGaussianModel [(0, 0, 1); (0, 0, -1)] [(1, 1, 1); (1, 1, 1)]
    [[1; 0; 0; 0]; [1; 0; 0; 0]] [/ 2; / 4]
    [[(0, 0, 0)]; [(0, 0, 0)]]
    [[0; 0; 0; 0; 0; 0; 0; 0]; [0; 0; 0; 0; 0; 0; 0; 0]] 0
    ([/ 2; / 4], [(1, 1, 1); (1, 1, 1)]).

Definition example_projection : ProjectionResults :=
  mkProjectionResults [(1, 1); (0, 0)] [1; -1] [3%Z; 0%Z]
    [(1, 0, 1); (1, 0, 1)] [/ 2; 1] [1%Z; 0%Z] [].

Definition example_handler : handler :=
  fun X c =>
    match c in call T return result T with
    | GSPlatRenderer_project _ _ _ _ _ _ => Ok example_projection
    | spherical_harmonics _ dirs _ => Ok (map (fun _ => (1, 0, - / 2)) dirs)
    | model_call features _ _ => Ok (map (fun _ => (1, / 2, 0)) features)
    | rasterize_simplified args => Ok [colors args; [opacities args]]
    | base_renderer_call _ _ _ _ _ => Ok []
    end.


(** A module as [__init__] leaves it, with the default [n_appearances = -1]. *)
Definition fresh_module : RendererModule :=
  init_module Plain true (mkModelConfig 8 (-1) 4 false 4 64 3 [] false)
    default_optimization (3 / 10).

(** Three groups with appearance ids 0, 2 and 1. *)
Definition example_lightning_module : LightningModule :=
  mkLightningModule
    (Some [("a"%string, (0%Z, 0)); ("b"%string, (2%Z, 1));
           ("c"%string, (1%Z, / 2))]).

(** A checkpoint whose embedding table has three rows. *)
Definition example_state_dict : StateDict :=
  [("model.embedding.weight"%string,
    Tensor2 [[1; 0; 0; 0]; [0; 1; 0; 0]; [0; 0; 1; 0]])].

(** A framework load that copies the embedding weight when the row counts
    agree. *)
Definition example_super_load (s : RendererModule) (sd : StateDict)
    (strict : bool) : method IncompatibleKeys :=
  match model s with
  | None => (s, Raise AttributeError)
  | Some m =>
      match getitem sd "model.embedding.weight" with
      | Ok (Tensor2 w) =>
          if (List.length w =? List.length (embedding m))%nat
          then (set_model s
                  (mkModel (config m) w (view_direction_encoding m)
                     (network m)),
                Ok ([], []))
          else (s, Raise ShapeError)
      | _ => (s, Ok (["model.embedding.weight"%string], []))
      end
  end.

(** The example module under the two other optimization configurations. *)
Definition growing_module : RendererModule :=
  mkRendererModule Plain true example_model_config growing_optimization
    (3 / 10) (Some example_model) true.

Definition stepless_module : RendererModule :=
  mkRendererModule Plain true example_model_config stepless_optimization
    (3 / 10) (Some example_model) true.

(** A configuration with a negative number of decay steps. *)
Definition backward_module : RendererModule :=
  mkRendererModule Plain true example_model_config
    (mkOptimizationConfig (/ 1000000) (2 / 1000) (/ 10) (/ 1000) (/ 2)
       (/ 1000000000000000) (-1) 0)
    (3 / 10) (Some example_model) true.

(** ** Further vocabulary *)

(** A direction of unit length. *)
Definition unit3 (v : vec3) : Prop := norm3 v = 1.

(** The directions of a call that takes view directions. *)
Definition on_directions (P : list vec3 -> Prop) : forall X, call X -> Prop :=
  fun X c =>
    match c with
    | spherical_harmonics _ dirs _ => P dirs
    | model_call _ _ dirs => P dirs
    | _ => True
    end.

(** A row multiplied by a scalar. *)
Definition scale_row (k : R) (row : list R) : list R :=
  map (fun x => k * x) row.

(** The optimization configuration with the two fields [training_setup] does
    not pass on replaced. *)
Definition with_unread_fields (c : OptimizationConfig)
    (gamma_eps' embedding_lr_final_factor' : R) : OptimizationConfig :=
  mkOptimizationConfig gamma_eps' (embedding_lr_init c)
    embedding_lr_final_factor' (lr_init c) (lr_final_factor c) (eps c)
    (max_steps c) (warm_up c).

Definition set_optimization_config (self : RendererModule)
    (c : OptimizationConfig) : RendererModule :=
  mkRendererModule (class self) (anti_aliased self) (model_config self) c
    (filter_2d_kernel_size self) (model self) (renderer self).

(** A view-dependent variant of the example model: the encoder passes the
    direction on as it is. *)
Definition view_dependent_model : Model :=
  mkModel (mkModelConfig 8 1 4 true 4 64 3 [] false) [[0; 0; 0; 0]]
    (Some (mkPositionalEncoding vec3_to_row 3))
    (mkNetwork 15 (fun _ => (0, 0, 0))).

(** The example model with feature normalization switched on. *)
Definition normalizing_model : Model :=
  mkModel (mkModelConfig 8 1 4 false 4 64 3 [] true) [[1; 0; 0; 0]] None
    (mkNetwork 12 (fun x => (nth 0 x 0, nth 1 x 0, nth 2 x 0))).

(** The clamp [F.normalize] applies to a norm: [1e-12]. *)
Definition normalize_eps : R := / 1000000000000.

(** A module with [n_appearances = 2] configured, and a data set whose
    groups have appearance ids 0 and 5. *)
Definition configured_module : RendererModule :=
  init_module Plain true (mkModelConfig 8 2 4 false 4 64 3 [] false)
    default_optimization (3 / 10).

Definition wide_lightning_module : LightningModule :=
  mkLightningModule (Some [("a"%string, (0%Z, 0)); ("b"%string, (5%Z, 1))]).

(** The largest colour component the rasterizer is ever handed: [1e8]. *)
Definition max_color : R := 100000000.

(** The bundle [forward] returns when no image was rendered. *)
Definition bare_bundle (cam : Camera) (pr : ProjectionResults) : Bundle :=
  mkBundle None None None (xys pr)
    (/ 2 * IZR (width cam), / 2 * IZR (height cam))
    (visibility pr) (radii pr).

(** The same module as an instance of the other class. *)
Definition set_class (self : RendererModule) (v : variant) : RendererModule :=
  mkRendererModule v (anti_aliased self) (model_config self)
    (optimization_config self) (filter_2d_kernel_size self) (model self)
    (renderer self).

(** The point cloud whose scales and opacities are the 3D-filtered ones. *)
Definition filtered_points (pc : GaussianModel) : GaussianModel :=
  mkGaussianModel (get_xyz pc)
    (snd (get_3d_filtered_scales_and_opacities pc)) (get_rotation pc)
    (fst (get_3d_filtered_scales_and_opacities pc)) (get_features pc)
    (get_appearance_features pc) (active_sh_degree pc)
    (get_3d_filtered_scales_and_opacities pc).

(** [RendererOutputTypes] and [RendererOutputInfo] are declared outside the
    source at hand; the source names one type, [GRAY], and otherwise leaves
    the type at the default of the class. *)
Inductive RendererOutputTypes : Type :=
| GRAY.

Record RendererOutputInfo : Type := mkRendererOutputInfo {
  info_key : string;
  info_type : option RendererOutputTypes   (* [None]: the default *)
}.

(** [get_available_outputs] *)
Definition get_available_outputs : list (string * RendererOutputInfo) :=
  [("rgb"%string, mkRendererOutputInfo "render" None);
   ("inverse_depth"%string, mkRendererOutputInfo "inverse_depth" (Some GRAY));
   ("hard_inverse_depth"%string,
    mkRendererOutputInfo "hard_inverse_depth" (Some GRAY))].

(** The image entries of the dictionary [forward] returns, by key. *)
Definition bundle_image (b : Bundle) (key : string) : option Image :=
  if String.eqb key "render" then render b
  else if String.eqb key "inverse_depth" then inverse_depth b
  else if String.eqb key "hard_inverse_depth" then hard_inverse_depth b
  else None.

(** ** Configuration objects and what they share *)

(** [ModelConfig] objects are mutable and handed on by reference: the
    renderer configuration, the module instantiated from it and every further
    module instantiated from it refer to one object.  The store maps a
    reference to the current value of its object. *)
Definition ref : Type := nat.

Definition store : Type := ref -> ModelConfig.

Definition store_set (st : store) (r : ref) (c : ModelConfig) : store :=
  fun r' => if (r' =? r)%nat then c else st r'.

(** The dataclass [GSplatAppearanceEmbeddingRenderer] and its subclass
    [GSplatAppearanceEmbeddingMipRenderer] ([renderer_class]).  The last two
    fields are the attributes [model_config] and [optimization_config] that a
    checkpoint of a previous version carries: [None] where the attribute is
    missing (for [model_config], also where it is [None]); where present they
    hold configurations. *)
Record GSplatAppearanceEmbeddingRenderer : Type :=
  mkGSplatAppearanceEmbeddingRenderer {
  renderer_class : variant;
  cfg_anti_aliased : bool;
  cfg_filter_2d_kernel_size : R;
  cfg_model : ref;
  cfg_optimization : OptimizationConfig;
  legacy_model_config : option ref;
  legacy_optimization_config : option OptimizationConfig
}.

Definition set_cfg_model (self : GSplatAppearanceEmbeddingRenderer) (r : ref)
  : GSplatAppearanceEmbeddingRenderer :=
  mkGSplatAppearanceEmbeddingRenderer (renderer_class self)
    (cfg_anti_aliased self) (cfg_filter_2d_kernel_size self) r
    (cfg_optimization self) (legacy_model_config self)
    (legacy_optimization_config self).

Definition set_cfg_optimization (self : GSplatAppearanceEmbeddingRenderer)
    (c : OptimizationConfig) : GSplatAppearanceEmbeddingRenderer :=
  mkGSplatAppearanceEmbeddingRenderer (renderer_class self)
    (cfg_anti_aliased self) (cfg_filter_2d_kernel_size self) (cfg_model self)
    c (legacy_model_config self) (legacy_optimization_config self).

(** A module object: the reference it keeps in [self.model_config], and its
    other attributes (the [model_config] field of [attributes] is not read:
    the value is the store's, see [read_module]). *)
Record ModuleObject : Type := mkModuleObject {
  model_config_ref : ref;
  attributes : RendererModule
}.

Definition read_module (st : store) (o : ModuleObject) : RendererModule :=
  set_model_config (attributes o) (st (model_config_ref o)).

(** The constructor call both [instantiate] methods end in. *)
Definition construct_module (st : store)
    (self : GSplatAppearanceEmbeddingRenderer) : ModuleObject :=
  mkModuleObject (cfg_model self)
    (init_module (renderer_class self) (cfg_anti_aliased self)
       (st (cfg_model self)) (cfg_optimization self)
       (cfg_filter_2d_kernel_size self)).

(** [instantiate]: the configuration after the call, and the module or the
    exception.  Only the plain class looks for the attributes of a previous
    version; the Mip class overrides the method without that step. *)
Definition instantiate (st : store) (self : GSplatAppearanceEmbeddingRenderer)
  : GSplatAppearanceEmbeddingRenderer * result ModuleObject :=
  match renderer_class self with
  | Plain =>
      match legacy_model_config self with
      | Some r =>
          (* checkpoint generated by previous version *)
          let self := set_cfg_model self r in
          match legacy_optimization_config self with
          | Some c =>
              let self := set_cfg_optimization self c in
              (self, Ok (construct_module st self))
          | None => (self, Raise AttributeError)
          end
      | None => (self, Ok (construct_module st self))
      end
  | Mip => (self, Ok (construct_module st self))
  end.

(** A method of the module run on a module object: it reads the
    configuration through the reference and leaves its changes in the
    store. *)
Definition on_object {A} (f : RendererModule -> method A) (st : store)
    (o : ModuleObject) : store * ModuleObject * result A :=
  let '(self, r) := f (read_module st o) in
  (store_set st (model_config_ref o) (model_config self),
   mkModuleObject (model_config_ref o) self, r).

Definition setup_object (init : Initializer) (st : store) (o : ModuleObject)
    (stage : string) (lightning_module : option LightningModule)
  : store * ModuleObject * result unit :=
  on_object (fun self => setup init self stage lightning_module) st o.

(** A store with the default [ModelConfig] at every reference but 1, where
    the configuration of a previous version sits, and two renderer
    configurations over it. *)
Definition example_store : store :=
  fun r =>
    if (r =? 1)%nat then mkModelConfig 8 3 4 false 4 64 3 [] false
    else mkModelConfig 64 (-1) 32 false 4 64 3 [] false.

Definition example_renderer : GSplatAppearanceEmbeddingRenderer :=
  mkGSplatAppearanceEmbeddingRenderer Plain true (3 / 10) 0%nat
    default_optimization None None.

Definition legacy_renderer (v : variant)
  : GSplatAppearanceEmbeddingRenderer :=
  mkGSplatAppearanceEmbeddingRenderer v true (3 / 10) 0%nat
    default_optimization (Some 1%nat) (Some growing_optimization).

(** The count [setup] infers from a lightning module. *)
Definition inferred_n_appearances (lm : LightningModule) : Z :=
  (max_input_id_of
     (match appearance_group_ids lm with
      | Some d => map snd d
      | None => []
      end) + 1)%Z.

(** A [ModelConfig] that lets the model be built whatever [n_appearances]
    becomes. *)
Definition buildable (c : ModelConfig) : Prop :=
  (0 <= n_appearance_embedding_dims c)%Z /\
  Forall (fun i => 0 <= i < n_layers c)%Z (skip_layers c).

(** ** The mesh extraction script ([utils/gs2d_mesh_extraction.py]) *)

(** What a call can raise: an [Exception], which [except Exception] catches,
    or another [BaseException] ([KeyboardInterrupt], [SystemExit]), which it
    does not. *)
Inductive raised : Type :=
| AnException (e : exn)
| OtherBaseException (name : string).

Inductive outcome : Type :=
| Returned
| Raised (r : raised).

(** The process as the script sees it: [os.environ] and what was printed. *)
Record process : Type := mkProcess {
  environ : string -> option string;
  printed : list string
}.

Definition setenv (p : process) (key value : string) : process :=
  mkProcess (fun k => if String.eqb k key then Some value else environ p k)
    (printed p).

Definition print (p : process) (line : string) : process :=
  mkProcess (environ p) (printed p ++ [line]).

(** The script, run under the module name [__name__]; [main] is the entry
    point it imports, [format_exc] is [traceback.format_exc] for the
    exception being handled.  (The imports themselves are taken to
    succeed.) *)
Definition gs2d_mesh_extraction (__name__ : string)
    (main : process -> process * outcome) (format_exc : exn -> string)
    (p : process) : process * outcome :=
  let p :=
    match environ p "OMP_NUM_THREADS" with
    | None => setenv p "OMP_NUM_THREADS" "4"
    | Some _ => p
    end in
  if String.eqb __name__ "__main__" then
    match main p with
    | (p, Returned) => (p, Returned)
    | (p, Raised (AnException e)) =>
        (print p (format_exc e), Raised (AnException e))
    | (p, Raised (OtherBaseException name)) =>
        (p, Raised (OtherBaseException name))
    end
  else (p, Returned).

(** The lines printed by the script itself, given what it ends with. *)
Definition traceback_lines (format_exc : exn -> string) (o : outcome)
  : list string :=
  match o with
  | Raised (AnException e) => [format_exc e]
  | _ => []
  end.

(** An entry point that prints the thread count it finds and fails. *)
Definition failing_main (p : process) : process * outcome :=
  (print p (match environ p "OMP_NUM_THREADS" with
            | Some v => v
            | None => "unset"%string
            end),
   Raised (AnException ValueError)).

(** ** Counting calls *)

(** [at_most P n p]: whatever the collaborators answer, at most [n] of the
    calls [p] makes satisfy [P]. *)
Inductive at_most (P : forall X, call X -> Prop) {A} : nat -> prog A -> Prop :=
| at_most_Ret (n : nat) (a : A) : at_most P n (Ret a)
| at_most_Throw (n : nat) (e : exn) : at_most P n (Throw e)
| at_most_hit (n : nat) {X} (c : call X) (k : X -> prog A) :
    (forall x, at_most P n (k x)) -> at_most P (S n) (Vis c k)
| at_most_miss (n : nat) {X} (c : call X) (k : X -> prog A) :
    ~ P X c -> (forall x, at_most P n (k x)) -> at_most P n (Vis c k).

Definition is_rasterize_call {X} (c : call X) : Prop :=
  match c with
  | rasterize_simplified _ => True
  | _ => False
  end.

Definition is_project_call {X} (c : call X) : Prop :=
  match c with
  | GSPlatRenderer_project _ _ _ _ _ _ => True
  | _ => False
  end.

(** 1 for a requested channel, 0 otherwise. *)
Definition requested (l : list string) (name : string) : nat :=
  if contains l name then 1%nat else 0%nat.

(** Recognizers of calls in a trace. *)
Definition model_callb (c : any_call) : bool :=
  match c with
  | Called (model_call _ _ _) => true
  | _ => false
  end.

Definition rasterize_callb (c : any_call) : bool :=
  match c with
  | Called (rasterize_simplified _) => true
  | _ => false
  end.

(** The number of calls of a trace that [b] recognizes. *)
Definition count_calls (b : any_call -> bool) (t : list any_call) : nat :=
  List.length (filter b t).


(** * Theorems *)

(** ** The learning-rate schedule *)

Section PyPow.

Lemma py_pow_zero_exponent (x : R) : py_pow x 0 = Ok 1.
Proof.
  unfold py_pow. destruct (Req_dec_T 0 0) as [_ | H]; [reflexivity | lra].
Qed.

Lemma py_pow_one_exponent (x : R) : py_pow x 1 = Ok x.
Proof.
  unfold py_pow.
  destruct (Req_dec_T 1 0) as [H | _]; [lra |].
  destruct (Rlt_dec 0 x) as [Hpos | Hneg].
  - now rewrite Rpower_1.
  - destruct (Req_dec_T x 0) as [-> | Hnz].
    + destruct (Rlt_dec 0 1) as [_ | H]; [reflexivity | lra].
    + assert (Hip : Int_part 1 = 1%Z) by (symmetry; apply Int_part_spec; lra).
      rewrite Hip.
      destruct (Req_dec_T 1 1) as [_ | H]; [| lra].
      f_equal. simpl. ring.
Qed.

Lemma ln_nonpos (x : R) : 0 < x <= 1 -> ln x <= 0.
Proof.
  intros [Hpos [Hlt | ->]].
  - rewrite <- ln_1. left. now apply ln_increasing.
  - rewrite ln_1. lra.
Qed.

Lemma exp_monotone (a b : R) : a <= b -> exp a <= exp b.
Proof.
  intros [Hlt | ->]; [left; now apply exp_increasing | lra].
Qed.

(** For a base in (0,1] the power does not increase with the exponent. *)
Lemma Rpower_antitone (x y1 y2 : R) :
  0 < x <= 1 -> y1 <= y2 -> Rpower x y2 <= Rpower x y1.
Proof.
  intros Hx Hy. unfold Rpower. apply exp_monotone.
  pose proof (ln_nonpos x Hx). nra.
Qed.

(** On a base in [0,1] and a non-negative exponent Python's power is a float
    in [0,1]. *)
Lemma py_pow_unit_base (x y : R) :
  0 <= x <= 1 -> 0 <= y ->
  exists m, py_pow x y = Ok m /\ 0 <= m <= 1.
Proof.
  intros Hx Hy. unfold py_pow.
  destruct (Req_dec_T y 0) as [-> | Hy0]; [exists 1; split; [reflexivity | lra] |].
  destruct (Rlt_dec 0 x) as [Hpos | Hneg].
  - exists (Rpower x y). split; [reflexivity |]. split.
    + left. apply exp_pos.
    + rewrite <- (Rpower_O x Hpos). apply Rpower_antitone; lra.
  - destruct (Req_dec_T x 0) as [_ | Hnz]; [| lra].
    destruct (Rlt_dec 0 y) as [_ | H]; [| lra].
    exists 0. split; [reflexivity | lra].
Qed.

Lemma py_pow_antitone (x y1 y2 m1 m2 : R) :
  0 <= x <= 1 -> 0 <= y1 <= y2 ->
  py_pow x y1 = Ok m1 -> py_pow x y2 = Ok m2 -> m2 <= m1.
Proof.
  intros Hx [Hy1 Hy12] H1 H2.
  destruct (Req_dec_T y1 0) as [-> | Hy1nz].
  - rewrite py_pow_zero_exponent in H1. injection H1 as <-.
    destruct (py_pow_unit_base x y2) as (m & Hm & Hr); [lra | lra |].
    rewrite Hm in H2. injection H2 as <-. lra.
  - unfold py_pow in H1, H2.
    destruct (Req_dec_T y1 0); [lra |].
    destruct (Req_dec_T y2 0); [lra |].
    destruct (Rlt_dec 0 x) as [Hpos | Hneg].
    + injection H1 as <-. injection H2 as <-.
      apply Rpower_antitone; lra.
    + destruct (Req_dec_T x 0); [| lra].
      destruct (Rlt_dec 0 y1); [| lra].
      destruct (Rlt_dec 0 y2); [| lra].
      injection H1 as <-. injection H2 as <-. lra.
Qed.

End PyPow.

Section Progress.

Variables (max_steps warm_up : Z).
Hypothesis max_steps_pos : (0 < max_steps)%Z.

Lemma progress_ok (iter : Z) :
  progress max_steps warm_up iter
  = Ok (IZR (Z.max (iter - warm_up) 0) / IZR max_steps).
Proof.
  unfold progress. destruct (Z.eqb_spec max_steps 0); [lia | reflexivity].
Qed.

Lemma exponent_before (iter : Z) : (iter <= warm_up)%Z -> exponent max_steps warm_up iter = 0.
Proof.
  intros H. unfold exponent.
  replace (Z.max (iter - warm_up) 0) with 0%Z by lia.
  unfold Rdiv. rewrite Rmult_0_l. apply Rmin_left. lra.
Qed.

Lemma exponent_after (iter : Z) :
  (warm_up + max_steps <= iter)%Z -> exponent max_steps warm_up iter = 1.
Proof.
  intros H. unfold exponent. apply Rmin_right.
  assert (Hm : 0 < IZR max_steps) by now apply IZR_lt.
  apply Rmult_le_reg_r with (IZR max_steps); [assumption |].
  unfold Rdiv. rewrite Rmult_assoc, Rinv_l, Rmult_1_r, Rmult_1_l by lra.
  apply IZR_le. lia.
Qed.

Lemma exponent_nonneg (iter : Z) : 0 <= exponent max_steps warm_up iter.
Proof.
  unfold exponent. apply Rmin_glb; [| lra].
  assert (Hm : 0 < IZR max_steps) by now apply IZR_lt.
  assert (Hn : 0 <= IZR (Z.max (iter - warm_up) 0)) by (apply IZR_le; lia).
  apply Rmult_le_pos; [assumption |]. left. now apply Rinv_0_lt_compat.
Qed.

Lemma exponent_monotone (t1 t2 : Z) :
  (t1 <= t2)%Z -> exponent max_steps warm_up t1 <= exponent max_steps warm_up t2.
Proof.
  intros H. unfold exponent. apply Rle_min_compat_r.
  assert (Hm : 0 < IZR max_steps) by now apply IZR_lt.
  apply Rmult_le_compat_r; [left; now apply Rinv_0_lt_compat |].
  apply IZR_le. lia.
Qed.

Lemma lr_lambda_exponent (ff : R) (iter : Z) :
  lr_lambda ff max_steps warm_up iter = py_pow ff (exponent max_steps warm_up iter).
Proof.
  unfold lr_lambda. now rewrite progress_ok.
Qed.

End Progress.

Lemma py_pow_raises (x y : R) (e : exn) :
  py_pow x y = Raise e ->
  (e = ZeroDivisionError /\ y < 0) \/ e = ComplexValue.
Proof.
  unfold py_pow.
  destruct (Req_dec_T y 0); [discriminate |].
  destruct (Rlt_dec 0 x); [discriminate |].
  destruct (Req_dec_T x 0).
  - destruct (Rlt_dec 0 y); [discriminate |].
    intros [= <-]. left. split; [reflexivity | lra].
  - destruct (Req_dec_T y (IZR (Int_part y))); [discriminate |].
    intros [= <-]. now right.
Qed.

(** With [max_steps > 0] the lambda raises nothing at any step. *)
Lemma lr_lambda_no_exception (ff : R) (max_steps warm_up t : Z) (e : exn) :
  (0 < max_steps)%Z ->
  lr_lambda ff max_steps warm_up t = Raise e -> e = ComplexValue.
Proof.
  intros Hpos H. rewrite lr_lambda_exponent in H by assumption.
  pose proof (exponent_nonneg max_steps warm_up Hpos t).
  destruct (py_pow_raises _ _ _ H) as [[_ Hneg] | ->]; [lra | reflexivity].
Qed.

Lemma lr_lambda_no_steps (ff : R) (warm_up t : Z) :
  lr_lambda ff 0 warm_up t = Raise ZeroDivisionError.
Proof. reflexivity. Qed.

Lemma LambdaLR_ok (o : Optimizer) (lam : Z -> result R) :
  (forall e, lam 0%Z = Raise e -> e = ComplexValue) ->
  LambdaLR o lam = Ok (mkLambdaLR o lam).
Proof.
  intros H. unfold LambdaLR. destruct (lam 0%Z) as [m | e]; [reflexivity |].
  now rewrite (H e eq_refl).
Qed.

Lemma LambdaLR_inv (o : Optimizer) (lam : Z -> result R) (s : Scheduler) :
  LambdaLR o lam = Ok s ->
  s = mkLambdaLR o lam /\ lam 0%Z <> Raise ZeroDivisionError.
Proof.
  unfold LambdaLR. destruct (lam 0%Z) as [m | e].
  - intros [= <-]. split; [reflexivity | discriminate].
  - destruct e; try discriminate.
    intros [= <-]. split; [reflexivity | discriminate].
Qed.

Lemma create_inv (params : parameters) (name : string) (lr ff : R)
    (max_steps : Z) (eps : R) (warm_up : Z) (o : Optimizer) (s : Scheduler) :
  _create_optimizer_and_scheduler params name lr ff max_steps eps warm_up
  = Ok (o, s) ->
  o = mkAdam params name lr eps /\
  s = mkLambdaLR o (lr_lambda ff max_steps warm_up) /\
  0 <= lr /\ 0 <= eps /\ max_steps <> 0%Z.
Proof.
  unfold _create_optimizer_and_scheduler, Adam.
  destruct (Rlt_dec lr 0); [discriminate |].
  destruct (Rlt_dec eps 0); [discriminate |]. cbn [rbind].
  destruct (LambdaLR _ _) as [s' |] eqn:E; [| discriminate]. cbn [rbind].
  intros [= <- <-]. apply LambdaLR_inv in E. destruct E as [-> Hstart].
  repeat split; try lra.
  intros ->. apply Hstart. apply lr_lambda_no_steps.
Qed.

Lemma create_ok (params : parameters) (name : string) (lr ff : R)
    (max_steps : Z) (eps : R) (warm_up : Z) :
  0 <= lr -> 0 <= eps ->
  (forall e, lr_lambda ff max_steps warm_up 0 = Raise e -> e = ComplexValue) ->
  _create_optimizer_and_scheduler params name lr ff max_steps eps warm_up
  = Ok (mkAdam params name lr eps,
        mkLambdaLR (mkAdam params name lr eps)
          (lr_lambda ff max_steps warm_up)).
Proof.
  intros Hlr Heps Hstart. unfold _create_optimizer_and_scheduler, Adam.
  destruct (Rlt_dec lr 0); [lra |].
  destruct (Rlt_dec eps 0); [lra |]. cbn [rbind].
  now rewrite LambdaLR_ok.
Qed.

(** The schedulers that get built carry the lambda of the source, and none
    is built with [max_steps = 0]. *)
Lemma schedulers_lambda (self : RendererModule) (s : Scheduler) :
  In s (schedulers self) ->
  sched_lambda s
  = lr_lambda (lr_final_factor (optimization_config self))
      (max_steps (optimization_config self))
      (warm_up (optimization_config self)) /\
  max_steps (optimization_config self) <> 0%Z.
Proof.
  unfold schedulers, training_setup.
  destruct (model self); [| contradiction].
  destruct (_create_optimizer_and_scheduler embedding_parameters _ _ _ _ _ _)
    as [[o1 s1] | e] eqn:E1; [cbn [rbind] | contradiction].
  destruct (_create_optimizer_and_scheduler network_parameters _ _ _ _ _ _)
    as [[o2 s2] | e] eqn:E2; [cbn [rbind] | contradiction].
  apply create_inv in E1, E2.
  destruct E1 as (_ & -> & _ & _ & Hsteps), E2 as (_ & -> & _).
  simpl. intros [<- | [<- | []]]; split; auto.
Qed.

(** [training_setup] builds its two optimizers and schedulers when the model
    is set, the rates and [eps] are not negative and the lambda raises
    nothing at step 0. *)
Lemma training_setup_builds (self : RendererModule) :
  let c := optimization_config self in
  model self <> None ->
  0 <= embedding_lr_init c -> 0 <= lr_init c -> 0 <= eps c ->
  (forall e, lr_lambda (lr_final_factor c) (max_steps c) (warm_up c) 0
             = Raise e -> e = ComplexValue) ->
  training_setup self
  = Ok ([mkAdam embedding_parameters "embedding" (embedding_lr_init c) (eps c);
         mkAdam network_parameters "embedding_network" (lr_init c) (eps c)],
        [mkLambdaLR
           (mkAdam embedding_parameters "embedding" (embedding_lr_init c)
              (eps c))
           (lr_lambda (lr_final_factor c) (max_steps c) (warm_up c));
         mkLambdaLR
           (mkAdam network_parameters "embedding_network" (lr_init c) (eps c))
           (lr_lambda (lr_final_factor c) (max_steps c) (warm_up c))]).
Proof.
  intros c Hmodel Helr Hlr Heps Hstart. unfold training_setup. fold c.
  destruct (model self); [| contradiction].
  rewrite !create_ok by assumption. reflexivity.
Qed.

Lemma schedulers_built (self : RendererModule) :
  let c := optimization_config self in
  model self <> None ->
  0 <= embedding_lr_init c -> 0 <= lr_init c -> 0 <= eps c ->
  (forall e, lr_lambda (lr_final_factor c) (max_steps c) (warm_up c) 0
             = Raise e -> e = ComplexValue) ->
  schedulers self
  = [mkLambdaLR
       (mkAdam embedding_parameters "embedding" (embedding_lr_init c) (eps c))
       (lr_lambda (lr_final_factor c) (max_steps c) (warm_up c));
     mkLambdaLR
       (mkAdam network_parameters "embedding_network" (lr_init c) (eps c))
       (lr_lambda (lr_final_factor c) (max_steps c) (warm_up c))].
Proof.
  intros c Hmodel Helr Hlr Heps Hstart. unfold schedulers.
  now rewrite training_setup_builds.
Qed.

(** The schedulers of the example modules. *)
Lemma schedulers_example :
  schedulers example_module
  = [mkLambdaLR (mkAdam embedding_parameters "embedding" (2 / 1000)
                   (/ 1000000000000000))
       (lr_lambda (/ 10) 30000 4000);
     mkLambdaLR (mkAdam network_parameters "embedding_network" (/ 1000)
                   (/ 1000000000000000))
       (lr_lambda (/ 10) 30000 4000)].
Proof.
  apply schedulers_built; simpl; try lra; try discriminate.
  intros e. apply lr_lambda_no_exception. lia.
Qed.

Lemma lr_lambda_before (ff : R) (max_steps warm_up t : Z) :
  max_steps <> 0%Z -> (t <= warm_up)%Z ->
  lr_lambda ff max_steps warm_up t = Ok 1.
Proof.
  intros Hsteps Ht. unfold lr_lambda, progress.
  destruct (Z.eqb_spec max_steps 0); [contradiction |]. cbn [rbind].
  replace (Z.max (t - warm_up) 0) with 0%Z by lia.
  unfold Rdiv. rewrite Rmult_0_l, Rmin_left by lra.
  apply py_pow_zero_exponent.
Qed.

Lemma lr_lambda_formula (ff : R) (max_steps warm_up t : Z) :
  max_steps <> 0%Z ->
  lr_lambda ff max_steps warm_up t
  = py_pow ff (Rmin (IZR (Z.max (t - warm_up) 0) / IZR max_steps) 1).
Proof.
  intros Hsteps. unfold lr_lambda, progress.
  destruct (Z.eqb_spec max_steps 0); [contradiction | reflexivity].
Qed.

(** C3, as amended.  For both schedulers built by [training_setup]: the
    multiplier at step [t] is
    [lr_final_factor ** min(max(t - warm_up, 0) / max_steps, 1)], and it is 1
    for every [t <= warm_up]; when [max_steps] is positive it is
    [lr_final_factor] for every [t >= warm_up + max_steps]; and when moreover
    [0 <= lr_final_factor <= 1] it does not increase with [t] from [warm_up]
    on. *)
Theorem lr_multiplier_schedule (self : RendererModule) (s : Scheduler) :
  let c := optimization_config self in
  In s (schedulers self) ->
  (forall t,
      sched_lambda s t
      = py_pow (lr_final_factor c)
          (Rmin (IZR (Z.max (t - warm_up c) 0) / IZR (max_steps c)) 1)) /\
  (forall t, (t <= warm_up c)%Z -> sched_lambda s t = Ok 1) /\
  ((0 < max_steps c)%Z ->
   forall t, (warm_up c + max_steps c <= t)%Z ->
             sched_lambda s t = Ok (lr_final_factor c)) /\
  ((0 < max_steps c)%Z ->
   0 <= lr_final_factor c <= 1 ->
   forall t1 t2, (warm_up c <= t1 <= t2)%Z ->
     exists m1 m2,
       sched_lambda s t1 = Ok m1 /\ sched_lambda s t2 = Ok m2 /\ m2 <= m1).
Proof.
  intros c Hin. destruct (schedulers_lambda self s Hin) as [-> Hsteps].
  fold c in Hsteps |- *.
  split; [| split; [| split]].
  - intros t. now apply lr_lambda_formula.
  - intros t Ht. now apply lr_lambda_before.
  - intros Hpos t Ht.
    rewrite lr_lambda_exponent, exponent_after by assumption.
    apply py_pow_one_exponent.
  - intros Hpos Hff t1 t2 [_ Ht].
    rewrite !lr_lambda_exponent by assumption.
    pose proof (exponent_nonneg _ (warm_up c) Hpos t1) as H1.
    pose proof (exponent_nonneg _ (warm_up c) Hpos t2) as H2.
    pose proof (exponent_monotone _ (warm_up c) Hpos t1 t2 Ht) as H12.
    destruct (py_pow_unit_base _ _ Hff H1) as (m1 & E1 & _).
    destruct (py_pow_unit_base _ _ Hff H2) as (m2 & E2 & _).
    exists m1, m2. repeat split; try assumption.
    apply (py_pow_antitone (lr_final_factor c)
             (exponent (max_steps c) (warm_up c) t1)
             (exponent (max_steps c) (warm_up c) t2)); auto.
Qed.

(** The default configuration: multiplier 1 at step 4000, 1/10 at step 34000,
    and no increase between steps 10000 and 20000, for the network's
    scheduler. *)
Lemma lr_multiplier_schedule_witness :
  exists s, nth_error (schedulers example_module) 1 = Some s /\
    sched_lambda s 4000 = Ok 1 /\
    sched_lambda s 34000 = Ok (/ 10) /\
    exists m1 m2,
      sched_lambda s 10000 = Ok m1 /\ sched_lambda s 20000 = Ok m2 /\
      m2 <= m1.
Proof.
  eexists. split; [rewrite schedulers_example; reflexivity |].
  match goal with |- sched_lambda ?s _ = _ /\ _ =>
    assert (Hin : In s (schedulers example_module))
      by (rewrite schedulers_example; right; left; reflexivity);
    destruct (lr_multiplier_schedule example_module s Hin)
      as (_ & Hbefore & Hafter & Hmono)
  end.
  split; [apply Hbefore; simpl; lia |].
  split; [apply Hafter; simpl; lia |].
  apply Hmono; simpl; [lia | lra | lia].
Defined.

Lemma schedulers_growing :
  schedulers growing_module
  = [mkLambdaLR (mkAdam embedding_parameters "embedding" (2 / 1000)
                   (/ 1000000000000000))
       (lr_lambda 2 1 0);
     mkLambdaLR (mkAdam network_parameters "embedding_network" (/ 1000)
                   (/ 1000000000000000))
       (lr_lambda 2 1 0)].
Proof.
  apply schedulers_built; simpl; try lra; try discriminate.
  intros e. apply lr_lambda_no_exception. lia.
Qed.

Lemma schedulers_backward :
  schedulers backward_module
  = [mkLambdaLR (mkAdam embedding_parameters "embedding" (2 / 1000)
                   (/ 1000000000000000))
       (lr_lambda (/ 2) (-1) 0);
     mkLambdaLR (mkAdam network_parameters "embedding_network" (/ 1000)
                   (/ 1000000000000000))
       (lr_lambda (/ 2) (-1) 0)].
Proof.
  apply schedulers_built; simpl; try lra; try discriminate.
  intros e. rewrite lr_lambda_before by lia. discriminate.
Qed.

Lemma lr_lambda_backward_step : lr_lambda (/ 2) (-1) 0 1 = Ok 2.
Proof.
  rewrite lr_lambda_formula by lia.
  change (Z.max (1 - 0) 0) with 1%Z.
  replace (1 / -1) with (- (1)) by field.
  rewrite Rmin_left by lra.
  unfold py_pow.
  destruct (Req_dec_T (- (1)) 0); [lra |].
  destruct (Rlt_dec 0 (/ 2)); [| lra].
  f_equal. rewrite Rpower_Ropp, Rpower_1 by lra. field.
Qed.

(** C3 as stated fails.  With [lr_final_factor = 2], [max_steps = 1] and
    [warm_up = 0] the multiplier of the embedding scheduler grows from 1 at
    step 0 to 2 at step 1.  With [max_steps = -1], [lr_final_factor = 1/2]
    and [warm_up = 0] it is 2 at step 1, a step after
    [warm_up + max_steps], not 1/2, and again it has grown. *)
Lemma lr_multiplier_not_monotone :
  (exists s, nth_error (schedulers growing_module) 0 = Some s /\
     sched_lambda s 0 = Ok 1 /\ sched_lambda s 1 = Ok 2 /\ ~ (2 <= 1)) /\
  (exists s, nth_error (schedulers backward_module) 0 = Some s /\
     (0 + -1 <= 1)%Z /\
     sched_lambda s 0 = Ok 1 /\ sched_lambda s 1 = Ok 2 /\
     2 <> / 2 /\ ~ (2 <= 1)).
Proof.
  split.
  - eexists. split; [rewrite schedulers_growing; reflexivity |]. simpl.
    rewrite !lr_lambda_exponent by lia.
    rewrite (exponent_before 1 0) by lia.
    rewrite (exponent_after 1 0) by lia.
    rewrite py_pow_zero_exponent, py_pow_one_exponent.
    repeat split. lra.
  - eexists. split; [rewrite schedulers_backward; reflexivity |]. simpl.
    rewrite lr_lambda_before by lia. rewrite lr_lambda_backward_step.
    repeat split; try lia; lra.
Qed.

(** ** The appearance shading model *)

Lemma sigmoid_range (x : R) : 0 < sigmoid x < 1.
Proof.
  unfold sigmoid. pose proof (exp_pos (- x)) as He.
  assert (Hd : 0 < 1 + exp (- x)) by lra.
  split.
  - apply Rdiv_lt_0_compat; lra.
  - apply Rmult_lt_reg_r with (1 + exp (- x)); [assumption |].
    unfold Rdiv. rewrite Rmult_assoc, Rinv_l by lra. lra.
Qed.

Lemma rescaled_sigmoid_range (v : vec3) :
  vec3_in_range (-1) 1 (map3 (fun x => x * 2 - 1) (map3 sigmoid v)).
Proof.
  destruct v as [[x y] z]. simpl. unfold in_range.
  pose proof (sigmoid_range x). pose proof (sigmoid_range y).
  pose proof (sigmoid_range z). lra.
Qed.

Section ListLemmas.

Context {A B : Type}.

Lemma mapM_total (f : A -> result B) (Q : B -> Prop) (l : list A) :
  Forall (fun a => exists b, f a = Ok b /\ Q b) l ->
  exists bs, mapM f l = Ok bs /\ List.length bs = List.length l /\ Forall Q bs.
Proof.
  induction 1 as [| a l (b & Hb & Hq) _ (bs & Hbs & Hlen & Hall)].
  - exists []. repeat split. constructor.
  - exists (b :: bs). simpl. rewrite Hb, Hbs. simpl.
    repeat split; [now rewrite Hlen | now constructor].
Qed.

Lemma zip_with_length {C} (f : A -> B -> C) (xs : list A) (ys : list B) :
  List.length xs = List.length ys ->
  List.length (zip_with f xs ys) = List.length xs.
Proof.
  revert ys. induction xs as [| x xs IH]; intros [| y ys] H; simpl in *;
    try reflexivity; try discriminate.
  f_equal. apply IH. now injection H.
Qed.

Lemma zip_with_Forall {C} (f : A -> B -> C) (P : A -> Prop) (Q : B -> Prop)
    (S : C -> Prop) (xs : list A) (ys : list B) :
  (forall a b, P a -> Q b -> S (f a b)) ->
  Forall P xs -> Forall Q ys -> Forall S (zip_with f xs ys).
Proof.
  intros Hf Hxs. revert ys.
  induction Hxs as [| x xs Hx _ IH]; intros ys Hys; simpl; [constructor |].
  destruct Hys as [| y ys Hy Hys]; constructor; auto.
Qed.

End ListLemmas.

Lemma Forall_repeat {A} (P : A -> Prop) (a : A) (n : nat) :
  P a -> Forall P (repeat a n).
Proof. intros H. induction n; simpl; constructor; assumption. Qed.

Lemma Forall_map_iff {A B} (f : A -> B) (P : B -> Prop) (l : list A) :
  Forall (fun a => P (f a)) l -> Forall P (map f l).
Proof. induction 1; simpl; constructor; assumption. Qed.

Lemma F_normalize_length (row : list R) :
  List.length (F_normalize row) = List.length row.
Proof. unfold F_normalize. apply length_map. Qed.

Lemma nn_Embedding_shape (init : nat -> nat -> R) (n d : Z) :
  (0 <= n)%Z -> (0 <= d)%Z ->
  exists table,
    nn_Embedding init n d = Ok table /\
    List.length table = Z.to_nat n /\ Forall (row_width d) table.
Proof.
  intros Hn Hd. unfold nn_Embedding.
  destruct (Z.ltb_spec n 0); [lia |]. destruct (Z.ltb_spec d 0); [lia |].
  simpl. eexists. split; [reflexivity |]. split.
  - now rewrite length_map, length_seq.
  - apply Forall_map_iff, Forall_forall. intros i _. unfold row_width.
    rewrite length_map, length_seq. lia.
Qed.

Lemma get_network_ok (f : list R -> vec3) (n_in n_layers : Z) (skips : list Z) :
  Forall (fun i => 0 <= i < n_layers)%Z skips ->
  get_network_with_skip_layers f n_in n_layers skips = Ok (mkNetwork n_in f).
Proof.
  intros H. unfold get_network_with_skip_layers.
  replace (forallb _ skips) with true; [reflexivity |].
  symmetry. apply forallb_forall. rewrite Forall_forall in H.
  intros i Hi. specialize (H i Hi). apply andb_true_iff. split.
  - apply Z.leb_le. lia.
  - apply Z.ltb_lt. lia.
Qed.

Lemma Model_setup_ok (init : Initializer) (c : ModelConfig) :
  valid_config c ->
  exists table,
    List.length table = Z.to_nat (n_appearances c) /\
    Forall (row_width (n_appearance_embedding_dims c)) table /\
    Model_setup init c
    = Ok (mkModel c table
            (if is_view_dependent c
             then Some (init_encoding init (n_view_direction_frequencies c))
             else None)
            (mkNetwork (setup_input_dims init c) (init_logits init))).
Proof.
  intros (Hn & Hd & Hskips).
  destruct (nn_Embedding_shape (init_embedding init) _ _ Hn Hd)
    as (table & Htable & Hlen & Hwidth).
  exists table. repeat split; try assumption.
  unfold Model_setup. rewrite Htable. simpl.
  rewrite get_network_ok by assumption. simpl.
  unfold setup_input_dims. destruct (is_view_dependent c); simpl.
  - reflexivity.
  - now rewrite Z.add_0_r.
Qed.

Lemma embedding_lookup_ok (table : list (list R)) (d app : Z) :
  Forall (row_width d) table ->
  (0 <= app < Z.of_nat (List.length table))%Z ->
  exists row, embedding_lookup table app = Ok row /\ row_width d row.
Proof.
  intros Hw Happ. unfold embedding_lookup.
  destruct (Z.ltb_spec app 0); [lia |].
  destruct (nth_error table (Z.to_nat app)) as [row |] eqn:E.
  - exists row. split; [reflexivity |].
    rewrite Forall_forall in Hw. apply Hw. eapply nth_error_In; eassumption.
  - apply nth_error_None in E. lia.
Qed.

Lemma concat_rows_ok (a b : list (list R)) (wa wb : Z) :
  List.length a = List.length b ->
  Forall (row_width wa) a -> Forall (row_width wb) b ->
  exists rows,
    concat_rows a b = Ok rows /\ List.length rows = List.length a /\
    Forall (row_width (wa + wb)) rows.
Proof.
  intros Hlen Ha Hb. unfold concat_rows.
  rewrite (proj2 (Nat.eqb_eq _ _) Hlen).
  eexists. split; [reflexivity |]. split.
  - now apply zip_with_length.
  - eapply zip_with_Forall; [| eassumption | eassumption].
    intros x y Hx Hy. unfold row_width in *. rewrite length_app. lia.
Qed.

Lemma network_forward_ok (net : Network) (input : list (list R)) :
  Forall (row_width (n_input_dims net)) input ->
  exists out,
    network_forward net input = Ok out /\
    List.length out = List.length input /\
    Forall (fun v => vec3_in_range (-1) 1 (map3 (fun x => x * 2 - 1) v)) out.
Proof.
  intros H. unfold network_forward. apply mapM_total.
  eapply Forall_impl; [| exact H].
  intros row Hrow. unfold network_row, row_width in *.
  rewrite (proj2 (Z.eqb_eq _ _) Hrow).
  eexists. split; [reflexivity |]. apply rescaled_sigmoid_range.
Qed.

Lemma normalized_rows (b : bool) (w : Z) (rows : list (list R)) :
  Forall (row_width w) rows ->
  Forall (row_width w) (if b then map F_normalize rows else rows) /\
  List.length (if b then map F_normalize rows else rows) = List.length rows.
Proof.
  intros H. destruct b; [| now split]. split.
  - apply Forall_map_iff. eapply Forall_impl; [| exact H].
    intros row Hrow. unfold row_width in *. now rewrite F_normalize_length.
  - apply length_map.
Qed.

(** C4.  For every valid [ModelConfig] the model is constructed, and on [N]
    points whose feature rows have [n_gaussian_feature_dims] entries, with an
    appearance id of the table and as many view directions, the prediction
    ([Model.forward] followed by [* 2 - 1]) is a tensor of [N] rows of three
    components, each within [-1, 1]. *)
Theorem predict_shape_and_range (init : Initializer) (c : ModelConfig) :
  valid_config c ->
  encoder_consistent init c ->
  exists m,
    Model_setup init c = Ok m /\
    forall (gaussian_features : list (list R)) (appearance : Z)
           (view_dirs : list vec3),
      Forall (row_width (n_gaussian_feature_dims c)) gaussian_features ->
      (0 <= appearance < n_appearances c)%Z ->
      List.length view_dirs = List.length gaussian_features ->
      exists offsets,
        predict m gaussian_features appearance view_dirs = Ok offsets /\
        List.length offsets = List.length gaussian_features /\
        Forall (vec3_in_range (-1) 1) offsets.
Proof.
  intros Hvalid Henc.
  destruct (Model_setup_ok init c Hvalid) as (table & Hrows & Hwidth & Hsetup).
  eexists. split; [exact Hsetup |].
  intros feats app dirs Hfeats Happ Hdirs.
  unfold predict, Model_forward. cbn [embedding config network
    view_direction_encoding].
  destruct (embedding_lookup_ok table _ app Hwidth) as (row & Hrow & Hroww);
    [destruct Hvalid; lia |].
  rewrite Hrow. cbn [rbind].
  destruct (normalized_rows (normalize c) _ feats Hfeats) as (Hf & Hfl).
  destruct (normalized_rows (normalize c) _
              (repeat row (List.length feats))
              (Forall_repeat _ row _ Hroww)) as (He & Hel).
  rewrite repeat_length in Hel.
  destruct (concat_rows_ok _ _ _ _ (eq_trans Hfl (eq_sym Hel)) Hf He)
    as (rows & Hcat & Hcatl & Hcatw).
  rewrite Hcat. cbn [rbind]. rewrite Hfl in Hcatl.
  assert (Hinput : exists input,
    (if is_view_dependent c then
       match (if is_view_dependent c
              then Some (init_encoding init (n_view_direction_frequencies c))
              else None) with
       | Some e => concat_rows rows (map (encode e) dirs)
       | None => Raise AttributeError
       end
     else Ok rows) = Ok input /\
    List.length input = List.length feats /\
    Forall (row_width (setup_input_dims init c)) input).
  { unfold setup_input_dims. destruct (is_view_dependent c).
    - destruct (concat_rows_ok rows
                  (map (encode (init_encoding init
                                  (n_view_direction_frequencies c))) dirs)
                  (n_gaussian_feature_dims c + n_appearance_embedding_dims c)%Z
                  (get_output_n_channels
                       (init_encoding init (n_view_direction_frequencies c))))
        as (input & Hin & Hinl & Hinw).
      + rewrite length_map. congruence.
      + assumption.
      + apply Forall_map_iff, Forall_forall. intros d _. apply Henc.
      + exists input. repeat split; [assumption | congruence | assumption].
    - exists rows. repeat split; [assumption |].
      now rewrite Z.add_0_r. }
  destruct Hinput as (input & Hin & Hinl & Hinw).
  rewrite Hin. cbn [rbind].
  destruct (network_forward_ok
              (mkNetwork (setup_input_dims init c) (init_logits init)) input
              Hinw) as (out & Hout & Houtl & Houtr).
  rewrite Hout. cbn [rbind].
  exists (rescale out). split; [reflexivity |]. split.
  - unfold rescale. rewrite length_map. congruence.
  - unfold rescale. now apply Forall_map_iff.
Qed.

(** The spec's scenario: one point with eight zero features, appearance 0. *)
Lemma predict_shape_and_range_witness :
  exists m offsets,
    Model_setup example_initializer example_model_config = Ok m /\
    predict m [[0; 0; 0; 0; 0; 0; 0; 0]] 0 [(0, 0, 1)] = Ok offsets /\
    List.length offsets = 1%nat /\
    Forall (vec3_in_range (-1) 1) offsets.
Proof.
  assert (Hvalid : valid_config example_model_config).
  { unfold valid_config. simpl. repeat split; try lia. constructor. }
  assert (Henc : encoder_consistent example_initializer example_model_config).
  { intros [[x y] z]. reflexivity. }
  destruct (predict_shape_and_range example_initializer example_model_config
              Hvalid Henc) as (m & Hm & Hpredict).
  destruct (Hpredict [[0; 0; 0; 0; 0; 0; 0; 0]] 0%Z [(0, 0, 1)])
    as (offsets & Hoff & Hlen & Hrange).
  - repeat constructor.
  - simpl. lia.
  - reflexivity.
  - exists m, offsets. repeat split; assumption.
Defined.

(** ** Program trees *)

Section Holds.

Context (P : forall X, call X -> Prop).

Lemma holds_bind {A B} (Q : A -> Prop) (Q' : B -> Prop)
    (p : prog A) (f : A -> prog B) :
  holds P Q p -> (forall a, Q a -> holds P Q' (f a)) ->
  holds P Q' (bind p f).
Proof.
  intros Hp Hf. induction Hp as [a Ha | e | X c k Hc _ IH]; simpl.
  - now apply Hf.
  - constructor.
  - constructor; assumption.
Qed.

Lemma holds_lift {A} (Q : A -> Prop) (r : result A) :
  (forall a, r = Ok a -> Q a) -> holds P Q (lift r).
Proof.
  intros H. destruct r; simpl; constructor. now apply H.
Qed.

Lemma holds_trigger {X} (Q : X -> Prop) (c : call X) :
  P X c -> (forall x, Q x) -> holds P Q (trigger c).
Proof.
  intros Hc HQ. unfold trigger. constructor; [assumption |].
  intros x. constructor. apply HQ.
Qed.

Lemma holds_weaken {A} (Q Q' : A -> Prop) (p : prog A) :
  (forall a, Q a -> Q' a) -> holds P Q p -> holds P Q' p.
Proof.
  intros HQ Hp. induction Hp; constructor; auto.
Qed.

Lemma holds_run {A} (Q : A -> Prop) (p : prog A) (h : handler) (a : A) :
  holds P Q p -> run h p = Ok a -> Q a.
Proof.
  intros Hp. induction Hp as [a' Ha | e | X c k _ _ IH]; simpl; intros Hrun.
  - now injection Hrun as <-.
  - discriminate.
  - destruct (h X c) as [x | e]; [now apply (IH x) | discriminate].
Qed.

Lemma holds_trace {A} (Q : A -> Prop) (p : prog A) (h : handler) :
  holds P Q p -> Forall (fun '(Called c) => P _ c) (trace h p).
Proof.
  intros Hp. induction Hp as [a' Ha | e | X c k Hc _ IH]; simpl.
  - constructor.
  - constructor.
  - constructor; [assumption |].
    destruct (h X c) as [x | e]; [apply IH | constructor].
Qed.

End Holds.

Lemma run_bind {A B} (h : handler) (p : prog A) (f : A -> prog B) :
  run h (bind p f) = rbind (run h p) (fun a => run h (f a)).
Proof.
  induction p as [a | e | X c k IH]; simpl; try reflexivity.
  destruct (h X c); [apply IH | reflexivity].
Qed.

Lemma contains_In (l : list string) (x : string) :
  contains l x = true <-> In x l.
Proof.
  unfold contains. rewrite existsb_exists. split.
  - intros (y & Hy & E). apply String.eqb_eq in E. now subst.
  - intros H. exists x. split; [assumption | apply String.eqb_refl].
Qed.

Lemma contains_filter_recognized (l : list string) (x : string) :
  recognized x = true ->
  contains (filter recognized l) x = contains l x.
Proof.
  intros Hx. unfold contains.
  induction l as [| a l IH]; simpl; [reflexivity |].
  destruct (recognized a) eqn:Ha; simpl.
  - now rewrite IH.
  - rewrite IH. destruct (String.eqb_spec x a) as [-> | _];
      [congruence | reflexivity].
Qed.

(** ** Dispatch on the training step *)

(** C1.  Before [warm_up] steps [training_forward] is the one call of the
    base renderer, with the arguments as they came and its answer returned as
    it is, and makes no call of the shading model; from [warm_up] on it is
    [forward]. *)
Theorem warm_up_dispatch (self : RendererModule) (step : Z)
    (viewpoint_camera : Camera) (pc : GaussianModel) (bg_color : list R)
    (scaling_modifier : R) (kwargs : option (list string)) :
  ((step < warm_up (optimization_config self))%Z ->
   training_forward self step viewpoint_camera pc bg_color scaling_modifier
     kwargs
   = (if renderer self
      then Vis (base_renderer_call viewpoint_camera pc bg_color
                  scaling_modifier kwargs)
             (fun d => Ret (BaseDict d))
      else Throw AttributeError) /\
   every_call (fun X c => is_base_renderer_call c /\ ~ is_model_call c)
     (training_forward self step viewpoint_camera pc bg_color scaling_modifier
        kwargs)) /\
  ((warm_up (optimization_config self) <= step)%Z ->
   training_forward self step viewpoint_camera pc bg_color scaling_modifier
     kwargs
   = bind (forward self viewpoint_camera pc bg_color scaling_modifier kwargs)
       (fun b => Ret (ForwardDict b))).
Proof.
  unfold training_forward. split; intros Hstep.
  - rewrite (proj2 (Z.ltb_lt _ _) Hstep). split; [reflexivity |].
    destruct (renderer self); [| constructor].
    apply (holds_Vis _ _ (base_renderer_call viewpoint_camera pc bg_color
                            scaling_modifier kwargs)
             (fun d => Ret (BaseDict d))).
    + simpl. tauto.
    + intros d. now constructor.
  - now rewrite (proj2 (Z.ltb_ge _ _) Hstep).
Qed.

(** Step 0 is before the default warm-up of 4000 steps, step 4000 is not. *)
Lemma warm_up_dispatch_witness :
  (training_forward example_module 0 example_camera example_points
     [0; 0; 0] 1 None
   = Vis (base_renderer_call example_camera example_points [0; 0; 0] 1 None)
       (fun d => Ret (BaseDict d)) /\
   every_call (fun X c => is_base_renderer_call c /\ ~ is_model_call c)
     (training_forward example_module 0 example_camera example_points
        [0; 0; 0] 1 None)) /\
  training_forward example_module 4000 example_camera example_points
    [0; 0; 0] 1 None
  = bind (forward example_module example_camera example_points [0; 0; 0] 1
            None)
      (fun b => Ret (ForwardDict b)).
Proof.
  split.
  - apply (warm_up_dispatch example_module 0 example_camera example_points
             [0; 0; 0] 1 None).
    simpl. lia.
  - apply (warm_up_dispatch example_module 4000 example_camera example_points
             [0; 0; 0] 1 None).
    simpl. lia.
Defined.

(** ** The channels of [forward] *)

Lemma holds_any {A} (p : prog A) : holds (fun _ _ => True) (fun _ => True) p.
Proof. induction p; constructor; auto. Qed.

Lemma populated_yes (im : Image) : populated_iff true (Some im).
Proof. split; [reflexivity | discriminate]. Qed.

Lemma populated_no : populated_iff false None.
Proof. split; [congruence | discriminate]. Qed.

Lemma forward_channels (self : RendererModule) (viewpoint_camera : Camera)
    (pc : GaussianModel) (bg_color : list R) (scaling_modifier : R)
    (l : list string) :
  holds (fun _ _ => True)
    (fun b =>
       populated_iff (contains l "rgb") (render b) /\
       populated_iff (contains l "inverse_depth") (inverse_depth b) /\
       populated_iff (contains l "hard_inverse_depth") (hard_inverse_depth b))
    (forward self viewpoint_camera pc bg_color scaling_modifier (Some l)).
Proof.
  unfold forward.
  eapply holds_bind; [apply holds_any |]. intros [pr os] _. cbv beta iota.
  eapply holds_bind; [apply holds_any |]. intros os' _.
  apply holds_bind with (Q := populated_iff (contains l "rgb")).
  { destruct (contains l "rgb").
    - eapply holds_bind; [apply holds_any |]. intros rgbs _.
      eapply holds_bind; [apply holds_any |]. intros im _.
      constructor. apply populated_yes.
    - constructor. apply populated_no. }
  intros rgb Hrgb.
  apply holds_bind with (Q := populated_iff (contains l "inverse_depth")).
  { destruct (contains l "inverse_depth").
    - eapply holds_bind; [apply holds_any |]. intros im _.
      constructor. apply populated_yes.
    - constructor. apply populated_no. }
  intros idepth Hidepth.
  apply holds_bind with (Q := populated_iff (contains l "hard_inverse_depth")).
  { destruct (contains l "hard_inverse_depth").
    - eapply holds_bind; [apply holds_any |]. intros im _.
      constructor. apply populated_yes.
    - constructor. apply populated_no. }
  intros hdepth Hhdepth.
  constructor. simpl. auto.
Qed.

(** C9.  Entries of [render_types] other than the three channel names change
    nothing: [forward] is the same program with them removed (so they raise
    nothing and add no call), and whenever [forward] returns, each of the
    three channel entries of the bundle is an image if and only if its name
    is in the list. *)
Theorem unrecognized_render_types_ignored (self : RendererModule)
    (viewpoint_camera : Camera) (pc : GaussianModel) (bg_color : list R)
    (scaling_modifier : R) (l : list string) :
  forward self viewpoint_camera pc bg_color scaling_modifier (Some l)
  = forward self viewpoint_camera pc bg_color scaling_modifier
      (Some (filter recognized l)) /\
  forall (h : handler) (b : Bundle),
    run h (forward self viewpoint_camera pc bg_color scaling_modifier (Some l))
    = Ok b ->
    (render b <> None <-> In "rgb"%string l) /\
    (inverse_depth b <> None <-> In "inverse_depth"%string l) /\
    (hard_inverse_depth b <> None <-> In "hard_inverse_depth"%string l).
Proof.
  split.
  - unfold forward. now rewrite !contains_filter_recognized.
  - intros h b Hrun.
    pose proof (holds_run _ _ _ h b
                  (forward_channels self viewpoint_camera pc bg_color
                     scaling_modifier l) Hrun) as H.
    cbv beta in H. unfold populated_iff in H.
    rewrite !contains_In in H. exact H.
Qed.

(** A request for "rgb", an unknown name and "hard_inverse_depth": the run
    returns a bundle with exactly those two images. *)
Lemma unrecognized_render_types_ignored_witness :
  exists b,
    run example_handler
      (forward example_module example_camera example_points [0; 0; 0] 1
         (Some ["rgb"; "normals"; "hard_inverse_depth"]%string))
    = Ok b /\
    (render b <> None <-> In "rgb"%string
                            ["rgb"; "normals"; "hard_inverse_depth"]%string) /\
    (inverse_depth b <> None
     <-> In "inverse_depth"%string
           ["rgb"; "normals"; "hard_inverse_depth"]%string) /\
    (hard_inverse_depth b <> None
     <-> In "hard_inverse_depth"%string
           ["rgb"; "normals"; "hard_inverse_depth"]%string).
Proof.
  eexists. split; [reflexivity |].
  apply (proj2 (unrecognized_render_types_ignored example_module
                  example_camera example_points [0; 0; 0] 1
                  ["rgb"; "normals"; "hard_inverse_depth"]%string)
           example_handler).
  reflexivity.
Defined.


(** ** Masked writes *)

Section Scatter.

Context {A : Type}.

Lemma scatter_length (buf : list A) (mask : list bool) (vals : list A) :
  List.length (scatter buf mask vals) = List.length buf.
Proof.
  revert mask vals. induction buf as [| x buf IH]; intros mask vals;
    [reflexivity |].
  destruct mask as [| [|] mask]; simpl; [reflexivity | |].
  - destruct vals; simpl; now rewrite IH.
  - now rewrite IH.
Qed.

Lemma scatter_Forall (S : A -> Prop) (buf : list A) (mask : list bool)
    (vals : list A) :
  Forall S buf -> Forall S vals -> Forall S (scatter buf mask vals).
Proof.
  intros Hbuf. revert mask vals.
  induction Hbuf as [| x buf Hx Hbuf IH]; intros mask vals Hvals;
    [constructor |].
  destruct mask as [| [|] mask]; simpl.
  - now constructor.
  - destruct Hvals as [| v vals Hv Hvals]; constructor; auto.
  - constructor; auto.
Qed.

Lemma scatter_untouched (buf : list A) (mask : list bool) (vals : list A)
    (i : nat) :
  nth_error mask i = Some false ->
  nth_error (scatter buf mask vals) i = nth_error buf i.
Proof.
  revert mask vals i. induction buf as [| x buf IH]; intros mask vals i Hi;
    [reflexivity |].
  destruct mask as [| b mask]; [destruct i; discriminate |].
  destruct i as [| i]; simpl in Hi.
  - injection Hi as ->. reflexivity.
  - destruct b; simpl; [destruct vals |]; simpl; now apply IH.
Qed.

Lemma select_scatter (buf : list A) (mask : list bool) (vals : list A) :
  List.length buf = List.length mask ->
  List.length vals = count_true mask ->
  select (scatter buf mask vals) mask = vals.
Proof.
  unfold count_true. revert mask vals.
  induction buf as [| x buf IH]; intros [| b mask] vals Hlen Hvals;
    simpl in *; try discriminate.
  - now destruct vals.
  - injection Hlen as Hlen. destruct b; simpl in *.
    + destruct vals as [| v vals]; [discriminate |]. simpl.
      f_equal. apply IH; [assumption | now injection Hvals].
    + now apply IH.
Qed.

Lemma masked_assign_spec (buf : list A) (mask : list bool) (vals out : list A) :
  masked_assign buf mask vals = Ok out ->
  List.length buf = List.length mask /\
  List.length out = List.length buf /\
  (forall S : A -> Prop, Forall S buf -> Forall S vals -> Forall S out) /\
  (forall i, nth_error mask i = Some false ->
             nth_error out i = nth_error buf i) /\
  (List.length vals = count_true mask -> select out mask = vals).
Proof.
  unfold masked_assign.
  destruct (Nat.eqb_spec (List.length buf) (List.length mask)) as [Hlen | _];
    [| discriminate].
  destruct (Nat.eqb_spec (List.length vals) (count_true mask)) as [Hv | Hv].
  - intros [= <-]. split; [assumption |]. split; [apply scatter_length |].
    split; [intros S; apply scatter_Forall |].
    split; [intros i; apply scatter_untouched |].
    intros _. now apply select_scatter.
  - destruct vals as [| v [| v' vals]]; try discriminate.
    intros [= <-]. split; [assumption |]. split; [apply scatter_length |].
    split.
    + intros S Hbuf Hvals. apply scatter_Forall; [assumption |].
      apply Forall_repeat. now inversion Hvals.
    + split; [intros i; apply scatter_untouched |].
      intros Hv'. contradiction.
Qed.

End Scatter.

Lemma clamp_unit (x : R) : in_range 0 1 (clamp 0 1 x).
Proof.
  unfold in_range, clamp. split.
  - apply Rmin_glb; [apply Rmax_r | lra].
  - apply Rmin_r.
Qed.

Lemma clamp3_unit (v : vec3) : vec3_in_range 0 1 (map3 (clamp 0 1) v).
Proof.
  destruct v as [[x y] z]. simpl. auto using clamp_unit.
Qed.

Lemma zero_unit : vec3_in_range 0 1 (0, 0, 0).
Proof. simpl. unfold in_range. lra. Qed.

Lemma nth_error_repeat_lt {A} (a : A) (n i : nat) :
  (i < n)%nat -> nth_error (repeat a n) i = Some a.
Proof.
  revert i. induction n as [| n IH]; intros i Hi; [lia |].
  destruct i; simpl; [reflexivity | apply IH; lia].
Qed.

(** The composition step of the "rgb" channel: the zero buffer with the
    clamped sums written under the mask. *)
Lemma composition_ok (n : nat) (mask : list bool) (sum rgbs : list vec3) :
  masked_assign (repeat (0, 0, 0) n) mask (map (map3 (clamp 0 1)) sum)
  = Ok rgbs ->
  shaded_ok n mask rgbs.
Proof.
  intros H. apply masked_assign_spec in H.
  destruct H as (Hmask & Hlen & Hall & Hzero & _).
  rewrite repeat_length in Hlen, Hmask.
  unfold shaded_ok. split; [assumption |]. split.
  - apply Hall.
    + apply Forall_repeat, zero_unit.
    + apply Forall_map_iff, Forall_forall. intros v _. apply clamp3_unit.
  - intros i Hi. etransitivity; [exact (Hzero i Hi) |].
    apply nth_error_repeat_lt. rewrite Hmask. apply nth_error_Some. congruence.
Qed.

(** ** The rasterization calls of [forward] *)

Lemma holds_call_weaken (P P' : forall X, call X -> Prop) {A} (Q : A -> Prop)
    (p : prog A) :
  (forall X (c : call X), P X c -> P' X c) -> holds P Q p -> holds P' Q p.
Proof.
  intros HP Hp. induction Hp; constructor; auto.
Qed.

Section Rasterize.

Variable P : RasterArgs -> Prop.

Lemma holds_rasterize (self : RendererModule) (args : RasterArgs) :
  P args -> holds (on_rasterize P) (fun _ => True) (rasterize self args).
Proof.
  intros H. unfold rasterize. destruct (renderer self); [| constructor].
  apply holds_trigger; [exact H | trivial].
Qed.

Lemma holds_preprocess (self : RendererModule) (pc : GaussianModel)
    (cam : Camera) (scaling_modifier : R) :
  holds (on_rasterize P)
    (fun '(pr, os) => os = source_opacities self pc)
    (preprocess self pc cam scaling_modifier).
Proof.
  unfold preprocess, source_opacities.
  destruct (class self).
  - apply (holds_Vis _ _ (GSPlatRenderer_project _ _ _ _ _ _)
             (fun pr => Ret (pr, get_opacities pc))); simpl; [trivial |].
    intros pr. now constructor.
  - destruct (get_3d_filtered_scales_and_opacities pc) as [os scales].
    apply (holds_Vis _ _ (GSPlatRenderer_project _ _ _ _ _ _)
             (fun pr => Ret (pr, os))); simpl; [trivial |].
    intros pr. now constructor.
Qed.

Lemma shade_rgb_ok (self : RendererModule) (cam : Camera) (pc : GaussianModel)
    (pr : ProjectionResults) (mask : list bool) :
  holds (on_rasterize P) (shaded_ok (List.length (radii pr)) mask)
    (shade_rgb self cam pc pr mask).
Proof.
  unfold shade_rgb.
  eapply holds_bind; [apply holds_lift with (Q := fun _ => True); trivial |].
  intros visible_xyz _.
  eapply holds_bind; [apply holds_lift with (Q := fun _ => True); trivial |].
  intros coeffs _.
  eapply holds_bind;
    [apply holds_trigger with (Q := fun _ => True); simpl; trivial |].
  intros sh _.
  apply holds_bind with (Q := fun _ => True).
  { unfold call_model. destruct (model self); [| constructor].
    eapply holds_bind;
      [apply holds_lift with (Q := fun _ => True); trivial |].
    intros features _. apply holds_trigger; simpl; trivial. }
  intros out _.
  eapply holds_bind; [apply holds_lift with (Q := fun _ => True); trivial |].
  intros sum _.
  apply holds_lift. intros rgbs H. now apply composition_ok with sum.
Qed.

End Rasterize.

(** Every rasterization call of [forward] is one of the three calls of
    [forward_raster_call]. *)
Lemma forward_raster_calls (self : RendererModule) (cam : Camera)
    (pc : GaussianModel) (bg_color : list R) (scaling_modifier : R)
    (l : list string) :
  every_call (on_rasterize (forward_raster_call self cam pc bg_color l))
    (forward self cam pc bg_color scaling_modifier (Some l)).
Proof.
  unfold every_call, forward.
  eapply holds_bind; [apply holds_preprocess |].
  intros [pr os0] ->.
  apply holds_bind with (Q := compensated self pc pr).
  { unfold compensated. destruct (anti_aliased self).
    - apply holds_lift. auto.
    - now constructor. }
  intros os Hos.
  apply holds_bind with (Q := fun _ => True).
  { destruct (contains l "rgb") eqn:Hrgb; [| now constructor].
    eapply holds_bind; [apply shade_rgb_ok |].
    intros rgbs Hrgbs.
    eapply holds_bind; [| intros im _; now constructor].
    apply holds_rasterize. now apply rgb_call. }
  intros rgb _.
  apply holds_bind with (Q := fun _ => True).
  { destruct (contains l "inverse_depth") eqn:Hd; [| now constructor].
    eapply holds_bind; [| intros im _; now constructor].
    apply holds_rasterize. now apply inverse_depth_raster_call. }
  intros idepth _.
  apply holds_bind with (Q := fun _ => True).
  { destruct (contains l "hard_inverse_depth") eqn:Hd; [| now constructor].
    eapply holds_bind; [| intros im _; now constructor].
    apply holds_rasterize.
    now apply (hard_inverse_depth_raster_call self cam pc bg_color l pr os). }
  intros hdepth _. now constructor.
Qed.

(** ** The colours of the "rgb" channel *)

Lemma vec3_row_unit (v : vec3) :
  vec3_in_range 0 1 v ->
  List.length (vec3_to_row v) = 3%nat /\ Forall (in_range 0 1) (vec3_to_row v).
Proof.
  destruct v as [[x y] z]. simpl. intros (Hx & Hy & Hz).
  split; [reflexivity | auto using Forall_cons, Forall_nil].
Qed.

Lemma rgb_call_colors (pr : ProjectionResults) (cam : Camera)
    (rgbs : list vec3) (bg_color os : list R) :
  shaded_ok (List.length (radii pr)) (visibility pr) rgbs ->
  rgb_colors_ok (mkRasterArgs pr cam (map vec3_to_row rgbs) bg_color os false).
Proof.
  intros (Hlen & Hrange & Hzero). unfold rgb_colors_ok. simpl.
  split; [now rewrite length_map |]. split.
  - apply Forall_map_iff. eapply Forall_impl; [| exact Hrange].
    intros v. apply vec3_row_unit.
  - intros i r Hr Hneg. rewrite nth_error_map, (Hzero i); [reflexivity |].
    unfold visibility. rewrite nth_error_map, Hr. simpl.
    f_equal. apply Z.ltb_ge. assumption.
Qed.

Lemma run_lift {A} (h : handler) (r : result A) : run h (lift r) = r.
Proof. now destruct r. Qed.

Lemma run_trigger {X} (h : handler) (c : call X) : run h (trigger c) = h X c.
Proof. unfold trigger. simpl. now destruct (h X c). Qed.

Lemma map_zip_with {A B C D} (g : C -> D) (f : A -> B -> C) (xs : list A)
    (ys : list B) :
  map g (zip_with f xs ys) = zip_with (fun a b => g (f a b)) xs ys.
Proof.
  revert ys. induction xs as [| x xs IH]; intros [| y ys]; simpl;
    try reflexivity.
  now rewrite IH.
Qed.

Lemma broadcast_same_length {A B C} (f : A -> B -> C) (xs : list A)
    (ys : list B) :
  List.length xs = List.length ys -> broadcast f xs ys = Ok (zip_with f xs ys).
Proof.
  intros H. unfold broadcast. now rewrite (proj2 (Nat.eqb_eq _ _) H).
Qed.

Lemma masked_assign_ok {A} (buf : list A) (mask : list bool) (vals : list A) :
  List.length buf = List.length mask ->
  List.length vals = count_true mask ->
  masked_assign buf mask vals = Ok (scatter buf mask vals).
Proof.
  intros Hb Hv. unfold masked_assign.
  now rewrite (proj2 (Nat.eqb_eq _ _) Hb), (proj2 (Nat.eqb_eq _ _) Hv).
Qed.



(** ** Anti-aliasing *)

Lemma run_preprocess (h : handler) (self : RendererModule)
    (pc : GaussianModel) (cam : Camera) (scaling_modifier : R) :
  run h (preprocess self pc cam scaling_modifier)
  = rbind (h _ (project_call self pc cam scaling_modifier))
      (fun pr => Ok (pr, source_opacities self pc)).
Proof.
  unfold preprocess, project_call, source_opacities.
  destruct (class self).
  - simpl. now destruct (h _ _).
  - destruct (get_3d_filtered_scales_and_opacities pc) as [os scales].
    simpl. now destruct (h _ _).
Qed.


Lemma trace_bind_ok {A B} (h : handler) (p : prog A) (f : A -> prog B)
    (a : A) :
  run h p = Ok a -> trace h (bind p f) = trace h p ++ trace h (f a).
Proof.
  induction p as [a' | e' | X c k IH]; simpl; intros H.
  - now injection H as ->.
  - discriminate.
  - destruct (h X c) as [x | e'']; [| discriminate].
    f_equal. now apply IH.
Qed.

Lemma trace_preprocess (h : handler) (self : RendererModule)
    (pc : GaussianModel) (cam : Camera) (scaling_modifier : R) :
  trace h (preprocess self pc cam scaling_modifier)
  = [Called (project_call self pc cam scaling_modifier)].
Proof.
  unfold preprocess, project_call.
  destruct (class self).
  - simpl. now destruct (h _ _).
  - destruct (get_3d_filtered_scales_and_opacities pc) as [os scales].
    simpl. now destruct (h _ _).
Qed.



(** ** The "hard" inverse-depth channel *)

Lemma hard_opacities_ones (os : list R) :
  hard_opacities os = repeat 1 (List.length os).
Proof.
  unfold hard_opacities, detach.
  induction os as [| o os IH]; simpl; [reflexivity |].
  rewrite IH. f_equal. ring.
Qed.

Lemma run_rasterize (h : handler) (self : RendererModule) (args : RasterArgs) :
  run h (rasterize self args)
  = if renderer self then h _ (rasterize_simplified args)
    else Raise AttributeError.
Proof.
  unfold rasterize. destruct (renderer self); [apply run_trigger | reflexivity].
Qed.

(** The anti-aliasing step of [forward], as a result. *)
Lemma run_compensate (h : handler) (self : RendererModule)
    (os : list R) (pr : ProjectionResults) :
  run h (if anti_aliased self
         then lift (broadcast Rmult os (comp pr))
         else Ret os)
  = if anti_aliased self then broadcast Rmult os (comp pr) else Ok os.
Proof. destruct (anti_aliased self); [apply run_lift | reflexivity]. Qed.


(** ** Setting up and loading *)

Lemma max_input_id_fold (values : list (Z * R)) (acc : Z) :
  let m := fold_left (fun max_input_id i =>
                        if (fst i >? max_input_id)%Z then fst i
                        else max_input_id) values acc in
  (acc <= m)%Z /\
  (forall v, In v values -> (fst v <= m)%Z) /\
  (m = acc \/ In m (map fst values)).
Proof.
  revert acc. induction values as [| v values IH]; intros acc; simpl.
  - repeat split; [lia | contradiction | now left].
  - specialize (IH (if (fst v >? acc)%Z then fst v else acc)).
    destruct IH as (Hle & Hall & Hin).
    destruct (Z.gtb_spec (fst v) acc) as [Hgt | Hngt].
    + repeat split.
      * lia.
      * intros v' [<- | Hv']; [assumption | now apply Hall].
      * destruct Hin as [-> | Hin]; right; [now left | now right].
    + repeat split.
      * assumption.
      * intros v' [<- | Hv']; [lia | now apply Hall].
      * destruct Hin as [-> | Hin]; [now left | right; now right].
Qed.

Lemma _setup_model_ok (init : Initializer) (self : RendererModule) :
  valid_config (model_config self) ->
  exists m,
    _setup_model init self = (set_model self m, Ok tt) /\
    config m = model_config self /\
    List.length (embedding m) = Z.to_nat (n_appearances (model_config self)).
Proof.
  intros Hvalid.
  destruct (Model_setup_ok init _ Hvalid) as (table & Hlen & _ & Hsetup).
  eexists. unfold _setup_model. rewrite Hsetup.
  split; [reflexivity |]. split; [reflexivity | exact Hlen].
Qed.

Lemma _setup_model_keeps_config (init : Initializer) (self : RendererModule) :
  model_config (fst (_setup_model init self)) = model_config self.
Proof.
  unfold _setup_model. now destruct (Model_setup init (model_config self)).
Qed.

Lemma setup_keeps_configured (init : Initializer) (self : RendererModule)
    (stage : string) (lightning_module : option LightningModule) :
  (0 < n_appearances (model_config self))%Z ->
  model_config (fst (setup init self stage lightning_module))
  = model_config self.
Proof.
  intros Hpos. unfold setup.
  destruct lightning_module as [lm |]; [| reflexivity].
  destruct (Z.leb_spec (n_appearances (model_config self)) 0); [lia |].
  apply _setup_model_keeps_config.
Qed.

(** The count [setup] infers is one more than the largest observed id, and 1
    when no observed id is non-negative. *)
Lemma inferred_count (values : list (Z * R)) :
  let n := (max_input_id_of values + 1)%Z in
  (1 <= n)%Z /\
  (forall id, In id (map fst values) -> (id < n)%Z) /\
  ((exists id, In id (map fst values) /\ (0 <= id)%Z) ->
   In (n - 1)%Z (map fst values)) /\
  ((forall id, In id (map fst values) -> (id < 0)%Z) -> n = 1%Z).
Proof.
  unfold max_input_id_of.
  destruct (max_input_id_fold values 0) as (Hle & Hall & Hin).
  cbv zeta in *.
  set (m := fold_left _ values 0%Z) in *.
  assert (Hall' : forall id, In id (map fst values) -> (id <= m)%Z).
  { intros id Hid. apply in_map_iff in Hid. destruct Hid as (v & <- & Hv).
    now apply Hall. }
  split; [lia |]. split; [intros id Hid; specialize (Hall' id Hid); lia |].
  split.
  - intros (id & Hid & Hnonneg). replace (m + 1 - 1)%Z with m by lia.
    destruct Hin as [Hm | Hin]; [| assumption].
    specialize (Hall' id Hid). replace m with id by lia. assumption.
  - intros Hneg. destruct Hin as [Hm | Hin]; [lia |].
    specialize (Hneg m Hin). lia.
Qed.

Lemma observed_ids_values (lm : LightningModule) :
  observed_ids lm
  = map fst (match appearance_group_ids lm with
             | Some d => map snd d
             | None => []
             end).
Proof.
  unfold observed_ids. destruct (appearance_group_ids lm) as [d |];
    [| reflexivity].
  now rewrite map_map.
Qed.

(** C7.  When [n_appearances] is not configured ([<= 0]) and [setup] runs with
    a lightning module, it becomes one more than the largest observed
    appearance id (1 when none is observed), the model is built with an
    embedding table of exactly that many rows, and no later [setup] changes
    it. *)
Theorem setup_infers_n_appearances (init : Initializer)
    (self : RendererModule) (stage : string) (lm : LightningModule) :
  (n_appearances (model_config self) <= 0)%Z ->
  (0 <= n_appearance_embedding_dims (model_config self))%Z ->
  Forall (fun i => 0 <= i < n_layers (model_config self))%Z
    (skip_layers (model_config self)) ->
  exists self' m n,
    setup init self stage (Some lm) = (self', Ok tt) /\
    model_config self' = set_n_appearances (model_config self) n /\
    (1 <= n)%Z /\
    (forall id, In id (observed_ids lm) -> (id < n)%Z) /\
    ((exists id, In id (observed_ids lm) /\ (0 <= id)%Z) ->
     In (n - 1)%Z (observed_ids lm)) /\
    ((forall id, In id (observed_ids lm) -> (id < 0)%Z) -> n = 1%Z) /\
    model self' = Some m /\
    List.length (embedding m) = Z.to_nat n /\
    forall init' stage' lightning_module',
      n_appearances
        (model_config (fst (setup init' self' stage' lightning_module')))
      = n.
Proof.
  intros Hunset Hdims Hskips.
  set (values := match appearance_group_ids lm with
                 | Some d => map snd d
                 | None => []
                 end).
  set (n := (max_input_id_of values + 1)%Z).
  destruct (inferred_count values) as (Hone & Hbound & Hmax & Hnone).
  fold n in Hone, Hbound, Hmax, Hnone.
  set (self1 := set_model_config self
                  (set_n_appearances (model_config self) n)).
  assert (Hvalid : valid_config (model_config self1)).
  { unfold valid_config. simpl. repeat split; [lia | assumption | assumption]. }
  destruct (_setup_model_ok init self1 Hvalid) as (m & Hsetup & Hconfig & Hrows).
  exists (set_model self1 m), m, n.
  rewrite observed_ids_values. fold values.
  split.
  { unfold setup. rewrite (proj2 (Z.leb_le _ _) Hunset).
    rewrite <- Hsetup. unfold self1, n, values, max_input_id_of.
    destruct (appearance_group_ids lm); reflexivity. }
  split; [reflexivity |].
  repeat (split; [assumption |]).
  split; [reflexivity |]. split; [exact Hrows |].
  intros init' stage' lm'.
  rewrite setup_keeps_configured; simpl; [reflexivity | lia].
Qed.

(** A fresh module and three groups with ids 0, 2 and 1: three appearances. *)
Lemma setup_infers_n_appearances_witness :
  exists self' m,
    setup example_initializer fresh_module "fit" (Some example_lightning_module)
    = (self', Ok tt) /\
    n_appearances (model_config self') = 3%Z /\
    model self' = Some m /\
    List.length (embedding m) = 3%nat.
Proof.
  destruct (setup_infers_n_appearances example_initializer fresh_module "fit"
              example_lightning_module)
    as (self' & m & n & Hsetup & Hconfig & _ & Hbound & Hmax & _ & Hmodel
        & Hrows & _).
  - simpl. lia.
  - simpl. lia.
  - constructor.
  - assert (Hn : n = 3%Z).
    { assert (H2 : (2 < n)%Z) by (apply Hbound; simpl; auto).
      assert (Hin : In (n - 1)%Z (observed_ids example_lightning_module))
        by (apply Hmax; exists 0%Z; simpl; split; [auto | lia]).
      simpl in Hin. lia. }
    subst n. exists self', m. rewrite Hconfig. auto.
Defined.

Lemma shape0_nonneg (t : tensor) : (0 <= shape0 t)%Z.
Proof. destruct t; simpl; lia. Qed.

(** C8.  [load_state_dict] overwrites [n_appearances] with the row count of
    the persisted embedding weight, whatever it was, rebuilds the model with
    that many rows, and only then delegates to the framework load, on the
    module so rebuilt; a framework load that keeps shapes leaves the table at
    the row count of the checkpoint. *)
Theorem load_state_dict_resizes (init : Initializer)
    (super_load : RendererModule -> StateDict -> bool -> method IncompatibleKeys)
    (self : RendererModule) (state_dict : StateDict) (strict : bool)
    (w : tensor) :
  getitem state_dict "model.embedding.weight" = Ok w ->
  (0 <= n_appearance_embedding_dims (model_config self))%Z ->
  Forall (fun i => 0 <= i < n_layers (model_config self))%Z
    (skip_layers (model_config self)) ->
  exists self1 m,
    load_state_dict init super_load self state_dict strict
    = super_load self1 state_dict strict /\
    model_config self1 = set_n_appearances (model_config self) (shape0 w) /\
    model self1 = Some m /\
    Z.of_nat (List.length (embedding m)) = shape0 w /\
    (keeps_shapes super_load ->
     exists m',
       model (fst (load_state_dict init super_load self state_dict strict))
       = Some m' /\
       Z.of_nat (List.length (embedding m')) = shape0 w /\
       n_appearances
         (model_config
            (fst (load_state_dict init super_load self state_dict strict)))
       = shape0 w).
Proof.
  intros Hkey Hdims Hskips.
  pose proof (shape0_nonneg w) as Hrows.
  set (self0 := set_model_config self
                  (set_n_appearances (model_config self) (shape0 w))).
  assert (Hvalid : valid_config (model_config self0)).
  { unfold valid_config. simpl. repeat split; assumption. }
  destruct (_setup_model_ok init self0 Hvalid) as (m & Hsetup & _ & Hlen).
  simpl in Hlen.
  assert (Hload : load_state_dict init super_load self state_dict strict
                  = super_load (set_model self0 m) state_dict strict).
  { unfold load_state_dict. rewrite Hkey. fold self0. now rewrite Hsetup. }
  exists (set_model self0 m), m.
  split; [exact Hload |]. split; [reflexivity |]. split; [reflexivity |].
  split; [lia |].
  intros Hkeeps. rewrite Hload.
  destruct (super_load (set_model self0 m) state_dict strict) as [self2 r]
    eqn:Hsuper.
  destruct (Hkeeps _ _ _ _ _ m Hsuper eq_refl) as (Hconfig & m' & Hm' & Hlen').
  exists m'. simpl. split; [assumption |]. split.
  - rewrite Hlen'. lia.
  - rewrite Hconfig. reflexivity.
Qed.

Lemma example_super_load_keeps_shapes : keeps_shapes example_super_load.
Proof.
  intros s sd strict s' r m H Hm. unfold example_super_load in H.
  rewrite Hm in H.
  destruct (getitem sd "model.embedding.weight") as [[d | d] | e].
  - injection H as <- <-. split; [reflexivity |]. now exists m.
  - destruct (Nat.eqb_spec (List.length d) (List.length (embedding m)))
      as [Hlen | _].
    + injection H as <- <-. split; [reflexivity |].
      eexists. split; [reflexivity | exact Hlen].
    + injection H as <- <-. split; [reflexivity |]. now exists m.
  - injection H as <- <-. split; [reflexivity |]. now exists m.
Qed.

(** A fresh module ([n_appearances = -1]) loading a checkpoint of three
    rows. *)
Lemma load_state_dict_resizes_witness :
  exists m',
    model (fst (load_state_dict example_initializer example_super_load
                  fresh_module example_state_dict true)) = Some m' /\
    Z.of_nat (List.length (embedding m')) = 3%Z /\
    n_appearances
      (model_config
         (fst (load_state_dict example_initializer example_super_load
                 fresh_module example_state_dict true))) = 3%Z.
Proof.
  destruct (load_state_dict_resizes example_initializer example_super_load
              fresh_module example_state_dict true
              (Tensor2 [[1; 0; 0; 0]; [0; 1; 0; 0]; [0; 0; 1; 0]]))
    as (self1 & m & _ & _ & _ & _ & Hafter).
  - reflexivity.
  - simpl. lia.
  - constructor.
  - exact (Hafter example_super_load_keeps_shapes).
Defined.


(** ** Complete runs of [forward] *)

Lemma masked_select_inv {A} (xs : list A) (mask : list bool) (sel : list A) :
  masked_select xs mask = Ok sel ->
  List.length xs = List.length mask /\ sel = select xs mask.
Proof.
  unfold masked_select.
  destruct (Nat.eqb_spec (List.length xs) (List.length mask)) as [H | _];
    intros E; [injection E as <-; auto | discriminate].
Qed.

Lemma masked_select_ok {A} (xs : list A) (mask : list bool) :
  List.length xs = List.length mask ->
  masked_select xs mask = Ok (select xs mask).
Proof.
  intros H. unfold masked_select. now rewrite (proj2 (Nat.eqb_eq _ _) H).
Qed.

Lemma visibility_length (pr : ProjectionResults) :
  List.length (visibility pr) = List.length (radii pr).
Proof. unfold visibility. apply length_map. Qed.

Lemma trace_lift {A} (h : handler) (r : result A) : trace h (lift r) = [].
Proof. now destruct r. Qed.

Lemma compensated_iff (self : RendererModule) (pc : GaussianModel)
    (pr : ProjectionResults) (os : list R) :
  compensated self pc pr os <->
  (if anti_aliased self
   then broadcast Rmult (source_opacities self pc) (comp pr)
   else Ok (source_opacities self pc)) = Ok os.
Proof.
  unfold compensated. destruct (anti_aliased self); [tauto |].
  split; [intros ->; reflexivity | intros H; now injection H].
Qed.

(** [forward] is the projection, the anti-aliasing step and the three
    channel steps, in that order. *)
Lemma forward_channels_eq (self : RendererModule) (cam : Camera)
    (pc : GaussianModel) (bg_color : list R) (scaling_modifier : R)
    (l : list string) :
  forward self cam pc bg_color scaling_modifier (Some l)
  = ('(pr, os0) <- preprocess self pc cam scaling_modifier ;;
     os <- (if anti_aliased self
            then lift (broadcast Rmult os0 (comp pr))
            else Ret os0) ;;
     rgb <- rgb_channel self cam pc bg_color pr os (contains l "rgb") ;;
     idepth <- depth_channel self (inverse_depth_args pr cam os)
                 (contains l "inverse_depth") ;;
     hdepth <- depth_channel self
                 (inverse_depth_args pr cam (hard_opacities os))
                 (contains l "hard_inverse_depth") ;;
     Ret (forward_bundle cam pr rgb idepth hdepth))%prog.
Proof. reflexivity. Qed.

(** The colour step under a handler: it returns exactly when the point
    cloud matches the projection, the model is set, the two collaborators
    answer and the composition succeeds; it then makes those two calls. *)
Lemma run_shade_rgb (h : handler) (self : RendererModule) (cam : Camera)
    (pc : GaussianModel) (pr : ProjectionResults) (sh out rgbs : list vec3) :
  points_match pc pr ->
  model self <> None ->
  h _ (sh_call cam pc pr) = Ok sh ->
  h _ (shading_call cam pc pr) = Ok out ->
  compose_rgbs pr sh out = Ok rgbs ->
  run h (shade_rgb self cam pc pr (visibility pr)) = Ok rgbs /\
  trace h (shade_rgb self cam pc pr (visibility pr))
  = [Called (sh_call cam pc pr); Called (shading_call cam pc pr)].
Proof.
  intros (H1 & H2 & H3) Hm Hsh Hout Hc.
  rewrite <- (visibility_length pr) in H1, H2, H3.
  unfold shade_rgb.
  rewrite (masked_select_ok _ _ H1), (masked_select_ok _ _ H2),
    (masked_select_ok _ _ H3).
  unfold call_model. destruct (model self) as [m |]; [| contradiction].
  cbn [lift bind trigger run trace].
  change (spherical_harmonics _ _ _) with (sh_call cam pc pr).
  rewrite Hsh.
  change (model_call _ _ _) with (shading_call cam pc pr).
  rewrite Hout.
  unfold compose_rgbs in Hc.
  destruct (broadcast (zip3 Rplus) (map (map3 (fun x => x + / 2)) sh)
              (rescale out)) as [sum | e]; [| discriminate].
  cbn [rbind] in Hc. cbn [lift bind]. rewrite Hc. split; reflexivity.
Qed.

Lemma run_shade_rgb_inv (h : handler) (self : RendererModule) (cam : Camera)
    (pc : GaussianModel) (pr : ProjectionResults) (rgbs : list vec3) :
  run h (shade_rgb self cam pc pr (visibility pr)) = Ok rgbs ->
  points_match pc pr /\ model self <> None /\
  exists sh out,
    h _ (sh_call cam pc pr) = Ok sh /\
    h _ (shading_call cam pc pr) = Ok out /\
    compose_rgbs pr sh out = Ok rgbs.
Proof.
  unfold shade_rgb. intros Hrun.
  rewrite run_bind, run_lift in Hrun.
  destruct (masked_select (get_xyz pc) (visibility pr)) as [xyz | e] eqn:H1;
    [cbn [rbind] in Hrun | discriminate].
  apply masked_select_inv in H1 as [H1 ->].
  rewrite run_bind, run_lift in Hrun.
  destruct (masked_select (get_features pc) (visibility pr))
    as [coeffs | e] eqn:H2; [cbn [rbind] in Hrun | discriminate].
  apply masked_select_inv in H2 as [H2 ->].
  rewrite run_bind, run_trigger in Hrun.
  change (spherical_harmonics _ _ _) with (sh_call cam pc pr) in Hrun.
  destruct (h _ (sh_call cam pc pr)) as [sh | e] eqn:Hsh;
    [cbn [rbind] in Hrun | discriminate].
  rewrite run_bind in Hrun. unfold call_model in Hrun.
  destruct (model self) as [m |] eqn:Hm; [| discriminate].
  rewrite run_bind, run_lift in Hrun.
  destruct (masked_select (get_appearance_features pc) (visibility pr))
    as [features | e] eqn:H3; [cbn [rbind] in Hrun | discriminate].
  apply masked_select_inv in H3 as [H3 ->].
  rewrite run_trigger in Hrun.
  change (model_call _ _ _) with (shading_call cam pc pr) in Hrun.
  destruct (h _ (shading_call cam pc pr)) as [out | e] eqn:Hout;
    [cbn [rbind] in Hrun | discriminate].
  rewrite run_bind, run_lift in Hrun.
  rewrite (visibility_length pr) in H1, H2, H3.
  split; [now repeat split |]. split; [discriminate |].
  exists sh, out. split; [reflexivity |]. split; [reflexivity |].
  unfold compose_rgbs.
  destruct (broadcast (zip3 Rplus) (map (map3 (fun x => x + / 2)) sh)
              (rescale out)) as [sum | e]; [| discriminate].
  cbn [rbind] in *. now rewrite run_lift in Hrun.
Qed.

Lemma rgb_channel_run (h : handler) (self : RendererModule) (cam : Camera)
    (pc : GaussianModel) (bg_color : list R) (pr : ProjectionResults)
    (os : list R) (requested : bool) (entry : option Image)
    (calls : list any_call) :
  rgb_outcome h self cam pc bg_color pr os requested entry calls ->
  run h (rgb_channel self cam pc bg_color pr os requested) = Ok entry /\
  trace h (rgb_channel self cam pc bg_color pr os requested) = calls.
Proof.
  unfold rgb_outcome, rgb_channel. destruct requested.
  - intros (sh & out & rgbs & im & Hpm & Hm & Hr & Hsh & Hout & Hc & Him
            & -> & ->).
    destruct (run_shade_rgb h self cam pc pr sh out rgbs Hpm Hm Hsh Hout Hc)
      as [Hrun Htr].
    split.
    + rewrite run_bind, Hrun. cbn [rbind].
      rewrite run_bind, run_rasterize, Hr, Him. reflexivity.
    + rewrite (trace_bind_ok _ _ _ _ Hrun), Htr.
      unfold rasterize. rewrite Hr. cbn [trigger bind trace app].
      now rewrite Him.
  - intros [-> ->]. split; reflexivity.
Qed.

Lemma rgb_channel_inv (h : handler) (self : RendererModule) (cam : Camera)
    (pc : GaussianModel) (bg_color : list R) (pr : ProjectionResults)
    (os : list R) (requested : bool) (entry : option Image) :
  run h (rgb_channel self cam pc bg_color pr os requested) = Ok entry ->
  exists calls,
    rgb_outcome h self cam pc bg_color pr os requested entry calls.
Proof.
  unfold rgb_outcome, rgb_channel. destruct requested.
  - intros Hrun. rewrite run_bind in Hrun.
    destruct (run h (shade_rgb self cam pc pr (visibility pr)))
      as [rgbs | e] eqn:Hshade; [cbn [rbind] in Hrun | discriminate].
    apply run_shade_rgb_inv in Hshade
      as (Hpm & Hm & sh & out & Hsh & Hout & Hc).
    rewrite run_bind, run_rasterize in Hrun.
    destruct (renderer self) eqn:Hr; [| discriminate].
    destruct (h _ (rasterize_simplified (rgb_args pr cam rgbs bg_color os)))
      as [im | e] eqn:Him; [cbn [rbind run] in Hrun | discriminate].
    injection Hrun as <-.
    eexists. exists sh, out, rgbs, im.
    repeat (split; [first [assumption | reflexivity] |]). reflexivity.
  - intros Hrun. injection Hrun as <-. exists []. split; reflexivity.
Qed.

Lemma depth_channel_run (h : handler) (self : RendererModule)
    (args : RasterArgs) (requested : bool) (entry : option Image)
    (calls : list any_call) :
  depth_outcome h self args requested entry calls ->
  run h (depth_channel self args requested) = Ok entry /\
  trace h (depth_channel self args requested) = calls.
Proof.
  unfold depth_outcome, depth_channel. destruct requested.
  - intros (im & Hr & Him & -> & ->).
    unfold rasterize. rewrite Hr. cbn [trigger bind run trace].
    rewrite Him. split; reflexivity.
  - intros [-> ->]. split; reflexivity.
Qed.

Lemma depth_channel_inv (h : handler) (self : RendererModule)
    (args : RasterArgs) (requested : bool) (entry : option Image) :
  run h (depth_channel self args requested) = Ok entry ->
  exists calls, depth_outcome h self args requested entry calls.
Proof.
  unfold depth_outcome, depth_channel. destruct requested.
  - intros Hrun. rewrite run_bind, run_rasterize in Hrun.
    destruct (renderer self) eqn:Hr; [| discriminate].
    destruct (h _ (rasterize_simplified args)) as [im | e] eqn:Him;
      [cbn [rbind run] in Hrun | discriminate].
    injection Hrun as <-.
    eexists. exists im. repeat split; reflexivity.
  - intros Hrun. injection Hrun as <-. exists []. split; reflexivity.
Qed.

(** A run of [forward] that fits [forward_returns] returns the bundle and
    makes the calls listed there. *)
Lemma forward_run (h : handler) (self : RendererModule) (cam : Camera)
    (pc : GaussianModel) (bg_color : list R) (scaling_modifier : R)
    (l : list string) (b : Bundle) (calls : list any_call) :
  forward_returns h self cam pc bg_color scaling_modifier l b calls ->
  run h (forward self cam pc bg_color scaling_modifier (Some l)) = Ok b /\
  trace h (forward self cam pc bg_color scaling_modifier (Some l)) = calls.
Proof.
  intros (pr & os & rgb & idepth & hdepth & c1 & c2 & c3
          & Hpr & Hos & Hrgb & Hid & Hhd & -> & ->).
  apply compensated_iff in Hos.
  apply rgb_channel_run in Hrgb as [Hrgb Hc1].
  apply depth_channel_run in Hid as [Hid Hc2].
  apply depth_channel_run in Hhd as [Hhd Hc3].
  assert (Hpre : run h (preprocess self pc cam scaling_modifier)
                 = Ok (pr, source_opacities self pc))
    by (now rewrite run_preprocess, Hpr).
  assert (Hcomp : run h (if anti_aliased self
                         then lift (broadcast Rmult (source_opacities self pc)
                                      (comp pr))
                         else Ret (source_opacities self pc)) = Ok os)
    by (now rewrite run_compensate).
  rewrite forward_channels_eq. split.
  - rewrite run_bind, Hpre. cbn [rbind].
    rewrite run_bind, Hcomp. cbn [rbind].
    rewrite run_bind, Hrgb. cbn [rbind].
    rewrite run_bind, Hid. cbn [rbind].
    rewrite run_bind, Hhd. reflexivity.
  - rewrite (trace_bind_ok _ _ _ _ Hpre), trace_preprocess.
    rewrite (trace_bind_ok _ _ _ _ Hcomp).
    rewrite (trace_bind_ok _ _ _ _ Hrgb), Hc1.
    rewrite (trace_bind_ok _ _ _ _ Hid), Hc2.
    rewrite (trace_bind_ok _ _ _ _ Hhd), Hc3.
    destruct (anti_aliased self); [rewrite trace_lift |];
      cbn [trace app]; now rewrite app_nil_r.
Qed.

(** Conversely, a run of [forward] that returns is such a run. *)
Lemma forward_inv (h : handler) (self : RendererModule) (cam : Camera)
    (pc : GaussianModel) (bg_color : list R) (scaling_modifier : R)
    (l : list string) (b : Bundle) :
  run h (forward self cam pc bg_color scaling_modifier (Some l)) = Ok b ->
  forward_returns h self cam pc bg_color scaling_modifier l b
    (trace h (forward self cam pc bg_color scaling_modifier (Some l))).
Proof.
  intros Hrun.
  assert (H : exists calls,
            forward_returns h self cam pc bg_color scaling_modifier l b calls).
  { rewrite forward_channels_eq in Hrun.
    rewrite run_bind, run_preprocess in Hrun.
    destruct (h _ (project_call self pc cam scaling_modifier)) as [pr | e]
      eqn:Hpr; [cbn [rbind] in Hrun | discriminate].
    rewrite run_bind, run_compensate in Hrun.
    destruct (if anti_aliased self
              then broadcast Rmult (source_opacities self pc) (comp pr)
              else Ok (source_opacities self pc)) as [os | e] eqn:Hos;
      [cbn [rbind] in Hrun | discriminate].
    apply compensated_iff in Hos.
    rewrite run_bind in Hrun.
    destruct (run h (rgb_channel self cam pc bg_color pr os
                       (contains l "rgb"))) as [rgb | e] eqn:Hrgb;
      [cbn [rbind] in Hrun | discriminate].
    apply rgb_channel_inv in Hrgb as [c1 Hrgb].
    rewrite run_bind in Hrun.
    destruct (run h (depth_channel self (inverse_depth_args pr cam os)
                       (contains l "inverse_depth"))) as [idepth | e] eqn:Hid;
      [cbn [rbind] in Hrun | discriminate].
    apply depth_channel_inv in Hid as [c2 Hid].
    rewrite run_bind in Hrun.
    destruct (run h (depth_channel self
                       (inverse_depth_args pr cam (hard_opacities os))
                       (contains l "hard_inverse_depth")))
      as [hdepth | e] eqn:Hhd; [cbn [rbind run] in Hrun | discriminate].
    apply depth_channel_inv in Hhd as [c3 Hhd].
    injection Hrun as <-.
    eexists. exists pr, os, rgb, idepth, hdepth, c1, c2, c3.
    repeat (split; [first [assumption | reflexivity] |]). reflexivity. }
  destruct H as [calls H].
  now rewrite (proj2 (forward_run _ _ _ _ _ _ _ _ _ H)).
Qed.

(** What [compose_rgbs] yields: one colour per projected point, within
    [0, 1], zero off the mask, and the clamped sums at the visible
    positions. *)
Lemma compose_rgbs_spec (pr : ProjectionResults) (sh out rgbs : list vec3) :
  compose_rgbs pr sh out = Ok rgbs ->
  shaded_ok (List.length (radii pr)) (visibility pr) rgbs /\
  (List.length sh = count_true (visibility pr) ->
   List.length out = count_true (visibility pr) ->
   select rgbs (visibility pr)
   = composed_colors (map (map3 (fun x => x + / 2)) sh) (rescale out)).
Proof.
  unfold compose_rgbs. intros H.
  destruct (broadcast (zip3 Rplus) (map (map3 (fun x => x + / 2)) sh)
              (rescale out)) as [sum | e] eqn:Hsum; [| discriminate].
  cbn [rbind] in H. split; [now apply composition_ok with sum |].
  intros Hsh Hout.
  rewrite broadcast_same_length in Hsum
    by (unfold rescale; rewrite !length_map; congruence).
  injection Hsum as <-.
  apply masked_assign_spec in H as (_ & _ & _ & _ & Hsel).
  rewrite Hsel.
  - unfold composed_colors. apply map_zip_with.
  - rewrite length_map, zip_with_length; unfold rescale;
      rewrite !length_map; congruence.
Qed.

(** ** The colours of the "rgb" channel, end to end *)

(** C2.  Every colour handed to the rasterizer by the "rgb" channel is
    within [0, 1] in each component and is exactly zero for a point of
    non-positive screen radius: for the default request every rasterization
    call is such a call, for any request every call is such a call or a depth
    call.  And whenever [forward] returns with "rgb" requested, the colours
    it handed to the rasterizer are the zero buffer with
    [clamp(base_rgb + rgb_offset, 0, 1)] written at the visible points, where
    [base_rgb] is the answer of the spherical-harmonics call plus 0.5 and
    [rgb_offset] the answer of the model call times 2 minus 1, both calls
    made on the visible points; that rasterization call is in the trace, and
    its answer is the [render] entry of the bundle. *)
Theorem rgb_colors_clamped (self : RendererModule) (cam : Camera)
    (pc : GaussianModel) (bg_color : list R) (scaling_modifier : R) :
  every_call (on_rasterize rgb_colors_ok)
    (forward self cam pc bg_color scaling_modifier None) /\
  (forall l,
     every_call (on_rasterize (fun a => rgb_colors_ok a \/ depth_colors a))
       (forward self cam pc bg_color scaling_modifier (Some l))) /\
  (forall (h : handler) (l : list string) (b : Bundle),
     In "rgb"%string l ->
     run h (forward self cam pc bg_color scaling_modifier (Some l)) = Ok b ->
     exists pr os sh out rgbs im,
       h _ (project_call self pc cam scaling_modifier) = Ok pr /\
       compensated self pc pr os /\
       h _ (spherical_harmonics (active_sh_degree pc)
              (view_directions cam (select (get_xyz pc) (visibility pr)))
              (select (get_features pc) (visibility pr))) = Ok sh /\
       h _ (model_call (select (get_appearance_features pc) (visibility pr))
              (appearance_id cam)
              (view_directions cam (select (get_xyz pc) (visibility pr))))
       = Ok out /\
       compose_rgbs pr sh out = Ok rgbs /\
       List.length rgbs = List.length (radii pr) /\
       Forall (vec3_in_range 0 1) rgbs /\
       (forall i r, nth_error (radii pr) i = Some r -> (r <= 0)%Z ->
                    nth_error rgbs i = Some (0, 0, 0)) /\
       (List.length sh = count_true (visibility pr) ->
        List.length out = count_true (visibility pr) ->
        select rgbs (visibility pr)
        = composed_colors (map (map3 (fun x => x + / 2)) sh) (rescale out)) /\
       In (Called (rasterize_simplified
                     (mkRasterArgs pr cam (map vec3_to_row rgbs) bg_color os
                        false)))
         (trace h (forward self cam pc bg_color scaling_modifier (Some l))) /\
       h _ (rasterize_simplified
              (mkRasterArgs pr cam (map vec3_to_row rgbs) bg_color os false))
       = Ok im /\
       render b = Some im).
Proof.
  split; [| split].
  - change (forward self cam pc bg_color scaling_modifier None)
      with (forward self cam pc bg_color scaling_modifier (Some ["rgb"%string])).
    eapply holds_call_weaken;
      [| apply (forward_raster_calls self cam pc bg_color scaling_modifier)].
    intros X [] H; simpl in *; trivial.
    inversion H; subst; try discriminate.
    now apply rgb_call_colors.
  - intros l.
    eapply holds_call_weaken;
      [| apply (forward_raster_calls self cam pc bg_color scaling_modifier)].
    intros X [] H; simpl in *; trivial.
    inversion H; subst.
    + left. now apply rgb_call_colors.
    + right. reflexivity.
    + right. reflexivity.
  - intros h l b Hin Hrun. apply contains_In in Hin.
    apply forward_inv in Hrun.
    destruct Hrun as (pr & os & rgb & idepth & hdepth & c1 & c2 & c3
                      & Hpr & Hos & Hrgb & _ & _ & -> & Htrace).
    unfold rgb_outcome in Hrgb. rewrite Hin in Hrgb.
    destruct Hrgb as (sh & out & rgbs & im & _ & _ & _ & Hsh & Hout & Hc
                      & Him & -> & ->).
    destruct (compose_rgbs_spec pr sh out rgbs Hc)
      as ((Hlen & Hrange & Hzero) & Hsel).
    exists pr, os, sh, out, rgbs, im.
    split; [exact Hpr |]. split; [exact Hos |]. split; [exact Hsh |].
    split; [exact Hout |]. split; [exact Hc |]. split; [exact Hlen |].
    split; [exact Hrange |]. split.
    { intros i r Hr Hneg. apply Hzero. unfold visibility.
      rewrite nth_error_map, Hr. simpl. f_equal. now apply Z.ltb_ge. }
    split; [exact Hsel |]. split; [| split; [exact Him | reflexivity]].
    rewrite Htrace. right. simpl. right. right. left. reflexivity.
Qed.

(** The example scene: the spherical-harmonics call answers [(1, 0, -1/2)]
    and the model call [(1, 1/2, 0)] for the one visible point, whose colour
    is [clamp((1, 0, -1/2) + 1/2 + ((1, 1/2, 0) * 2 - 1), 0, 1)]; the
    second point, of radius 0, gets zero. *)
Lemma rgb_colors_clamped_witness :
  exists b rgbs im,
    run example_handler
      (forward example_module example_camera example_points [0; 0; 0] 1
         (Some ["rgb"%string])) = Ok b /\
    compose_rgbs example_projection [(1, 0, - / 2)] [(1, / 2, 0)] = Ok rgbs /\
    select rgbs (visibility example_projection)
    = composed_colors [(1 + / 2, 0 + / 2, - / 2 + / 2)]
        [(1 * 2 - 1, / 2 * 2 - 1, 0 * 2 - 1)] /\
    nth_error rgbs 1 = Some (0, 0, 0) /\
    example_handler _
      (rasterize_simplified
         (mkRasterArgs example_projection example_camera
            (map vec3_to_row rgbs) [0; 0; 0] [/ 2 * / 2; / 4 * 1] false))
    = Ok im /\
    render b = Some im.
Proof.
  assert (Hrun : exists b,
    run example_handler
      (forward example_module example_camera example_points [0; 0; 0] 1
         (Some ["rgb"%string])) = Ok b)
    by (eexists; reflexivity).
  destruct Hrun as [b Hrun].
  destruct (proj2 (proj2 (rgb_colors_clamped example_module example_camera
                            example_points [0; 0; 0] 1))
              example_handler ["rgb"%string] b)
    as (pr & os & sh & out & rgbs & im & Hpr & Hos & Hsh & Hout & Hc & _ & _
        & Hzero & Hsel & _ & Him & Hb).
  - simpl. auto.
  - exact Hrun.
  - simpl in Hpr. injection Hpr as <-.
    simpl in Hsh. injection Hsh as <-.
    simpl in Hout. injection Hout as <-.
    unfold compensated in Hos. simpl in Hos. injection Hos as <-.
    exists b, rgbs, im.
    split; [exact Hrun |]. split; [exact Hc |].
    split; [apply Hsel; reflexivity |].
    split; [apply (Hzero 1%nat 0%Z); [reflexivity | lia] |].
    split; [exact Him | exact Hb].
Defined.

(** ** The "hard" inverse-depth channel, end to end *)

(** C6.  "hard_inverse_depth" is the inverse-depth channel rendered with all
    opacities 1.  Requested alone, every rasterization call of [forward] has
    the colours [1 / (clamp_min(depth, 0) + 1e-8)], a zero background, no
    anti-aliasing and every opacity equal to 1.  Whenever [forward] returns
    with it requested, the [hard_inverse_depth] entry is the rasterizer's
    answer to that call, which is in the trace, and an [inverse_depth] entry
    requested along with it is the answer to the same call with the
    (compensated) opacities of the points; the entry is also the
    [inverse_depth] image of the same points with all opacities 1 and no
    anti-aliasing compensation.  With the renderer set, the projection and
    the rasterizer answering and the opacities compensated, [forward] on
    "hard_inverse_depth" alone returns. *)
Theorem hard_inverse_depth_is_opaque_inverse_depth
    (self : RendererModule) (cam : Camera) (pc : GaussianModel)
    (background : list R) (scaling_modifier : R) :
  every_call
    (on_rasterize
       (fun a =>
          colors a = map (fun d => [1 / (clamp_min 0 d + / 100000000)])
                       (depths (project_results a)) /\
          bg_color a = [0] /\
          raster_anti_aliased a = false /\
          Forall (fun o => o = 1) (opacities a)))
    (forward self cam pc background scaling_modifier
       (Some ["hard_inverse_depth"%string])) /\
  (forall (h : handler) (l : list string) (b : Bundle),
     In "hard_inverse_depth"%string l ->
     run h (forward self cam pc background scaling_modifier (Some l)) = Ok b ->
     exists pr os im,
       h _ (project_call self pc cam scaling_modifier) = Ok pr /\
       compensated self pc pr os /\
       h _ (rasterize_simplified
              (mkRasterArgs pr cam
                 (map (fun d => [1 / (clamp_min 0 d + / 100000000)])
                    (depths pr))
                 [0] (repeat 1 (List.length os)) false)) = Ok im /\
       hard_inverse_depth b = Some im /\
       In (Called (rasterize_simplified
                     (mkRasterArgs pr cam
                        (map (fun d => [1 / (clamp_min 0 d + / 100000000)])
                           (depths pr))
                        [0] (repeat 1 (List.length os)) false)))
         (trace h (forward self cam pc background scaling_modifier (Some l))) /\
       (In "inverse_depth"%string l ->
        exists im',
          h _ (rasterize_simplified
                 (mkRasterArgs pr cam
                    (map (fun d => [1 / (clamp_min 0 d + / 100000000)])
                       (depths pr))
                    [0] os false)) = Ok im' /\
          inverse_depth b = Some im') /\
       exists b1,
         run h (forward (set_anti_aliased self false) cam
                  (with_opacities pc (repeat 1 (List.length os))) background
                  scaling_modifier (Some ["inverse_depth"%string])) = Ok b1 /\
         inverse_depth b1 = Some im) /\
  (forall (h : handler) (pr : ProjectionResults) (os : list R) (im : Image),
     renderer self = true ->
     h _ (project_call self pc cam scaling_modifier) = Ok pr ->
     compensated self pc pr os ->
     h _ (rasterize_simplified
            (mkRasterArgs pr cam
               (map (fun d => [1 / (clamp_min 0 d + / 100000000)])
                  (depths pr))
               [0] (repeat 1 (List.length os)) false)) = Ok im ->
     run h (forward self cam pc background scaling_modifier
              (Some ["hard_inverse_depth"%string]))
     = Ok (forward_bundle cam pr None None (Some im))).
Proof.
  split; [| split].
  - eapply holds_call_weaken;
      [| apply (forward_raster_calls self cam pc background scaling_modifier)].
    intros X [] H; simpl in *; trivial.
    inversion H; subst; try discriminate.
    simpl. repeat split; try reflexivity.
    rewrite hard_opacities_ones. apply Forall_forall.
    intros o Ho. now apply repeat_spec in Ho.
  - intros h l b Hin Hrun. apply contains_In in Hin.
    apply forward_inv in Hrun.
    destruct Hrun as (pr & os & rgb & idepth & hdepth & c1 & c2 & c3
                      & Hpr & Hos & _ & Hid & Hhd & -> & Htrace).
    unfold depth_outcome in Hhd. rewrite Hin in Hhd.
    destruct Hhd as (im & Hr & Him & -> & ->).
    unfold inverse_depth_args in Him. rewrite hard_opacities_ones in Him.
    exists pr, os, im.
    split; [exact Hpr |]. split; [exact Hos |]. split; [exact Him |].
    split; [reflexivity |]. split; [| split].
    + rewrite Htrace. right. apply in_or_app. right. apply in_or_app. right.
      unfold inverse_depth_args. rewrite hard_opacities_ones.
      left. reflexivity.
    + intros Hin'. apply contains_In in Hin'.
      unfold depth_outcome in Hid. rewrite Hin' in Hid.
      destruct Hid as (im' & _ & Him' & -> & _).
      exists im'. split; [exact Him' | reflexivity].
    + exists (forward_bundle cam pr None (Some im) None).
      split; [| reflexivity].
      apply (forward_run h (set_anti_aliased self false) cam
               (with_opacities pc (repeat 1 (List.length os))) background
               scaling_modifier ["inverse_depth"%string] _
               [Called (project_call self pc cam scaling_modifier);
                Called (rasterize_simplified
                          (inverse_depth_args pr cam
                             (repeat 1 (List.length os))))]).
      assert (Hcall : project_call (set_anti_aliased self false)
                        (with_opacities pc (repeat 1 (List.length os))) cam
                        scaling_modifier
                      = project_call self pc cam scaling_modifier)
        by (unfold project_call; simpl; now destruct (class self)).
      exists pr, (repeat 1 (List.length os)), None, (Some im), None, [],
        [Called (rasterize_simplified
                   (inverse_depth_args pr cam (repeat 1 (List.length os))))],
        [].
      rewrite Hcall.
      split; [exact Hpr |]. split.
      { unfold compensated, source_opacities. simpl.
        now destruct (class self). }
      split; [split; reflexivity |]. split.
      { exists im. repeat split; try reflexivity; assumption. }
      split; [split; reflexivity |]. split; reflexivity.
  - intros h pr os im Hr Hpr Hos Him.
    apply (forward_run h self cam pc background scaling_modifier
             ["hard_inverse_depth"%string] _
             [Called (project_call self pc cam scaling_modifier);
              Called (rasterize_simplified
                        (inverse_depth_args pr cam (hard_opacities os)))]).
    exists pr, os, None, None, (Some im), [], [],
      [Called (rasterize_simplified
                 (inverse_depth_args pr cam (hard_opacities os)))].
    split; [exact Hpr |]. split; [exact Hos |].
    split; [split; reflexivity |]. split; [split; reflexivity |]. split.
    { exists im. unfold inverse_depth_args. rewrite hard_opacities_ones.
      repeat split; try reflexivity; assumption. }
    split; reflexivity.
Qed.

(** The example scene, "hard_inverse_depth" with "inverse_depth": depths 1
    and -1, source opacities 1/2 and 1/4, compensation 1/2 and 1. *)
Lemma hard_inverse_depth_is_opaque_inverse_depth_witness :
  exists b im im',
    run example_handler
      (forward example_module example_camera example_points [0; 0; 0] 1
         (Some ["inverse_depth"; "hard_inverse_depth"]%string)) = Ok b /\
    example_handler _
      (rasterize_simplified
         (mkRasterArgs example_projection example_camera
            (map (fun d => [1 / (clamp_min 0 d + / 100000000)]) [1; -1])
            [0] [1; 1] false)) = Ok im /\
    hard_inverse_depth b = Some im /\
    example_handler _
      (rasterize_simplified
         (mkRasterArgs example_projection example_camera
            (map (fun d => [1 / (clamp_min 0 d + / 100000000)]) [1; -1])
            [0] [/ 2 * / 2; / 4 * 1] false)) = Ok im' /\
    inverse_depth b = Some im' /\
    run example_handler
      (forward example_module example_camera example_points [0; 0; 0] 1
         (Some ["hard_inverse_depth"%string]))
    = Ok (forward_bundle example_camera example_projection None None
            (Some im)).
Proof.
  assert (Hrun : exists b,
    run example_handler
      (forward example_module example_camera example_points [0; 0; 0] 1
         (Some ["inverse_depth"; "hard_inverse_depth"]%string)) = Ok b)
    by (eexists; reflexivity).
  destruct Hrun as [b Hrun].
  destruct (proj1 (proj2 (hard_inverse_depth_is_opaque_inverse_depth
                            example_module example_camera example_points
                            [0; 0; 0] 1))
              example_handler
              ["inverse_depth"; "hard_inverse_depth"]%string b)
    as (pr & os & im & Hpr & Hos & Him & Hb & _ & Hinv & _).
  - simpl. auto.
  - exact Hrun.
  - simpl in Hpr. injection Hpr as <-.
    unfold compensated in Hos. simpl in Hos. injection Hos as <-.
    destruct Hinv as (im' & Him' & Hb'); [simpl; auto |].
    exists b, im, im'.
    split; [exact Hrun |]. split; [exact Him |]. split; [exact Hb |].
    split; [exact Him' |]. split; [exact Hb' |].
    apply (proj2 (proj2 (hard_inverse_depth_is_opaque_inverse_depth
                           example_module example_camera example_points
                           [0; 0; 0] 1))
             example_handler example_projection [/ 2 * / 2; / 4 * 1] im);
      [reflexivity | reflexivity | reflexivity | exact Him].
Defined.

(** ** The default request, end to end *)

(** C10.  With [render_types = None], [forward] is [forward] on ["rgb"].
    When it returns, it has made exactly four calls, in this order: the
    projection, the spherical-harmonics call and the model call on the
    visible points, and one rasterization call on the colours composed from
    their answers, with the background given and the (compensated) opacities;
    the bundle carries the rasterizer's answer as [render], no
    [inverse_depth] and no [hard_inverse_depth] entry, and the projection's
    points, visibility and radii.  Conversely, with the model and the
    renderer set, the point cloud matching the projection and those calls
    answered, it returns that bundle. *)
Theorem default_render_types (self : RendererModule)
    (viewpoint_camera : Camera) (pc : GaussianModel) (bg_color : list R)
    (scaling_modifier : R) :
  forward self viewpoint_camera pc bg_color scaling_modifier None
  = forward self viewpoint_camera pc bg_color scaling_modifier
      (Some ["rgb"%string]) /\
  (forall (h : handler) (b : Bundle),
     run h (forward self viewpoint_camera pc bg_color scaling_modifier None)
     = Ok b ->
     exists pr os sh out rgbs im,
       h _ (project_call self pc viewpoint_camera scaling_modifier) = Ok pr /\
       compensated self pc pr os /\
       h _ (sh_call viewpoint_camera pc pr) = Ok sh /\
       h _ (shading_call viewpoint_camera pc pr) = Ok out /\
       compose_rgbs pr sh out = Ok rgbs /\
       h _ (rasterize_simplified
              (mkRasterArgs pr viewpoint_camera (map vec3_to_row rgbs)
                 bg_color os false)) = Ok im /\
       render b = Some im /\
       inverse_depth b = None /\
       hard_inverse_depth b = None /\
       viewspace_points b = xys pr /\
       visibility_filter b = visibility pr /\
       out_radii b = radii pr /\
       trace h
         (forward self viewpoint_camera pc bg_color scaling_modifier None)
       = [Called (project_call self pc viewpoint_camera scaling_modifier);
          Called (sh_call viewpoint_camera pc pr);
          Called (shading_call viewpoint_camera pc pr);
          Called (rasterize_simplified
                    (mkRasterArgs pr viewpoint_camera (map vec3_to_row rgbs)
                       bg_color os false))]) /\
  (forall (h : handler) (pr : ProjectionResults) (os : list R)
          (sh out rgbs : list vec3) (im : Image),
     model self <> None ->
     renderer self = true ->
     points_match pc pr ->
     h _ (project_call self pc viewpoint_camera scaling_modifier) = Ok pr ->
     compensated self pc pr os ->
     h _ (sh_call viewpoint_camera pc pr) = Ok sh ->
     h _ (shading_call viewpoint_camera pc pr) = Ok out ->
     compose_rgbs pr sh out = Ok rgbs ->
     h _ (rasterize_simplified
            (mkRasterArgs pr viewpoint_camera (map vec3_to_row rgbs)
               bg_color os false)) = Ok im ->
     run h (forward self viewpoint_camera pc bg_color scaling_modifier None)
     = Ok (mkBundle (Some im) None None (xys pr)
             (/ 2 * IZR (width viewpoint_camera),
              / 2 * IZR (height viewpoint_camera))
             (visibility pr) (radii pr))).
Proof.
  split; [reflexivity |]. split.
  - intros h b Hrun.
    change (forward self viewpoint_camera pc bg_color scaling_modifier None)
      with (forward self viewpoint_camera pc bg_color scaling_modifier
              (Some ["rgb"%string])) in *.
    apply forward_inv in Hrun.
    destruct Hrun as (pr & os & rgb & idepth & hdepth & c1 & c2 & c3
                      & Hpr & Hos & Hrgb & Hid & Hhd & -> & Htrace).
    destruct Hrgb as (sh & out & rgbs & im & _ & _ & _ & Hsh & Hout & Hc
                      & Him & -> & ->).
    destruct Hid as [-> ->]. destruct Hhd as [-> ->].
    exists pr, os, sh, out, rgbs, im.
    repeat (split; [first [assumption | reflexivity] |]).
    exact Htrace.
  - intros h pr os sh out rgbs im Hm Hr Hpm Hpr Hos Hsh Hout Hc Him.
    change (forward self viewpoint_camera pc bg_color scaling_modifier None)
      with (forward self viewpoint_camera pc bg_color scaling_modifier
              (Some ["rgb"%string])).
    apply (forward_run h self viewpoint_camera pc bg_color scaling_modifier
             ["rgb"%string] _
             [Called (project_call self pc viewpoint_camera scaling_modifier);
              Called (sh_call viewpoint_camera pc pr);
              Called (shading_call viewpoint_camera pc pr);
              Called (rasterize_simplified
                        (rgb_args pr viewpoint_camera rgbs bg_color os))]).
    exists pr, os, (Some im), None, None,
      [Called (sh_call viewpoint_camera pc pr);
       Called (shading_call viewpoint_camera pc pr);
       Called (rasterize_simplified
                 (rgb_args pr viewpoint_camera rgbs bg_color os))], [], [].
    split; [exact Hpr |]. split; [exact Hos |]. split.
    { exists sh, out, rgbs, im.
      repeat (split; [first [assumption | reflexivity] |]). reflexivity. }
    split; [split; reflexivity |]. split; [split; reflexivity |].
    split; reflexivity.
Qed.

(** The example scene under the default request: the four calls, and the
    rasterizer's answer as the [render] entry. *)
Lemma default_render_types_witness :
  exists b rgbs im,
    run example_handler
      (forward example_module example_camera example_points [0; 0; 0] 1 None)
    = Ok b /\
    compose_rgbs example_projection [(1, 0, - / 2)] [(1, / 2, 0)] = Ok rgbs /\
    example_handler _
      (rasterize_simplified
         (mkRasterArgs example_projection example_camera
            (map vec3_to_row rgbs) [0; 0; 0] [/ 2 * / 2; / 4 * 1] false))
    = Ok im /\
    render b = Some im /\ inverse_depth b = None /\
    hard_inverse_depth b = None /\
    trace example_handler
      (forward example_module example_camera example_points [0; 0; 0] 1 None)
    = [Called (project_call example_module example_points example_camera 1);
       Called (sh_call example_camera example_points example_projection);
       Called (shading_call example_camera example_points example_projection);
       Called (rasterize_simplified
                 (mkRasterArgs example_projection example_camera
                    (map vec3_to_row rgbs) [0; 0; 0] [/ 2 * / 2; / 4 * 1]
                    false))].
Proof.
  assert (Hc : exists rgbs,
    compose_rgbs example_projection [(1, 0, - / 2)] [(1, / 2, 0)] = Ok rgbs)
    by (eexists; reflexivity).
  destruct Hc as [rgbs0 Hc0].
  assert (Hrun : exists b,
    run example_handler
      (forward example_module example_camera example_points [0; 0; 0] 1 None)
    = Ok b).
  { eexists.
    apply (proj2 (proj2 (default_render_types example_module example_camera
                           example_points [0; 0; 0] 1))
             example_handler example_projection [/ 2 * / 2; / 4 * 1]
             [(1, 0, - / 2)] [(1, / 2, 0)] rgbs0
             [map vec3_to_row rgbs0; [[/ 2 * / 2; / 4 * 1]]]);
      try reflexivity; [discriminate | repeat split | exact Hc0]. }
  destruct Hrun as [b Hrun].
  destruct (proj1 (proj2 (default_render_types example_module example_camera
                            example_points [0; 0; 0] 1))
              example_handler b Hrun)
    as (pr & os & sh & out & rgbs & im & Hpr & Hos & Hsh & Hout & Hc & Him
        & Hb & Hid & Hhd & _ & _ & _ & Htrace).
  simpl in Hpr. injection Hpr as <-.
  simpl in Hsh. injection Hsh as <-.
  simpl in Hout. injection Hout as <-.
  unfold compensated in Hos. simpl in Hos. injection Hos as <-.
  exists b, rgbs, im.
  split; [exact Hrun |]. split; [exact Hc |]. split; [exact Him |].
  split; [exact Hb |]. split; [exact Hid |]. split; [exact Hhd |].
  exact Htrace.
Defined.

(** ** The model call of the renderer *)

(** Under [with_model] the call [self.model(...)] of the renderer is
    [Model.forward] on the module's model. *)
Lemma with_model_forward (self : RendererModule) (h : handler) (m : Model)
    (gaussian_features : list (list R)) (appearance : Z)
    (view_dirs : list vec3) :
  model self = Some m ->
  run (with_model self h)
    (call_model self (Ok gaussian_features) appearance view_dirs)
  = Model_forward m gaussian_features appearance view_dirs.
Proof.
  intros Hm. unfold call_model. rewrite Hm. cbn [lift bind].
  rewrite run_trigger. simpl. now rewrite Hm.
Qed.

(** * Further properties of the source *)

(** ** More on the learning-rate schedule *)


Lemma exponent_at_most_one (max_steps warm_up t : Z) :
  exponent max_steps warm_up t <= 1.
Proof. unfold exponent. apply Rmin_r. Qed.

(** X1.  With [max_steps > 0] and [0 <= lr_final_factor <= 1] the multiplier
    of either scheduler is, at every step, a float between [lr_final_factor]
    and 1: the scheduled rate never exceeds the initial rate and never falls
    below the final one. *)
Theorem lr_multiplier_bounds (self : RendererModule) (s : Scheduler) (t : Z) :
  In s (schedulers self) ->
  (0 < max_steps (optimization_config self))%Z ->
  0 <= lr_final_factor (optimization_config self) <= 1 ->
  exists m,
    sched_lambda s t = Ok m /\
    lr_final_factor (optimization_config self) <= m <= 1.
Proof.
  intros Hin Hpos Hff. rewrite (proj1 (schedulers_lambda self s Hin)).
  rewrite lr_lambda_exponent by assumption.
  set (c := optimization_config self) in *.
  pose proof (exponent_nonneg _ (warm_up c) Hpos t) as H0.
  pose proof (exponent_at_most_one (max_steps c) (warm_up c) t) as H1.
  destruct (py_pow_unit_base _ _ Hff H0) as (m & Hm & Hrange).
  exists m. split; [exact Hm |]. split; [| apply Hrange].
  apply (py_pow_antitone (lr_final_factor c)
           (exponent (max_steps c) (warm_up c) t) 1);
    auto using py_pow_one_exponent.
Qed.

Lemma lr_multiplier_bounds_witness :
  exists s m,
    nth_error (schedulers example_module) 0 = Some s /\
    sched_lambda s 12345 = Ok m /\ / 10 <= m <= 1.
Proof.
  assert (H : exists s, nth_error (schedulers example_module) 0 = Some s /\
                        In s (schedulers example_module)).
  { rewrite schedulers_example. eexists.
    split; [reflexivity | left; reflexivity]. }
  destruct H as (s & Hs & Hin).
  destruct (lr_multiplier_bounds example_module s 12345 Hin)
    as (m & Hm & Hr); [simpl; lia | simpl; lra |].
  exists s, m. split; [exact Hs |]. split; [exact Hm | exact Hr].
Defined.


(** X3.  [training_setup] raises [AttributeError] while the model is not
    set.  With the model set it raises [ValueError] for a negative
    [embedding_lr_init], then for a negative [eps], then
    [ZeroDivisionError] for [max_steps = 0] (the scheduler evaluates the
    lambda at step 0 when it is constructed), then, with [max_steps > 0],
    [ValueError] for a negative [lr_init].  With none of these and
    [max_steps > 0] it returns the embedding optimizer at
    [embedding_lr_init] and the network optimizer at [lr_init], both with
    [eps], each under a scheduler with the lambda of [lr_final_factor],
    [max_steps] and [warm_up].  And it never reads
    [embedding_lr_final_factor] or [gamma_eps]: replacing them changes
    nothing. *)
Theorem training_setup_reads (self : RendererModule) :
  let c := optimization_config self in
  (model self = None -> training_setup self = Raise AttributeError) /\
  (model self <> None -> embedding_lr_init c < 0 ->
   training_setup self = Raise ValueError) /\
  (model self <> None -> 0 <= embedding_lr_init c -> eps c < 0 ->
   training_setup self = Raise ValueError) /\
  (model self <> None -> 0 <= embedding_lr_init c -> 0 <= eps c ->
   max_steps c = 0%Z ->
   training_setup self = Raise ZeroDivisionError) /\
  (model self <> None -> 0 <= embedding_lr_init c -> 0 <= eps c ->
   (0 < max_steps c)%Z -> lr_init c < 0 ->
   training_setup self = Raise ValueError) /\
  (model self <> None -> 0 <= embedding_lr_init c -> 0 <= eps c ->
   (0 < max_steps c)%Z -> 0 <= lr_init c ->
   training_setup self
   = Ok ([mkAdam embedding_parameters "embedding" (embedding_lr_init c)
            (eps c);
          mkAdam network_parameters "embedding_network" (lr_init c) (eps c)],
         [mkLambdaLR
            (mkAdam embedding_parameters "embedding" (embedding_lr_init c)
               (eps c))
            (lr_lambda (lr_final_factor c) (max_steps c) (warm_up c));
          mkLambdaLR
            (mkAdam network_parameters "embedding_network" (lr_init c)
               (eps c))
            (lr_lambda (lr_final_factor c) (max_steps c) (warm_up c))])) /\
  (forall g f : R,
     training_setup
       (set_optimization_config self (with_unread_fields c g f))
     = training_setup self).
Proof.
  intros c.
  split; [| split; [| split; [| split; [| split; [| split]]]]].
  - unfold training_setup. intros ->. reflexivity.
  - intros Hmodel Helr. unfold training_setup. fold c.
    destruct (model self); [| contradiction].
    unfold _create_optimizer_and_scheduler at 1, Adam.
    destruct (Rlt_dec (embedding_lr_init c) 0); [reflexivity | lra].
  - intros Hmodel Helr Heps. unfold training_setup. fold c.
    destruct (model self); [| contradiction].
    unfold _create_optimizer_and_scheduler at 1, Adam.
    destruct (Rlt_dec (embedding_lr_init c) 0); [lra |].
    destruct (Rlt_dec (eps c) 0); [reflexivity | lra].
  - intros Hmodel Helr Heps Hsteps. unfold training_setup. fold c.
    destruct (model self); [| contradiction].
    unfold _create_optimizer_and_scheduler at 1, Adam.
    destruct (Rlt_dec (embedding_lr_init c) 0); [lra |].
    destruct (Rlt_dec (eps c) 0); [lra |].
    rewrite Hsteps. reflexivity.
  - intros Hmodel Helr Heps Hsteps Hlr. unfold training_setup. fold c.
    destruct (model self); [| contradiction].
    rewrite create_ok;
      [| assumption | assumption
       | intros e; apply lr_lambda_no_exception; assumption].
    cbn [rbind]. unfold _create_optimizer_and_scheduler, Adam.
    destruct (Rlt_dec (lr_init c) 0); [reflexivity | lra].
  - intros Hmodel Helr Heps Hsteps Hlr.
    apply training_setup_builds; try assumption.
    intros e. apply lr_lambda_no_exception. assumption.
  - intros g f. unfold training_setup. simpl.
    destruct (model self); reflexivity.
Qed.

(** A module that is not set up, the example module, and the example module
    with no decay steps. *)
Lemma training_setup_reads_witness :
  training_setup fresh_module = Raise AttributeError /\
  training_setup stepless_module = Raise ZeroDivisionError /\
  training_setup example_module
  = Ok ([mkAdam embedding_parameters "embedding" (2 / 1000)
           (/ 1000000000000000);
         mkAdam network_parameters "embedding_network" (/ 1000)
           (/ 1000000000000000)],
        [mkLambdaLR
           (mkAdam embedding_parameters "embedding" (2 / 1000)
              (/ 1000000000000000))
           (lr_lambda (/ 10) 30000 4000);
         mkLambdaLR
           (mkAdam network_parameters "embedding_network" (/ 1000)
              (/ 1000000000000000))
           (lr_lambda (/ 10) 30000 4000)]).
Proof.
  split; [| split].
  - apply (proj1 (training_setup_reads fresh_module)). reflexivity.
  - apply (proj1 (proj2 (proj2 (proj2 (training_setup_reads
                                          stepless_module)))));
      simpl; try lra; try reflexivity; discriminate.
  - apply (proj1 (proj2 (proj2 (proj2 (proj2
             (proj2 (training_setup_reads example_module)))))));
      simpl; try lra; try lia; discriminate.
Defined.

(** ** More on the appearance shading model *)

Lemma mapM_app {A B} (f : A -> result B) (l1 l2 : list A) (o1 o2 : list B) :
  mapM f l1 = Ok o1 -> mapM f l2 = Ok o2 -> mapM f (l1 ++ l2) = Ok (o1 ++ o2).
Proof.
  revert o1. induction l1 as [| a l1 IH]; intros o1 H1 H2; simpl in *.
  - now injection H1 as <-.
  - destruct (f a) as [b |]; [| discriminate]. simpl in *.
    destruct (mapM f l1) as [bs |]; [| discriminate]. simpl in *.
    injection H1 as <-. now rewrite (IH bs eq_refl H2).
Qed.

Lemma zip_with_app {A B C} (f : A -> B -> C) (xs1 xs2 : list A)
    (ys1 ys2 : list B) :
  List.length xs1 = List.length ys1 ->
  zip_with f (xs1 ++ xs2) (ys1 ++ ys2)
  = zip_with f xs1 ys1 ++ zip_with f xs2 ys2.
Proof.
  revert ys1. induction xs1 as [| x xs1 IH]; intros [| y ys1] H;
    simpl in *; try discriminate; [reflexivity |].
  f_equal. apply IH. now injection H.
Qed.

Lemma concat_rows_inv (a b rows : list (list R)) :
  concat_rows a b = Ok rows ->
  List.length a = List.length b /\ rows = zip_with (@app R) a b.
Proof.
  unfold concat_rows.
  destruct (Nat.eqb_spec (List.length a) (List.length b)); [| discriminate].
  intros [= <-]. now split.
Qed.

Lemma concat_rows_app (a1 a2 b1 b2 r1 r2 : list (list R)) :
  concat_rows a1 b1 = Ok r1 -> concat_rows a2 b2 = Ok r2 ->
  concat_rows (a1 ++ a2) (b1 ++ b2) = Ok (r1 ++ r2).
Proof.
  intros H1 H2. apply concat_rows_inv in H1, H2.
  destruct H1 as [L1 ->], H2 as [L2 ->].
  unfold concat_rows. rewrite !length_app, L1, L2, Nat.eqb_refl.
  now rewrite zip_with_app.
Qed.

Lemma normalized_app (b : bool) (r1 r2 : list (list R)) :
  (if b then map F_normalize (r1 ++ r2) else r1 ++ r2)
  = (if b then map F_normalize r1 else r1)
    ++ (if b then map F_normalize r2 else r2).
Proof. destruct b; [apply map_app | reflexivity]. Qed.

(** X4.  [Model.forward] works point by point: if it predicts [o1] for the
    points [f1] and [o2] for the points [f2] under one appearance id, it
    predicts [o1 ++ o2] for them together.  What a point gets depends on its
    own features and direction and on the appearance, never on the other
    points of the batch. *)
Theorem Model_forward_pointwise (m : Model) (appearance : Z)
    (f1 f2 : list (list R)) (d1 d2 o1 o2 : list vec3) :
  Model_forward m f1 appearance d1 = Ok o1 ->
  Model_forward m f2 appearance d2 = Ok o2 ->
  (is_view_dependent (config m) = false ->
   Model_forward m (f1 ++ f2) appearance [] = Ok (o1 ++ o2)) /\
  (is_view_dependent (config m) = true ->
   Model_forward m (f1 ++ f2) appearance (d1 ++ d2) = Ok (o1 ++ o2)).
Proof.
  unfold Model_forward. intros H1 H2.
  destruct (embedding_lookup (embedding m) appearance) as [row | e];
    [cbn [rbind] in * | discriminate].
  rewrite length_app, repeat_app, !normalized_app.
  destruct (concat_rows
              (if normalize (config m) then map F_normalize f1 else f1)
              (if normalize (config m)
               then map F_normalize (repeat row (List.length f1))
               else repeat row (List.length f1))) as [r1 | e] eqn:E1;
    [cbn [rbind] in H1 | discriminate].
  destruct (concat_rows
              (if normalize (config m) then map F_normalize f2 else f2)
              (if normalize (config m)
               then map F_normalize (repeat row (List.length f2))
               else repeat row (List.length f2))) as [r2 | e] eqn:E2;
    [cbn [rbind] in H2 | discriminate].
  rewrite (concat_rows_app _ _ _ _ _ _ E1 E2). cbn [rbind].
  destruct (is_view_dependent (config m)).
  - split; [discriminate | intros _].
    destruct (view_direction_encoding m) as [enc |]; [| discriminate].
    destruct (concat_rows r1 (map (encode enc) d1)) as [i1 | e] eqn:I1;
      [cbn [rbind] in H1 | discriminate].
    destruct (concat_rows r2 (map (encode enc) d2)) as [i2 | e] eqn:I2;
      [cbn [rbind] in H2 | discriminate].
    rewrite map_app, (concat_rows_app _ _ _ _ _ _ I1 I2). cbn [rbind].
    now apply mapM_app.
  - split; [intros _ | discriminate]. cbn [rbind] in *.
    now apply mapM_app.
Qed.

Lemma Model_forward_pointwise_witness :
  exists o1 o2,
    Model_forward view_dependent_model
      [[0; 0; 0; 0; 0; 0; 0; 0]] 0 [(0, 0, 1)] = Ok o1 /\
    Model_forward view_dependent_model
      [[1; 0; 0; 0; 0; 0; 0; 0]; [0; 1; 0; 0; 0; 0; 0; 0]] 0
      [(0, 1, 0); (1, 0, 0)] = Ok o2 /\
    Model_forward view_dependent_model
      [[0; 0; 0; 0; 0; 0; 0; 0]; [1; 0; 0; 0; 0; 0; 0; 0];
       [0; 1; 0; 0; 0; 0; 0; 0]] 0
      [(0, 0, 1); (0, 1, 0); (1, 0, 0)] = Ok (o1 ++ o2).
Proof.
  do 2 eexists. split; [reflexivity |]. split; [reflexivity |].
  refine (proj2 (Model_forward_pointwise view_dependent_model 0
                   [[0; 0; 0; 0; 0; 0; 0; 0]]
                   [[1; 0; 0; 0; 0; 0; 0; 0]; [0; 1; 0; 0; 0; 0; 0; 0]]
                   [(0, 0, 1)] [(0, 1, 0); (1, 0, 0)] _ _ eq_refl eq_refl)
            eq_refl).
Defined.

Lemma embedding_lookup_out_of_range (table : list (list R)) (appearance : Z) :
  (appearance < 0 \/ Z.of_nat (List.length table) <= appearance)%Z ->
  embedding_lookup table appearance = Raise IndexError.
Proof.
  intros H. unfold embedding_lookup.
  destruct (Z.ltb_spec appearance 0); [reflexivity |].
  destruct (nth_error table (Z.to_nat appearance)) eqn:E; [| reflexivity].
  assert (Z.to_nat appearance < List.length table)%nat
    by (apply nth_error_Some; congruence).
  lia.
Qed.

(** X5.  A configured [n_appearances > 0] is taken as it is: [setup] builds
    the table with that many rows without looking at the appearance ids of
    the data, and [Model.forward] then raises [IndexError] for every id
    below 0 or at or above the configured count, whatever the points. *)
Theorem setup_trusts_configured_count (init : Initializer)
    (self : RendererModule) (stage : string) (lm : LightningModule) :
  (0 < n_appearances (model_config self))%Z ->
  (0 <= n_appearance_embedding_dims (model_config self))%Z ->
  Forall (fun i => 0 <= i < n_layers (model_config self))%Z
    (skip_layers (model_config self)) ->
  exists m,
    setup init self stage (Some lm) = (set_model self m, Ok tt) /\
    Z.of_nat (List.length (embedding m)) = n_appearances (model_config self) /\
    forall appearance gaussian_features view_dirs,
      (appearance < 0 \/ n_appearances (model_config self) <= appearance)%Z ->
      Model_forward m gaussian_features appearance view_dirs
      = Raise IndexError.
Proof.
  intros Hn Hdims Hskips.
  assert (Hvalid : valid_config (model_config self))
    by (unfold valid_config; repeat split; [lia | assumption | assumption]).
  destruct (_setup_model_ok init self Hvalid) as (m & Hsetup & _ & Hrows).
  exists m. split; [| split].
  - unfold setup.
    destruct (Z.leb_spec (n_appearances (model_config self)) 0); [lia |].
    exact Hsetup.
  - lia.
  - intros appearance feats dirs Hout. unfold Model_forward.
    rewrite embedding_lookup_out_of_range; [reflexivity | lia].
Qed.

(** Two appearances configured, a data set with id 5: the set-up succeeds and
    a render with appearance 5 fails in the lookup. *)
Lemma setup_trusts_configured_count_witness :
  exists m,
    setup example_initializer configured_module "fit"
      (Some wide_lightning_module)
    = (set_model configured_module m, Ok tt) /\
    Z.of_nat (List.length (embedding m)) = 2%Z /\
    Model_forward m [[0; 0; 0; 0; 0; 0; 0; 0]] 5 [(0, 0, 1)]
    = Raise IndexError.
Proof.
  destruct (setup_trusts_configured_count example_initializer
              configured_module "fit" wide_lightning_module)
    as (m & Hsetup & Hrows & Hraise).
  - simpl. lia.
  - simpl. lia.
  - constructor.
  - exists m. split; [exact Hsetup |]. split; [exact Hrows |].
    apply Hraise. simpl. lia.
Defined.

(** X6.  A view-dependent model given a number of view directions other than
    the number of points raises a shape error (in the concatenation), for
    every appearance id of the table. *)
Theorem Model_forward_direction_count (m : Model)
    (gaussian_features : list (list R)) (appearance : Z)
    (view_dirs : list vec3) :
  is_view_dependent (config m) = true ->
  view_direction_encoding m <> None ->
  (0 <= appearance < Z.of_nat (List.length (embedding m)))%Z ->
  List.length view_dirs <> List.length gaussian_features ->
  Model_forward m gaussian_features appearance view_dirs = Raise ShapeError.
Proof.
  intros Hvd Henc Happ Hcount. unfold Model_forward.
  unfold embedding_lookup.
  destruct (Z.ltb_spec appearance 0); [lia |].
  destruct (nth_error (embedding m) (Z.to_nat appearance)) as [row |] eqn:E;
    [| apply nth_error_None in E; lia].
  cbn [rbind]. rewrite Hvd.
  destruct (view_direction_encoding m) as [enc |]; [| contradiction].
  unfold concat_rows at 1.
  assert (Hlen : forall (b : bool) (rows : list (list R)),
            List.length (if b then map F_normalize rows else rows)
            = List.length rows)
    by (intros [] rows; [apply length_map | reflexivity]).
  rewrite !Hlen, repeat_length, Nat.eqb_refl. cbn [rbind].
  unfold concat_rows.
  rewrite zip_with_length by (now rewrite !Hlen, repeat_length).
  rewrite Hlen, length_map.
  destruct (Nat.eqb_spec (List.length gaussian_features)
              (List.length view_dirs)); [congruence | reflexivity].
Qed.

Lemma Model_forward_direction_count_witness :
  Model_forward view_dependent_model
    [[0; 0; 0; 0; 0; 0; 0; 0]; [1; 0; 0; 0; 0; 0; 0; 0]] 0 [(0, 0, 1)]
  = Raise ShapeError.
Proof.
  apply Model_forward_direction_count.
  - reflexivity.
  - discriminate.
  - simpl. lia.
  - simpl. lia.
Defined.

Lemma sum_squares_nonneg (row : list R) :
  0 <= fold_right (fun x acc => x * x + acc) 0 row.
Proof.
  induction row as [| x row IH]; simpl; [lra | nra].
Qed.

Lemma sum_squares_scale (k : R) (row : list R) :
  fold_right (fun x acc => x * x + acc) 0 (scale_row k row)
  = k * k * fold_right (fun x acc => x * x + acc) 0 row.
Proof.
  unfold scale_row. induction row as [| x row IH]; simpl; [ring |].
  rewrite IH. ring.
Qed.

Lemma norm_scale (k : R) (row : list R) :
  0 <= k -> norm (scale_row k row) = k * norm row.
Proof.
  intros Hk. unfold norm. rewrite sum_squares_scale.
  rewrite sqrt_mult by (try apply sum_squares_nonneg; nra).
  now rewrite sqrt_square.
Qed.

Lemma F_normalize_scale (k : R) (row : list R) :
  0 < k -> normalize_eps <= norm row -> normalize_eps <= k * norm row ->
  F_normalize (scale_row k row) = F_normalize row.
Proof.
  intros Hk Hn Hkn. unfold F_normalize.
  rewrite norm_scale by lra.
  fold normalize_eps.
  rewrite !Rmax_left by assumption.
  assert (Heps : 0 < normalize_eps)
    by (unfold normalize_eps; apply Rinv_0_lt_compat; lra).
  unfold scale_row. rewrite map_map. apply map_ext.
  intros x. field. lra.
Qed.

(** X7.  With [normalize] set, the prediction depends on the direction of a
    feature vector only: multiplying every feature row by a positive factor
    leaves [Model.forward] unchanged, as long as the norms stay at or above
    the [1e-12] at which [F.normalize] clamps. *)
Theorem Model_forward_scale_invariant (m : Model) (k : R)
    (gaussian_features : list (list R)) (appearance : Z)
    (view_dirs : list vec3) :
  normalize (config m) = true ->
  0 < k ->
  Forall (fun row => normalize_eps <= norm row /\
                     normalize_eps <= k * norm row) gaussian_features ->
  Model_forward m (map (scale_row k) gaussian_features) appearance view_dirs
  = Model_forward m gaussian_features appearance view_dirs.
Proof.
  intros Hnorm Hk Hrows. unfold Model_forward. rewrite Hnorm.
  rewrite length_map, map_map.
  replace (map (fun row => F_normalize (scale_row k row)) gaussian_features)
    with (map F_normalize gaussian_features); [reflexivity |].
  apply map_ext_in. intros row Hrow.
  rewrite Forall_forall in Hrows. destruct (Hrows row Hrow).
  symmetry. now apply F_normalize_scale.
Qed.

Lemma Model_forward_scale_invariant_witness :
  Model_forward normalizing_model
    (map (scale_row 2) [[1; 0; 0; 0; 0; 0; 0; 0]]) 0 []
  = Model_forward normalizing_model [[1; 0; 0; 0; 0; 0; 0; 0]] 0 [].
Proof.
  assert (Hn : norm [1; 0; 0; 0; 0; 0; 0; 0] = 1).
  { unfold norm. simpl.
    replace (1 * 1 + (0 * 0 + (0 * 0 + (0 * 0 + (0 * 0 + (0 * 0
               + (0 * 0 + (0 * 0 + 0))))))))
      with 1 by ring.
    apply sqrt_1. }
  apply Model_forward_scale_invariant.
  - reflexivity.
  - lra.
  - constructor; [| constructor]. rewrite Hn. unfold normalize_eps. lra.
Defined.

(** ** More on [forward] *)

Section AnyCall.

Variable P : forall X, call X -> Prop.

Lemma holds_preprocess_call (self : RendererModule) (pc : GaussianModel)
    (cam : Camera) (scaling_modifier : R) :
  P _ (project_call self pc cam scaling_modifier) ->
  holds P (fun x => snd x = source_opacities self pc)
    (preprocess self pc cam scaling_modifier).
Proof.
  unfold preprocess, project_call, source_opacities.
  destruct (class self).
  - intros H.
    apply (holds_Vis _ _ (GSPlatRenderer_project _ _ _ _ _ _)
             (fun pr => Ret (pr, get_opacities pc))); [exact H |].
    intros pr. now constructor.
  - destruct (get_3d_filtered_scales_and_opacities pc) as [os scales].
    intros H.
    apply (holds_Vis _ _ (GSPlatRenderer_project _ _ _ _ _ _)
             (fun pr => Ret (pr, os))); [exact H |].
    intros pr. now constructor.
Qed.

Lemma holds_rasterize_call (self : RendererModule) (args : RasterArgs) :
  P _ (rasterize_simplified args) ->
  holds P (fun _ => True) (rasterize self args).
Proof.
  intros H. unfold rasterize. destruct (renderer self); [| constructor].
  apply holds_trigger; [exact H | trivial].
Qed.

(** [forward] satisfies a property of calls as soon as its projection call,
    its rasterization calls and the calls of [shade_rgb] do. *)
Lemma forward_every_call (self : RendererModule) (cam : Camera)
    (pc : GaussianModel) (bg_color : list R) (scaling_modifier : R)
    (render_types : option (list string)) :
  P _ (project_call self pc cam scaling_modifier) ->
  (forall args, P _ (rasterize_simplified args)) ->
  (forall pr, every_call P (shade_rgb self cam pc pr (visibility pr))) ->
  every_call P (forward self cam pc bg_color scaling_modifier render_types).
Proof.
  intros Hproject Hraster Hshade. unfold every_call, forward.
  eapply holds_bind; [now apply holds_preprocess_call |].
  intros [pr os0] _. cbv beta iota.
  apply holds_bind with (Q := fun _ => True).
  { destruct (anti_aliased self); [now apply holds_lift | now constructor]. }
  intros os _.
  apply holds_bind with (Q := fun _ => True).
  { match goal with |- context [if ?b then _ else _] => destruct b end;
      [| now constructor].
    eapply holds_bind; [apply Hshade |]. intros rgbs _.
    eapply holds_bind; [apply holds_rasterize_call, Hraster |].
    intros im _. now constructor. }
  intros rgb _.
  apply holds_bind with (Q := fun _ => True).
  { match goal with |- context [if ?b then _ else _] => destruct b end;
      [| now constructor].
    eapply holds_bind; [apply holds_rasterize_call, Hraster |].
    intros im _. now constructor. }
  intros idepth _.
  apply holds_bind with (Q := fun _ => True).
  { match goal with |- context [if ?b then _ else _] => destruct b end;
      [| now constructor].
    eapply holds_bind; [apply holds_rasterize_call, Hraster |].
    intros im _. now constructor. }
  intros hdepth _. now constructor.
Qed.

End AnyCall.

Lemma In_select {A} (x : A) (xs : list A) (mask : list bool) :
  In x (select xs mask) -> In x xs.
Proof.
  revert mask. induction xs as [| a xs IH]; intros [| b mask] H;
    simpl in *; try contradiction.
  destruct b; [destruct H as [-> | H]; [now left |] |]; right; eauto.
Qed.

Lemma masked_select_In {A} (x : A) (xs sel : list A) (mask : list bool) :
  masked_select xs mask = Ok sel -> In x sel -> In x xs.
Proof.
  unfold masked_select.
  destruct (List.length xs =? List.length mask)%nat; [| discriminate].
  intros [= <-]. apply In_select.
Qed.

Lemma normalized_unit (v : vec3) : v <> (0, 0, 0) ->
  unit3 (map3 (fun x => x / norm3 v) v).
Proof.
  destruct v as [[x y] z]. intros Hv. unfold unit3, norm3, map3.
  assert (Hs : 0 < x * x + y * y + z * z).
  { pose proof (Rle_0_sqr x) as Hx2. pose proof (Rle_0_sqr y) as Hy2.
    pose proof (Rle_0_sqr z) as Hz2. unfold Rsqr in *.
    destruct (Req_dec_T x 0) as [Ex | Hx];
      [destruct (Req_dec_T y 0) as [Ey | Hy];
       [destruct (Req_dec_T z 0) as [Ez | Hz]; [congruence |] |] |].
    - pose proof (Rlt_0_sqr z Hz) as H. unfold Rsqr in H. lra.
    - pose proof (Rlt_0_sqr y Hy) as H. unfold Rsqr in H. lra.
    - pose proof (Rlt_0_sqr x Hx) as H. unfold Rsqr in H. lra. }
  remember (x * x + y * y + z * z) as s eqn:Es.
  assert (Hn : 0 < sqrt s) by now apply sqrt_lt_R0.
  assert (Hnn : sqrt s * sqrt s = s) by (apply sqrt_sqrt; lra).
  remember (sqrt s) as n eqn:En.
  assert (E : x / n * (x / n) + y / n * (y / n) + z / n * (z / n) = 1).
  { replace (x / n * (x / n) + y / n * (y / n) + z / n * (z / n))
      with ((x * x + y * y + z * z) / (n * n)) by (field; lra).
    rewrite <- Es, Hnn. field. lra. }
  rewrite E. apply sqrt_1.
Qed.

Lemma difference_nonzero (p c : vec3) : p <> c -> zip3 Rminus p c <> (0, 0, 0).
Proof.
  destruct p as [[x y] z], c as [[x' y'] z']. simpl. intros H E.
  injection E as Ex Ey Ez. apply H. f_equal; [f_equal |]; lra.
Qed.

(** X8.  When no point lies at the camera centre, every view direction that
    [forward] hands to the spherical-harmonics primitive and to the shading
    model has length 1. *)
Theorem view_directions_are_unit (self : RendererModule) (cam : Camera)
    (pc : GaussianModel) (bg_color : list R) (scaling_modifier : R)
    (render_types : option (list string)) :
  (forall p, In p (get_xyz pc) -> p <> camera_center cam) ->
  every_call (on_directions (Forall unit3))
    (forward self cam pc bg_color scaling_modifier render_types).
Proof.
  intros Hxyz. apply forward_every_call; simpl; trivial.
  intros pr. unfold every_call, shade_rgb.
  apply holds_bind with (Q := fun xyz => forall p, In p xyz ->
                                                   p <> camera_center cam).
  { apply holds_lift. intros xyz Hsel p Hp. apply Hxyz.
    eapply masked_select_In; eassumption. }
  intros xyz Hvisible.
  assert (Hunit : Forall unit3
            (map (fun v => map3 (fun x => x / norm3 v) v)
               (map (fun p => zip3 Rminus p (camera_center cam)) xyz))).
  { apply Forall_map_iff, Forall_map_iff, Forall_forall.
    intros p Hp. apply normalized_unit, difference_nonzero. now apply Hvisible. }
  eapply holds_bind; [apply holds_lift with (Q := fun _ => True); trivial |].
  intros coeffs _.
  eapply holds_bind;
    [apply holds_trigger with (Q := fun _ => True); [exact Hunit | trivial] |].
  intros sh _.
  apply holds_bind with (Q := fun _ => True).
  { unfold call_model. destruct (model self); [| constructor].
    eapply holds_bind;
      [apply holds_lift with (Q := fun _ => True); trivial |].
    intros features _. apply holds_trigger; [exact Hunit | trivial]. }
  intros out _.
  eapply holds_bind; [apply holds_lift with (Q := fun _ => True); trivial |].
  intros sum _. now apply holds_lift.
Qed.

Lemma view_directions_are_unit_witness :
  every_call (on_directions (Forall unit3))
    (forward example_module example_camera example_points [0; 0; 0] 1 None).
Proof.
  apply view_directions_are_unit.
  intros p [<- | [<- | []]] E; injection E; lra.
Defined.

Lemma inverse_depth_color_range (d : R) :
  0 < 1 / (clamp_min 0 d + / 100000000) <= max_color.
Proof.
  unfold clamp_min, max_color.
  assert (H0 : 0 <= Rmax d 0) by apply Rmax_r.
  assert (He : 0 < / 100000000) by (apply Rinv_0_lt_compat; lra).
  assert (Hpos : 0 < Rmax d 0 + / 100000000) by lra.
  split.
  - apply Rdiv_lt_0_compat; lra.
  - apply Rmult_le_reg_r with (Rmax d 0 + / 100000000); [assumption |].
    unfold Rdiv. rewrite Rmult_assoc, Rinv_l by lra.
    assert (H1 : 100000000 * / 100000000 = 1) by (apply Rinv_r; lra).
    nra.
Qed.


(** X9.  In every rasterization call of [forward], for any request, the
    colours are either those of the "rgb" channel, every component within
    [0, 1], or the inverse-depth colours
    [1 / (clamp_min(depth, 0) + 1e-8)] of the projected depths, every
    component strictly positive and at most [1e8], whatever the depths (zero
    and negative depths included); so every component lies between 0 and
    [1e8]. *)
Theorem rasterized_colors_bounded (self : RendererModule) (cam : Camera)
    (pc : GaussianModel) (bg_color : list R) (scaling_modifier : R)
    (l : list string) :
  every_call
    (on_rasterize
       (fun args =>
          (Forall (Forall (in_range 0 1)) (colors args) \/
           (colors args
            = map (fun d => [1 / (clamp_min 0 d + / 100000000)])
                (depths (project_results args)) /\
            Forall (Forall (fun c => 0 < c <= max_color)) (colors args))) /\
          Forall (Forall (in_range 0 max_color)) (colors args)))
    (forward self cam pc bg_color scaling_modifier (Some l)).
Proof.
  assert (Hdepth : forall ds,
            Forall (Forall (fun c => 0 < c <= max_color))
              (inverse_depth_colors ds)).
  { intros ds. unfold inverse_depth_colors.
    apply Forall_map_iff, Forall_forall. intros d _.
    constructor; [| constructor]. apply inverse_depth_color_range. }
  assert (Hweak : forall rows,
            Forall (Forall (fun c => 0 < c <= max_color)) rows ->
            Forall (Forall (in_range 0 max_color)) rows).
  { intros rows. apply Forall_impl. intros row. apply Forall_impl.
    intros c Hc. unfold in_range. lra. }
  eapply holds_call_weaken;
    [| apply (forward_raster_calls self cam pc bg_color scaling_modifier)].
  intros X [] H; simpl in *; trivial.
  inversion H; subst; simpl;
    try (split; [right; split; [reflexivity | apply Hdepth]
                | apply Hweak, Hdepth]).
  match goal with Hs : shaded_ok _ _ _ |- _ => destruct Hs as (_ & Hr & _) end.
  split; [left |];
    (apply Forall_map_iff; eapply Forall_impl; [| exact Hr];
     intros [[x y] z] (Hx & Hy & Hz); unfold in_range, max_color in *; simpl;
     repeat (apply Forall_cons; [lra |]); apply Forall_nil).
Qed.

Lemma contains_same_names (l l' : list string) (x : string) :
  (In x l <-> In x l') -> contains l x = contains l' x.
Proof.
  intros H. destruct (contains l x) eqn:E, (contains l' x) eqn:E';
    try reflexivity.
  - apply contains_In, H, contains_In in E. congruence.
  - apply contains_In, H, contains_In in E'. congruence.
Qed.

(** X10.  [forward] reads [render_types] as a set: two lists with the same
    recognized names, in any order and with any repetitions, give the same
    program; a channel named twice is rendered once. *)
Theorem forward_reads_a_set (self : RendererModule) (cam : Camera)
    (pc : GaussianModel) (bg_color : list R) (scaling_modifier : R)
    (l l' : list string) :
  (forall x, recognized x = true -> (In x l <-> In x l')) ->
  forward self cam pc bg_color scaling_modifier (Some l)
  = forward self cam pc bg_color scaling_modifier (Some l').
Proof.
  intros H. unfold forward.
  rewrite (contains_same_names l l' "rgb") by (now apply H).
  rewrite (contains_same_names l l' "inverse_depth") by (now apply H).
  rewrite (contains_same_names l l' "hard_inverse_depth") by (now apply H).
  reflexivity.
Qed.

Lemma forward_reads_a_set_witness :
  forward example_module example_camera example_points [0; 0; 0] 1
    (Some ["inverse_depth"; "rgb"; "inverse_depth"; "mask"]%string)
  = forward example_module example_camera example_points [0; 0; 0] 1
      (Some ["rgb"; "inverse_depth"]%string).
Proof.
  apply forward_reads_a_set.
  intros x Hx. unfold recognized in Hx.
  apply orb_true_iff in Hx. destruct Hx as [Hx | Hx];
    [apply orb_true_iff in Hx; destruct Hx as [Hx | Hx] |];
    apply String.eqb_eq in Hx; subst x; simpl; intuition congruence.
Defined.

(** What a returned bundle is made of. *)
Lemma run_forward_inv (h : handler) (self : RendererModule) (cam : Camera)
    (pc : GaussianModel) (bg_color : list R) (scaling_modifier : R)
    (render_types : option (list string)) (b : Bundle) :
  run h (forward self cam pc bg_color scaling_modifier render_types) = Ok b ->
  exists pr os rgb idepth hdepth,
    h _ (project_call self pc cam scaling_modifier) = Ok pr /\
    compensated self pc pr os /\
    b = mkBundle rgb idepth hdepth (xys pr)
          (/ 2 * IZR (width cam), / 2 * IZR (height cam))
          (visibility pr) (radii pr).
Proof.
  unfold forward. intros Hrun.
  rewrite run_bind, run_preprocess in Hrun.
  destruct (h _ (project_call self pc cam scaling_modifier)) as [pr | e];
    [cbn [rbind] in Hrun | discriminate].
  rewrite run_bind, run_compensate in Hrun.
  match type of Hrun with
  | rbind ?r _ = _ => destruct r as [os | e] eqn:Hos
  end; [cbn [rbind] in Hrun | discriminate].
  rewrite run_bind in Hrun.
  match type of Hrun with
  | rbind ?r _ = _ => destruct r as [rgb | e]
  end; [cbn [rbind] in Hrun | discriminate].
  rewrite run_bind in Hrun.
  match type of Hrun with
  | rbind ?r _ = _ => destruct r as [idepth | e]
  end; [cbn [rbind] in Hrun | discriminate].
  rewrite run_bind in Hrun.
  match type of Hrun with
  | rbind ?r _ = _ => destruct r as [hdepth | e]
  end; [cbn [rbind run] in Hrun | discriminate].
  injection Hrun as <-.
  exists pr, os, rgb, idepth, hdepth. split; [reflexivity |].
  split; [| reflexivity].
  unfold compensated. destruct (anti_aliased self); congruence.
Qed.

(** X11.  Whatever is requested, a bundle [forward] returns carries the
    projection as it came: the screen positions and the radii of the
    projection call's answer, the visibility filter [radii > 0] with one
    entry per radius, and the gradient scale (width / 2, height / 2) of the
    camera. *)
Theorem bundle_carries_projection (h : handler) (self : RendererModule)
    (cam : Camera) (pc : GaussianModel) (bg_color : list R)
    (scaling_modifier : R) (render_types : option (list string))
    (b : Bundle) :
  run h (forward self cam pc bg_color scaling_modifier render_types) = Ok b ->
  exists pr,
    h _ (project_call self pc cam scaling_modifier) = Ok pr /\
    viewspace_points b = xys pr /\
    out_radii b = radii pr /\
    visibility_filter b = map (fun r => (0 <? r)%Z) (out_radii b) /\
    List.length (visibility_filter b) = List.length (out_radii b) /\
    viewspace_points_grad_scale b
    = (IZR (width cam) / 2, IZR (height cam) / 2).
Proof.
  intros Hrun.
  destruct (run_forward_inv _ _ _ _ _ _ _ _ Hrun)
    as (pr & os & rgb & idepth & hdepth & Hpr & _ & ->).
  exists pr. simpl. repeat split; try assumption.
  - unfold visibility. apply length_map.
  - f_equal; field.
Qed.

Lemma bundle_carries_projection_witness :
  exists b,
    run example_handler
      (forward example_module example_camera example_points [0; 0; 0] 1
         (Some ["inverse_depth"%string])) = Ok b /\
    viewspace_points b = [(1, 1); (0, 0)] /\
    out_radii b = [3%Z; 0%Z] /\
    visibility_filter b = [true; false] /\
    viewspace_points_grad_scale b = (4 / 2, 2 / 2).
Proof.
  assert (Hrun : exists b,
    run example_handler
      (forward example_module example_camera example_points [0; 0; 0] 1
         (Some ["inverse_depth"%string])) = Ok b)
    by (eexists; reflexivity).
  destruct Hrun as [b Hrun]. exists b. split; [exact Hrun |].
  destruct (bundle_carries_projection _ _ _ _ _ _ _ _ Hrun)
    as (pr & Hpr & Hxys & Hradii & Hvis & _ & Hscale).
  simpl in Hpr. injection Hpr as <-.
  rewrite Hvis, Hradii, Hxys, Hscale. repeat split.
Defined.

(** ** The module before [setup] *)

Lemma never_returns {A} (h : handler) (p : prog A) :
  holds (fun _ _ => True) (fun _ => False) p -> exists e, run h p = Raise e.
Proof.
  intros Hp. destruct (run h p) as [a | e] eqn:E; [| now exists e].
  destruct (holds_run _ _ _ h a Hp E).
Qed.

Lemma holds_bind_never {A B} (P : forall X, call X -> Prop) (Q : B -> Prop)
    (p : prog A) (f : A -> prog B) :
  holds P (fun _ => False) p -> holds P Q (bind p f).
Proof.
  intros Hp. eapply holds_bind; [exact Hp |]. intros a [].
Qed.

Lemma shade_rgb_unset (self : RendererModule) (cam : Camera)
    (pc : GaussianModel) (pr : ProjectionResults) (mask : list bool) :
  model self = None ->
  holds (fun _ _ => True) (fun _ => False) (shade_rgb self cam pc pr mask).
Proof.
  intros Hmodel. unfold shade_rgb.
  eapply holds_bind; [apply holds_any |]. intros xyz _.
  eapply holds_bind; [apply holds_any |]. intros coeffs _.
  eapply holds_bind; [apply holds_any |]. intros sh _.
  apply holds_bind_never. unfold call_model. rewrite Hmodel. constructor.
Qed.

Lemma rasterize_unset (self : RendererModule) (args : RasterArgs) :
  renderer self = false -> rasterize self args = Throw AttributeError.
Proof. intros H. unfold rasterize. now rewrite H. Qed.

(** X12.  On a module that has not been set up, [forward] never returns a
    bundle once a recognized channel is requested: every run ends in an
    exception, whatever the collaborators answer.  With no recognized channel
    in the request it needs no set-up: after the projection call it returns
    the bundle without images. *)
Theorem forward_before_setup (self : RendererModule) (cam : Camera)
    (pc : GaussianModel) (bg_color : list R) (scaling_modifier : R)
    (l : list string) (h : handler) :
  model self = None -> renderer self = false ->
  ((exists x, In x l /\ recognized x = true) ->
   exists e,
     run h (forward self cam pc bg_color scaling_modifier (Some l))
     = Raise e) /\
  ((forall x, In x l -> recognized x = false) ->
   forall pr os,
     h _ (project_call self pc cam scaling_modifier) = Ok pr ->
     compensated self pc pr os ->
     run h (forward self cam pc bg_color scaling_modifier (Some l))
     = Ok (bare_bundle cam pr)).
Proof.
  intros Hmodel Hrenderer. split.
  - intros (x & Hin & Hx). apply never_returns. unfold forward.
    eapply holds_bind; [apply holds_any |]. intros [pr os0] _. cbv beta iota.
    eapply holds_bind; [apply holds_any |]. intros os _.
    unfold recognized in Hx.
    apply orb_true_iff in Hx. destruct Hx as [Hx | Hx];
      [apply orb_true_iff in Hx; destruct Hx as [Hx | Hx] |];
      apply String.eqb_eq in Hx; subst x; apply contains_In in Hin.
    + rewrite Hin. apply holds_bind_never, holds_bind_never.
      now apply shade_rgb_unset.
    + eapply holds_bind; [apply holds_any |]. intros rgb _.
      rewrite Hin. apply holds_bind_never, holds_bind_never.
      rewrite rasterize_unset by assumption. constructor.
    + eapply holds_bind; [apply holds_any |]. intros rgb _.
      eapply holds_bind; [apply holds_any |]. intros idepth _.
      rewrite Hin. apply holds_bind_never, holds_bind_never.
      rewrite rasterize_unset by assumption. constructor.
  - intros Hnone pr os Hpr Hos.
    assert (Hno : forall x, recognized x = true -> contains l x = false).
    { intros x Hx. destruct (contains l x) eqn:E; [| reflexivity].
      apply contains_In, Hnone in E. congruence. }
    unfold forward.
    rewrite !Hno by reflexivity.
    rewrite run_bind, run_preprocess, Hpr. cbn [rbind].
    rewrite run_bind, run_compensate.
    unfold compensated in Hos.
    destruct (anti_aliased self); [rewrite Hos | ]; reflexivity.
Qed.

Lemma forward_before_setup_witness :
  (exists e,
     run example_handler
       (forward fresh_module example_camera example_points [0; 0; 0] 1
          (Some ["depth"; "rgb"]%string)) = Raise e) /\
  run example_handler
    (forward fresh_module example_camera example_points [0; 0; 0] 1
       (Some ["depth"]%string))
  = Ok (bare_bundle example_camera example_projection).
Proof.
  split.
  - apply (proj1 (forward_before_setup fresh_module example_camera
                    example_points [0; 0; 0] 1 ["depth"; "rgb"]%string
                    example_handler eq_refl eq_refl)).
    exists "rgb"%string. simpl. auto.
  - apply (proj2 (forward_before_setup fresh_module example_camera
                    example_points [0; 0; 0] 1 ["depth"]%string
                    example_handler eq_refl eq_refl))
      with (os := [/ 2 * / 2; / 4 * 1]).
    + intros x [<- | []]. reflexivity.
    + reflexivity.
    + reflexivity.
Defined.

(** ** The Mip subclass *)

(** X13.  The Mip module differs from the plain one in [preprocess] only:
    its [forward] is the plain module's [forward] on the point cloud whose
    scales and opacities are the 3D-filtered ones; and before [warm_up] steps
    both classes hand the unfiltered point cloud to the base renderer. *)
Theorem mip_is_plain_on_filtered_points (self : RendererModule)
    (cam : Camera) (pc : GaussianModel) (bg_color : list R)
    (scaling_modifier : R) (render_types : option (list string)) (step : Z) :
  forward (set_class self Mip) cam pc bg_color scaling_modifier render_types
  = forward (set_class self Plain) cam (filtered_points pc) bg_color
      scaling_modifier render_types /\
  ((step < warm_up (optimization_config self))%Z ->
   training_forward (set_class self Mip) step cam pc bg_color
     scaling_modifier render_types
   = training_forward (set_class self Plain) step cam pc bg_color
       scaling_modifier render_types).
Proof.
  split.
  - unfold forward, preprocess, shade_rgb, rasterize, call_model,
      filtered_points.
    simpl. destruct (get_3d_filtered_scales_and_opacities pc) as [os scales].
    reflexivity.
  - intros Hstep. unfold training_forward. simpl.
    now rewrite (proj2 (Z.ltb_lt _ _) Hstep).
Qed.

Lemma mip_is_plain_on_filtered_points_witness :
  training_forward (set_class example_module Mip) 0 example_camera
    example_points [0; 0; 0] 1 None
  = training_forward (set_class example_module Plain) 0 example_camera
      example_points [0; 0; 0] 1 None.
Proof.
  apply (proj2 (mip_is_plain_on_filtered_points example_module example_camera
                  example_points [0; 0; 0] 1 None 0)).
  simpl. lia.
Defined.

(** ** The available outputs *)

(** X14.  The names [get_available_outputs] offers are exactly the channel
    names [forward] recognizes, and each one's key is where [forward] puts
    that channel: whenever [forward] returns, the bundle has an image under
    the key of an offered name if and only if that name was requested. *)
Theorem available_outputs_are_rendered (self : RendererModule) (cam : Camera)
    (pc : GaussianModel) (bg_color : list R) (scaling_modifier : R)
    (l : list string) :
  (forall name, In name (map fst get_available_outputs)
                <-> recognized name = true) /\
  forall (h : handler) (b : Bundle) (name : string)
         (info : RendererOutputInfo),
    In (name, info) get_available_outputs ->
    run h (forward self cam pc bg_color scaling_modifier (Some l)) = Ok b ->
    (bundle_image b (info_key info) <> None <-> In name l).
Proof.
  split.
  - intros name. unfold recognized. simpl.
    rewrite !orb_true_iff, !String.eqb_eq. intuition congruence.
  - intros h b name info Hin Hrun.
    pose proof (holds_run _ _ _ h b
                  (forward_channels self cam pc bg_color scaling_modifier l)
                  Hrun) as (Hrgb & Hid & Hhd).
    unfold populated_iff in *. rewrite contains_In in Hrgb, Hid, Hhd.
    simpl in Hin.
    destruct Hin as [E | [E | [E | []]]]; injection E as <- <-;
      unfold bundle_image; simpl; assumption.
Qed.

Lemma available_outputs_are_rendered_witness :
  exists b,
    run example_handler
      (forward example_module example_camera example_points [0; 0; 0] 1
         (Some ["hard_inverse_depth"%string])) = Ok b /\
    bundle_image b "hard_inverse_depth" <> None /\
    ~ bundle_image b "render" <> None.
Proof.
  assert (Hrun : exists b,
    run example_handler
      (forward example_module example_camera example_points [0; 0; 0] 1
         (Some ["hard_inverse_depth"%string])) = Ok b)
    by (eexists; reflexivity).
  destruct Hrun as [b Hrun]. exists b. split; [exact Hrun |].
  pose proof (proj2 (available_outputs_are_rendered example_module
                       example_camera example_points [0; 0; 0] 1
                       ["hard_inverse_depth"%string]) example_handler b)
    as H.
  split.
  - apply (H "hard_inverse_depth"%string
             (mkRendererOutputInfo "hard_inverse_depth" (Some GRAY))).
    + simpl. auto.
    + exact Hrun.
    + simpl. auto.
  - intros Hrender.
    apply (H "rgb"%string (mkRendererOutputInfo "render" None)) in Hrender.
    + simpl in Hrender. destruct Hrender as [E | []]. discriminate.
    + simpl. auto.
    + exact Hrun.
Defined.

(** ** Loading and setting up, again *)

Lemma getitem_missing (d : StateDict) (key : string) :
  (forall v, ~ In (key, v) d) -> getitem d key = Raise KeyError.
Proof.
  induction d as [| [k v] d IH]; intros H; simpl; [reflexivity |].
  destruct (String.eqb_spec k key) as [-> | _].
  - exfalso. apply (H v). now left.
  - apply IH. intros v' Hv'. apply (H v'). now right.
Qed.

(** X15.  [load_state_dict] on a state dict without the key
    [model.embedding.weight] raises [KeyError], leaves the module as it was
    and never calls the framework load; and when the key is there but the
    model cannot be rebuilt, the exception of the rebuild is raised with
    [n_appearances] already overwritten, again without a framework load. *)
Theorem load_state_dict_failures (init : Initializer)
    (super_load : RendererModule -> StateDict -> bool -> method IncompatibleKeys)
    (self : RendererModule) (state_dict : StateDict) (strict : bool) :
  ((forall v, ~ In ("model.embedding.weight"%string, v) state_dict) ->
   load_state_dict init super_load self state_dict strict
   = (self, Raise KeyError)) /\
  (forall w e,
     getitem state_dict "model.embedding.weight" = Ok w ->
     Model_setup init (set_n_appearances (model_config self) (shape0 w))
     = Raise e ->
     load_state_dict init super_load self state_dict strict
     = (set_model_config self
          (set_n_appearances (model_config self) (shape0 w)),
        Raise e)).
Proof.
  split.
  - intros Hmissing. unfold load_state_dict.
    now rewrite getitem_missing.
  - intros w e Hkey Hsetup. unfold load_state_dict, _setup_model.
    rewrite Hkey. simpl. now rewrite Hsetup.
Qed.

Lemma load_state_dict_failures_witness :
  load_state_dict example_initializer example_super_load example_module
    [("model.network.weight"%string, Tensor1 [0])] true
  = (example_module, Raise KeyError).
Proof.
  apply (proj1 (load_state_dict_failures example_initializer
                  example_super_load example_module
                  [("model.network.weight"%string, Tensor1 [0])] true)).
  intros v [E | []]. discriminate.
Defined.

(** X16.  [setup] without a lightning module changes nothing; with one, it
    always builds the model anew: a model that was there before (trained, or
    loaded from a checkpoint) does not survive a successful [setup]. *)
Theorem setup_rebuilds_the_model (init : Initializer) (self : RendererModule)
    (stage : string) (lm : LightningModule) (previous : Model) :
  setup init self stage None = (self, Ok tt) /\
  forall self',
    setup init self stage (Some lm) = (self', Ok tt) ->
    setup init (set_model self previous) stage (Some lm) = (self', Ok tt) /\
    exists m,
      model self' = Some m /\ Model_setup init (model_config self') = Ok m.
Proof.
  split; [reflexivity |].
  intros self'. unfold setup, _setup_model. simpl.
  destruct (n_appearances (model_config self) <=? 0)%Z; simpl;
    match goal with
    | |- context [Model_setup init ?c] =>
        destruct (Model_setup init c) as [m | e] eqn:E
    end;
    intros [= <-]; (split; [reflexivity |]); exists m; simpl; auto.
Qed.

Lemma setup_rebuilds_the_model_witness :
  exists self',
    setup example_initializer fresh_module "fit"
      (Some example_lightning_module) = (self', Ok tt) /\
    setup example_initializer (set_model fresh_module normalizing_model) "fit"
      (Some example_lightning_module) = (self', Ok tt).
Proof.
  eexists. split; [reflexivity |].
  apply (proj2 (setup_rebuilds_the_model example_initializer fresh_module
                  "fit" example_lightning_module normalizing_model)).
  reflexivity.
Defined.

(** ** Configurations, modules and the [ModelConfig] they share *)

Lemma inferred_n_appearances_pos (lm : LightningModule) :
  (1 <= inferred_n_appearances lm)%Z.
Proof.
  unfold inferred_n_appearances.
  match goal with |- context [max_input_id_of ?v] =>
    destruct (inferred_count v) as (H & _)
  end.
  exact H.
Qed.

Lemma setup_unconfigured (init : Initializer) (self : RendererModule)
    (stage : string) (lm : LightningModule) :
  (n_appearances (model_config self) <= 0)%Z ->
  buildable (model_config self) ->
  exists m,
    setup init self stage (Some lm)
    = (set_model
         (set_model_config self
            (set_n_appearances (model_config self)
               (inferred_n_appearances lm))) m, Ok tt) /\
    List.length (embedding m) = Z.to_nat (inferred_n_appearances lm).
Proof.
  intros Hunset [Hdims Hskips].
  pose proof (inferred_n_appearances_pos lm) as Hpos.
  set (self1 := set_model_config self
                  (set_n_appearances (model_config self)
                     (inferred_n_appearances lm))).
  assert (Hvalid : valid_config (model_config self1))
    by (unfold valid_config; simpl; repeat split; [lia | assumption ..]).
  destruct (_setup_model_ok init self1 Hvalid) as (m & Hsetup & _ & Hrows).
  exists m. split; [| exact Hrows].
  unfold setup. rewrite (proj2 (Z.leb_le _ _) Hunset).
  rewrite <- Hsetup. unfold self1, inferred_n_appearances.
  destruct (appearance_group_ids lm); reflexivity.
Qed.

Lemma setup_configured (init : Initializer) (self : RendererModule)
    (stage : string) (lm : LightningModule) :
  (0 < n_appearances (model_config self))%Z ->
  buildable (model_config self) ->
  exists m,
    setup init self stage (Some lm) = (set_model self m, Ok tt) /\
    List.length (embedding m) = Z.to_nat (n_appearances (model_config self)).
Proof.
  intros Hn [Hdims Hskips].
  assert (Hvalid : valid_config (model_config self))
    by (unfold valid_config; repeat split; [lia | assumption ..]).
  destruct (_setup_model_ok init self Hvalid) as (m & Hsetup & _ & Hrows).
  exists m. split; [| exact Hrows].
  unfold setup.
  destruct (Z.leb_spec (n_appearances (model_config self)) 0); [lia |].
  exact Hsetup.
Qed.

Lemma store_set_same (st : store) (r : ref) (c : ModelConfig) :
  store_set st r c r = c.
Proof. unfold store_set. now rewrite Nat.eqb_refl. Qed.

Lemma store_set_other (st : store) (r r' : ref) (c : ModelConfig) :
  r' <> r -> store_set st r c r' = st r'.
Proof.
  intros H. unfold store_set. now rewrite (proj2 (Nat.eqb_neq _ _) H).
Qed.

Lemma instantiate_again (st st' : store)
    (self self1 : GSplatAppearanceEmbeddingRenderer) (o : ModuleObject) :
  instantiate st self = (self1, Ok o) ->
  model_config_ref o = cfg_model self1 /\
  instantiate st' self1 = (self1, Ok (construct_module st' self1)).
Proof.
  unfold instantiate.
  destruct (renderer_class self) eqn:Hclass.
  - destruct (legacy_model_config self) as [r |] eqn:Hm.
    + simpl.
      destruct (legacy_optimization_config self) as [c |] eqn:Ho;
        [| discriminate].
      intros [= <- <-]. simpl.
      rewrite Hclass, Hm, Ho. split; reflexivity.
    + intros [= <- <-]. simpl. rewrite Hclass, Hm. split; reflexivity.
  - intros [= <- <-]. simpl. rewrite Hclass. split; reflexivity.
Qed.

(** X17.  The count one module infers in [setup] is written into the
    [ModelConfig] object of the configuration it was instantiated from: after
    it, the configuration carries the inferred count, and every module
    instantiated from that configuration is built with that many table rows,
    whatever data its own [setup] sees.  No other object of the store
    changes. *)
Theorem setup_writes_through (init : Initializer) (st : store)
    (self self1 : GSplatAppearanceEmbeddingRenderer) (o1 : ModuleObject)
    (stage : string) (lm : LightningModule) :
  instantiate st self = (self1, Ok o1) ->
  (n_appearances (st (cfg_model self1)) <= 0)%Z ->
  buildable (st (cfg_model self1)) ->
  exists st' o1',
    setup_object init st o1 stage (Some lm) = (st', o1', Ok tt) /\
    n_appearances (st' (cfg_model self1)) = inferred_n_appearances lm /\
    (forall r, r <> cfg_model self1 -> st' r = st r) /\
    exists o2,
      instantiate st' self1 = (self1, Ok o2) /\
      forall init2 stage2 lm2,
      exists st'' o2' m2,
        setup_object init2 st' o2 stage2 (Some lm2) = (st'', o2', Ok tt) /\
        model (attributes o2') = Some m2 /\
        List.length (embedding m2) = Z.to_nat (inferred_n_appearances lm) /\
        n_appearances (st'' (cfg_model self1)) = inferred_n_appearances lm.
Proof.
  intros Hinst Hunset Hbuild.
  destruct (instantiate_again st st _ _ _ Hinst) as [Href _].
  pose proof (inferred_n_appearances_pos lm) as Hpos.
  destruct (setup_unconfigured init (read_module st o1) stage lm)
    as (m & Hsetup & Hrows).
  { unfold read_module. simpl. now rewrite Href. }
  { unfold read_module. simpl. now rewrite Href. }
  unfold setup_object, on_object. rewrite Hsetup.
  do 2 eexists. split; [reflexivity |].
  rewrite Href. split; [| split].
  - rewrite store_set_same. reflexivity.
  - intros r Hr. now apply store_set_other.
  - set (st' := store_set st (cfg_model self1) _).
    destruct (instantiate_again st st' _ _ _ Hinst) as [_ Hagain].
    eexists. split; [exact Hagain |].
    intros init2 stage2 lm2.
    assert (Hst' : st' (cfg_model self1)
                   = set_n_appearances (st (cfg_model self1))
                       (inferred_n_appearances lm)).
    { unfold st'. rewrite store_set_same. unfold read_module. simpl.
      now rewrite Href. }
    destruct (setup_configured init2
                (read_module st' (construct_module st' self1)) stage2 lm2)
      as (m2 & Hsetup2 & Hrows2).
    { unfold read_module. simpl. rewrite Hst'. simpl. lia. }
    { unfold read_module. simpl. rewrite Hst'. exact Hbuild. }
    rewrite Hsetup2.
    do 2 eexists. exists m2. split; [reflexivity |]. simpl.
    split; [reflexivity |]. split.
    + rewrite Hrows2. unfold read_module. simpl. now rewrite Hst'.
    + rewrite store_set_same, Hst'. reflexivity.
Qed.

(** The default configuration, with nothing inferred yet, at reference 0:
    after the set-up of one module on ids 0, 2 and 1 the configuration says 3,
    and a second module from it, set up on ids 0 and 5, has 3 rows. *)
Lemma setup_writes_through_witness :
  exists st' o1' o2 st'' o2' m2,
    setup_object example_initializer example_store
      (construct_module example_store example_renderer) "fit"
      (Some example_lightning_module) = (st', o1', Ok tt) /\
    n_appearances (st' 0%nat) = 3%Z /\
    instantiate st' example_renderer = (example_renderer, Ok o2) /\
    setup_object example_initializer st' o2 "fit"
      (Some wide_lightning_module) = (st'', o2', Ok tt) /\
    model (attributes o2') = Some m2 /\
    List.length (embedding m2) = 3%nat.
Proof.
  destruct (setup_writes_through example_initializer example_store
              example_renderer example_renderer
              (construct_module example_store example_renderer) "fit"
              example_lightning_module)
    as (st' & o1' & Hsetup & Hn & _ & o2 & Hinst & Hsecond).
  - reflexivity.
  - simpl. lia.
  - split; [simpl; lia | constructor].
  - destruct (Hsecond example_initializer "fit"%string wide_lightning_module)
      as (st'' & o2' & m2 & Hsetup2 & Hm2 & Hrows & _).
    exists st', o1', o2, st'', o2', m2. repeat split; assumption.
Defined.

(** X18.  A configuration that carries the attributes of a previous version
    ([model_config], [optimization_config]): the plain class instantiates the
    module from them and overwrites its own [model] and [optimization] with
    them; if only [model_config] is there it raises [AttributeError], with
    [model] already overwritten; the Mip class ignores both and instantiates
    from [model] and [optimization] as they are.  An instantiated module is
    not set up. *)
Theorem instantiate_previous_version (st : store)
    (self : GSplatAppearanceEmbeddingRenderer) (r : ref) :
  legacy_model_config self = Some r ->
  (renderer_class self = Plain ->
   forall c, legacy_optimization_config self = Some c ->
   exists o,
     instantiate st self
     = (set_cfg_optimization (set_cfg_model self r) c, Ok o) /\
     model_config_ref o = r /\
     read_module st o
     = init_module Plain (cfg_anti_aliased self) (st r) c
         (cfg_filter_2d_kernel_size self)) /\
  (renderer_class self = Plain ->
   legacy_optimization_config self = None ->
   instantiate st self = (set_cfg_model self r, Raise AttributeError)) /\
  (renderer_class self = Mip ->
   exists o,
     instantiate st self = (self, Ok o) /\
     model_config_ref o = cfg_model self /\
     read_module st o
     = init_module Mip (cfg_anti_aliased self) (st (cfg_model self))
         (cfg_optimization self) (cfg_filter_2d_kernel_size self)).
Proof.
  intros Hlegacy. unfold instantiate. split; [| split].
  - intros Hclass c Hopt. rewrite Hclass, Hlegacy. simpl. rewrite Hopt.
    eexists. split; [reflexivity |].
    unfold read_module, construct_module, init_module. simpl.
    rewrite ?Hclass. split; reflexivity.
  - intros Hclass Hopt. rewrite Hclass, Hlegacy. simpl. now rewrite Hopt.
  - intros Hclass. rewrite Hclass.
    eexists. split; [reflexivity |].
    unfold read_module, construct_module, init_module. simpl.
    rewrite ?Hclass. split; reflexivity.
Qed.

Lemma instantiate_previous_version_witness :
  (exists o,
     instantiate example_store (legacy_renderer Plain)
     = (set_cfg_optimization (set_cfg_model (legacy_renderer Plain) 1%nat)
          growing_optimization, Ok o) /\
     model_config_ref o = 1%nat) /\
  (exists o,
     instantiate example_store (legacy_renderer Mip)
     = (legacy_renderer Mip, Ok o) /\
     model_config_ref o = 0%nat).
Proof.
  split.
  - destruct (proj1 (instantiate_previous_version example_store
                       (legacy_renderer Plain) 1%nat eq_refl)
                eq_refl growing_optimization eq_refl)
      as (o & H & Href & _).
    now exists o.
  - destruct (proj2 (proj2 (instantiate_previous_version example_store
                              (legacy_renderer Mip) 1%nat eq_refl))
                eq_refl)
      as (o & H & Href & _).
    now exists o.
Defined.

(** ** The mesh extraction script *)

(** X19.  Run as a program, the script calls [main] in a process whose
    [OMP_NUM_THREADS] is the caller's value if there was one and "4"
    otherwise, every other variable as it was and nothing printed yet; it
    ends as [main] ends (an exception is raised again, the same one), and it
    prints after [main], exactly when [main] raised an [Exception], the one
    traceback. *)
Theorem script_runs_main (main : process -> process * outcome)
    (format_exc : exn -> string) (p : process) :
  exists p0 p1 o,
    main p0 = (p1, o) /\
    (environ p "OMP_NUM_THREADS" = None ->
     environ p0 "OMP_NUM_THREADS" = Some "4"%string) /\
    (forall key, (key <> "OMP_NUM_THREADS"%string
                  \/ environ p "OMP_NUM_THREADS" <> None) ->
                 environ p0 key = environ p key) /\
    printed p0 = printed p /\
    gs2d_mesh_extraction "__main__" main format_exc p
    = (mkProcess (environ p1) (printed p1 ++ traceback_lines format_exc o),
       o).
Proof.
  unfold gs2d_mesh_extraction. simpl String.eqb.
  set (p0 := match environ p "OMP_NUM_THREADS" with
             | None => setenv p "OMP_NUM_THREADS" "4"
             | Some _ => p
             end).
  destruct (main p0) as [p1 o] eqn:Hmain.
  exists p0, p1, o. split; [exact Hmain |].
  split; [| split; [| split]].
  - intros Hnone. unfold p0. rewrite Hnone. reflexivity.
  - intros key Hkey. unfold p0.
    destruct (environ p "OMP_NUM_THREADS") eqn:E; [reflexivity |].
    destruct Hkey as [Hkey | Hkey]; [| contradiction].
    simpl. now rewrite (proj2 (String.eqb_neq _ _) Hkey).
  - unfold p0. now destruct (environ p "OMP_NUM_THREADS").
  - destruct o as [| [e | name]]; simpl.
    + rewrite app_nil_r. now destruct p1.
    + reflexivity.
    + rewrite app_nil_r. now destruct p1.
Qed.

Lemma script_runs_main_witness :
  snd (gs2d_mesh_extraction "__main__" failing_main (fun _ => "Traceback"%string)
         (mkProcess (fun _ => None) []))
  = Raised (AnException ValueError) /\
  printed (fst (gs2d_mesh_extraction "__main__" failing_main
                  (fun _ => "Traceback"%string)
                  (mkProcess (fun _ => None) [])))
  = ["4"; "Traceback"]%string.
Proof.
  destruct (script_runs_main failing_main (fun _ => "Traceback"%string)
              (mkProcess (fun _ => None) []))
    as (p0 & p1 & o & Hmain & Henv & _ & Hprinted & Hscript).
  rewrite Hscript. unfold failing_main in Hmain.
  rewrite (Henv eq_refl) in Hmain. injection Hmain as <- <-.
  simpl. rewrite Hprinted. split; reflexivity.
Defined.

(** ** How many calls [forward] makes *)

Section AtMost.

Variable P : forall X, call X -> Prop.

Lemma at_most_weaken {A} (n m : nat) (p : prog A) :
  (n <= m)%nat -> at_most P n p -> at_most P m p.
Proof.
  intros Hle Hp. revert m Hle.
  induction Hp as [n a | n e | n X c k _ IH | n X c k Hc _ IH];
    intros m Hle.
  - constructor.
  - constructor.
  - destruct m as [| m]; [lia |]. apply at_most_hit.
    intros x. apply IH. lia.
  - apply at_most_miss; [assumption |]. intros x. now apply IH.
Qed.

Lemma at_most_bind {A B} (n m : nat) (p : prog A) (f : A -> prog B) :
  at_most P n p -> (forall a, at_most P m (f a)) ->
  at_most P (n + m) (bind p f).
Proof.
  intros Hp Hf.
  induction Hp as [n a | n e | n X c k _ IH | n X c k Hc _ IH]; simpl.
  - apply at_most_weaken with m; [lia | apply Hf].
  - constructor.
  - apply at_most_hit. exact IH.
  - apply at_most_miss; assumption.
Qed.

Lemma at_most_lift {A} (r : result A) : at_most P 0 (lift r).
Proof. destruct r; constructor. Qed.

Lemma at_most_trigger_hit {X} (c : call X) : at_most P 1 (trigger c).
Proof. apply at_most_hit. intros x. constructor. Qed.

Lemma at_most_trigger_miss {X} (c : call X) : ~ P X c -> at_most P 0 (trigger c).
Proof. intros H. apply at_most_miss; [exact H |]. intros x. constructor. Qed.

End AtMost.

Lemma at_most_preprocess (P : forall X, call X -> Prop)
    (self : RendererModule) (pc : GaussianModel) (cam : Camera)
    (scaling_modifier : R) :
  (forall X (c : call X), is_project_call c -> ~ P X c) ->
  at_most P 0 (preprocess self pc cam scaling_modifier).
Proof.
  intros HP. unfold preprocess. destruct (class self).
  - apply (at_most_miss P 0 (GSPlatRenderer_project _ _ _ _ _ _)
             (fun pr => Ret (pr, get_opacities pc))).
    + apply HP. exact I.
    + intros pr. constructor.
  - destruct (get_3d_filtered_scales_and_opacities pc) as [os scales].
    apply (at_most_miss P 0 (GSPlatRenderer_project _ _ _ _ _ _)
             (fun pr => Ret (pr, os))).
    + apply HP. exact I.
    + intros pr. constructor.
Qed.

Lemma shade_rgb_one_model_call (self : RendererModule) (cam : Camera)
    (pc : GaussianModel) (pr : ProjectionResults) (mask : list bool) :
  at_most (@is_model_call) 1 (shade_rgb self cam pc pr mask).
Proof.
  unfold shade_rgb.
  apply (at_most_bind _ 0 1); [apply at_most_lift |]. intros xyz.
  apply (at_most_bind _ 0 1); [apply at_most_lift |]. intros coeffs.
  apply (at_most_bind _ 0 1);
    [apply at_most_trigger_miss; simpl; tauto |]. intros sh.
  apply (at_most_bind _ 1 0).
  { unfold call_model. destruct (model self); [| constructor].
    apply (at_most_bind _ 0 1); [apply at_most_lift |]. intros features.
    apply at_most_trigger_hit. }
  intros out.
  apply (at_most_bind _ 0 0); [apply at_most_lift |]. intros sum.
  apply at_most_lift.
Qed.

Lemma shade_rgb_no_rasterize (self : RendererModule) (cam : Camera)
    (pc : GaussianModel) (pr : ProjectionResults) (mask : list bool) :
  at_most (@is_rasterize_call) 0 (shade_rgb self cam pc pr mask).
Proof.
  unfold shade_rgb.
  apply (at_most_bind _ 0 0); [apply at_most_lift |]. intros xyz.
  apply (at_most_bind _ 0 0); [apply at_most_lift |]. intros coeffs.
  apply (at_most_bind _ 0 0);
    [apply at_most_trigger_miss; simpl; tauto |]. intros sh.
  apply (at_most_bind _ 0 0).
  { unfold call_model. destruct (model self); [| constructor].
    apply (at_most_bind _ 0 0); [apply at_most_lift |]. intros features.
    apply at_most_trigger_miss. simpl. tauto. }
  intros out.
  apply (at_most_bind _ 0 0); [apply at_most_lift |]. intros sum.
  apply at_most_lift.
Qed.

Lemma at_most_rasterize_hit (self : RendererModule) (args : RasterArgs) :
  at_most (@is_rasterize_call) 1 (rasterize self args).
Proof.
  unfold rasterize. destruct (renderer self); [| constructor].
  apply at_most_trigger_hit.
Qed.

Lemma at_most_rasterize_miss (self : RendererModule) (args : RasterArgs) :
  at_most (@is_model_call) 0 (rasterize self args).
Proof.
  unfold rasterize. destruct (renderer self); [| constructor].
  apply at_most_trigger_miss. simpl. tauto.
Qed.

Lemma forward_at_most (self : RendererModule) (cam : Camera)
    (pc : GaussianModel) (bg_color : list R) (scaling_modifier : R)
    (l : list string) :
  at_most (@is_model_call) (requested l "rgb")
    (forward self cam pc bg_color scaling_modifier (Some l)) /\
  at_most (@is_rasterize_call)
    (requested l "rgb" + (requested l "inverse_depth"
                          + requested l "hard_inverse_depth"))
    (forward self cam pc bg_color scaling_modifier (Some l)) /\
  at_most (@is_rasterize_call) 3
    (forward self cam pc bg_color scaling_modifier (Some l)).
Proof.
  assert (Hraster : at_most (@is_rasterize_call)
    (requested l "rgb" + (requested l "inverse_depth"
                          + requested l "hard_inverse_depth"))
    (forward self cam pc bg_color scaling_modifier (Some l))).
  { unfold forward, requested.
    apply (at_most_bind _ 0);
      [apply at_most_preprocess; intros X []; simpl; tauto |].
    intros [pr os0]. cbv beta iota.
    apply (at_most_bind _ 0).
    { destruct (anti_aliased self); [apply at_most_lift | constructor]. }
    intros os.
    apply at_most_bind.
    { destruct (contains l "rgb"); [| constructor].
      apply (at_most_bind _ 0 1); [apply shade_rgb_no_rasterize |].
      intros rgbs.
      apply (at_most_bind _ 1 0); [apply at_most_rasterize_hit |].
      intros im. constructor. }
    intros rgb.
    apply at_most_bind.
    { destruct (contains l "inverse_depth"); [| constructor].
      apply (at_most_bind _ 1 0); [apply at_most_rasterize_hit |].
      intros im. constructor. }
    intros idepth.
    replace (if contains l "hard_inverse_depth" then 1%nat else 0%nat)
      with ((if contains l "hard_inverse_depth" then 1 else 0) + 0)%nat
      by lia.
    apply at_most_bind; [| intros hdepth; constructor].
    destruct (contains l "hard_inverse_depth"); [| constructor].
    apply (at_most_bind _ 1 0); [apply at_most_rasterize_hit |].
    intros im. constructor. }
  split; [| split; [exact Hraster |]].
  - unfold forward, requested.
    apply (at_most_bind _ 0);
      [apply at_most_preprocess; intros X []; simpl; tauto |].
    intros [pr os0]. cbv beta iota.
    apply (at_most_bind _ 0).
    { destruct (anti_aliased self); [apply at_most_lift | constructor]. }
    intros os.
    replace (if contains l "rgb" then 1%nat else 0%nat)
      with ((if contains l "rgb" then 1 else 0) + 0)%nat by lia.
    apply at_most_bind.
    { destruct (contains l "rgb"); [| constructor].
      apply (at_most_bind _ 1 0); [apply shade_rgb_one_model_call |].
      intros rgbs.
      apply (at_most_bind _ 0 0); [apply at_most_rasterize_miss |].
      intros im. constructor. }
    intros rgb.
    apply (at_most_bind _ 0 0).
    { destruct (contains l "inverse_depth"); [| constructor].
      apply (at_most_bind _ 0 0); [apply at_most_rasterize_miss |].
      intros im. constructor. }
    intros idepth.
    apply (at_most_bind _ 0 0); [| intros hdepth; constructor].
    destruct (contains l "hard_inverse_depth"); [| constructor].
    apply (at_most_bind _ 0 0); [apply at_most_rasterize_miss |].
    intros im. constructor.
  - eapply at_most_weaken; [| exact Hraster].
    unfold requested.
    destruct (contains l "rgb"), (contains l "inverse_depth"),
      (contains l "hard_inverse_depth"); simpl; lia.
Qed.

Lemma at_most_trace (P : forall X, call X -> Prop) (b : any_call -> bool)
    {A} (n : nat) (p : prog A) (h : handler) :
  (forall X (c : call X), b (Called c) = true -> P X c) ->
  at_most P n p -> (count_calls b (trace h p) <= n)%nat.
Proof.
  intros Hb Hp. unfold count_calls.
  induction Hp as [n a | n e | n X c k _ IH | n X c k Hc _ IH]; simpl;
    try lia.
  - destruct (b (Called c)); simpl;
      (destruct (h X c) as [x | e]; [specialize (IH x) | simpl]; lia).
  - destruct (b (Called c)) eqn:E; [exfalso; apply Hc, Hb, E |].
    destruct (h X c) as [x | e]; [apply IH | simpl; lia].
Qed.

(** X20.  In every run of [forward], whatever is requested, however often a
    name is repeated and whatever the collaborators answer: the shading model
    is called at most once, and not at all unless "rgb" is requested; the
    rasterizer is called at most once per requested channel, hence at most
    three times. *)
Theorem forward_call_counts (self : RendererModule) (cam : Camera)
    (pc : GaussianModel) (bg_color : list R) (scaling_modifier : R)
    (l : list string) (h : handler) :
  (count_calls model_callb
     (trace h (forward self cam pc bg_color scaling_modifier (Some l)))
   <= requested l "rgb")%nat /\
  (count_calls rasterize_callb
     (trace h (forward self cam pc bg_color scaling_modifier (Some l)))
   <= requested l "rgb" + (requested l "inverse_depth"
                           + requested l "hard_inverse_depth"))%nat /\
  (count_calls rasterize_callb
     (trace h (forward self cam pc bg_color scaling_modifier (Some l)))
   <= 3)%nat.
Proof.
  destruct (forward_at_most self cam pc bg_color scaling_modifier l)
    as (Hmodel & Hraster & Hthree).
  split; [| split].
  - apply (at_most_trace (@is_model_call)); [| exact Hmodel].
    intros X []; simpl; intros; try discriminate; exact I.
  - apply (at_most_trace (@is_rasterize_call)); [| exact Hraster].
    intros X []; simpl; intros; try discriminate; exact I.
  - apply (at_most_trace (@is_rasterize_call)); [| exact Hthree].
    intros X []; simpl; intros; try discriminate; exact I.
Qed.

(** ** A negative final factor *)



